(** * The recognition orchestration pipeline of [langextract.contrib.ingest]

    A shallow embedding of [pipeline.py], [types.py] and the part of
    [autodeps.py] the pipeline calls, followed by the properties of the
    vector-text gate, the engine auto-selector, the fallback executor and the
    dual-pass combiner.

    Modelling choices.
    - A Python [str] is a sequence of Unicode code points ([list N]), so that
      [len], slicing and [ch in txt] count what Python counts.
    - A Python [float] is a binary64 number ([PrimFloat.float]); [>=], [>] and
      [+] are the IEEE operations the interpreter performs.
    - The external collaborators (pdfminer, pdf2image, the seven engine
      modules, pip) are the fields of a [World]: deterministic functions of
      their arguments that either return or raise.  Every call the pipeline
      makes to one of them is recorded in a call log, so that "this engine was
      never constructed or invoked" is a statement about the log.
      A [World] describes one run: an engine module sets its import flag when
      it is first imported, so within a run every [create()] of a module
      answers the same.  A statement that relates two runs takes both in the
      same world, that is, with the same answers.
    - The images are the caller's objects.  Reading [im.size] and calling
      [im.crop(box)] may raise (an image file is opened lazily and loaded
      inside [crop]); whether they do is part of the [World] too.  These two
      calls are not logged.
    - [exn] stands for the instances of Python's [Exception]; that is what
      [except Exception] catches.
    - The seven adapters of [ocr/] and [vlm/] are embedded as well.  What they
      reach outside their modules (the engine libraries, the builtins [float]
      and [sum], the clock) are the fields of a [Runtime], and [shipped] is
      the world whose engine modules are these adapters. *)

From Stdlib Require Import List String Ascii ZArith NArith Bool Lia.
From Stdlib Require Import Floats.
Import ListNotations.
Open Scope Z_scope.
Set Warnings "-inexact-float".

(* ------------------------------------------------------------------ *)
(** ** Python strings *)

Definition char : Type := N.
Definition str : Type := list char.

(** An ASCII literal of the source as a sequence of code points. *)
Definition lit (s : string) : str := map N_of_ascii (list_ascii_of_string s).

Definition str_eqb (a b : str) : bool :=
  if list_eq_dec N.eq_dec a b then true else false.

Definition len {A} (l : list A) : Z := Z.of_nat (List.length l).

(** [name in order] on a list of strings. *)
Definition str_in (x : str) (l : list str) : bool := existsb (str_eqb x) l.

(** [str.isspace] on one code point (the set CPython uses for [strip]). *)
Definition is_space (c : char) : bool :=
  ((9 <=? c) && (c <=? 13) || (28 <=? c) && (c <=? 32)
   || (c =? 133) || (c =? 160) || (c =? 5760)
   || (8192 <=? c) && (c <=? 8202)
   || (c =? 8232) || (c =? 8233) || (c =? 8239) || (c =? 8287)
   || (c =? 12288))%N.

Fixpoint lstrip (s : str) : str :=
  match s with
  | [] => []
  | c :: s' => if is_space c then lstrip s' else s
  end.

Definition rstrip (s : str) : str := rev (lstrip (rev s)).

(** [text.strip()] *)
Definition strip (s : str) : str := rstrip (lstrip s).

(** [str.lower] on one code point.  Besides A-Z, the only code points whose
    lower-case form contains an ASCII character are U+0130 and U+212A; every
    other code point is left as it is here, which agrees with Python wherever
    the result is compared with an ASCII literal. *)
Definition lower_char (c : char) : str :=
  (if (65 <=? c) && (c <=? 90) then [c + 32]
   else if c =? 304 then [105; 775]
   else if c =? 8490 then [107]
   else [c])%N.

Definition lower (s : str) : str := flat_map lower_char s.

(* ------------------------------------------------------------------ *)
(** ** Values, images, results *)

(** The values found in configuration and metadata dictionaries. *)
#[warnings="-register-all"]
Inductive pyval : Type :=
| PyNone
| PyBool (b : bool)
| PyInt (z : Z)
| PyFloat (f : float)
| PyStr (s : str)
| PyDict (d : list (str * pyval)).

Definition dict : Type := list (str * pyval).

(** A page image: either a page produced by the rasterizer or handed in by
    the caller, or the result of [im.crop(box)]. *)
Inductive Image : Type :=
| Page (id : N) (w h : Z)
| Cropped (im : Image) (box : Z * Z * Z * Z).

(** The dimensions of an image: what [im.size] gives when it returns. *)
Definition size (im : Image) : Z * Z :=
  match im with
  | Page _ w h => (w, h)
  | Cropped _ (l, t, r, b) => (r - l, b - t)
  end.

(** The region [box] of an image: what [im.crop(box)] gives when it
    returns. *)
Definition crop (im : Image) (box : Z * Z * Z * Z) : Image := Cropped im box.

Module RecognizeResult.
Record t : Type := mk {
  text : str;
  mean_confidence : float;
  engine : str;
  meta : dict
}.
End RecognizeResult.

Module IngestResult.
Record t : Type := mk {
  input_path : option str;
  used_ocr : bool;
  engine : option str;
  ocr_confidence : option float;
  text : str;
  meta : dict
}.
End IngestResult.

(* ------------------------------------------------------------------ *)
(** ** Exceptions *)

Inductive exn_class : Type :=
| ImportError | ValueError | RuntimeError | NotImplementedError
| IndexError | TimeoutError | OtherError.

Inductive exn : Type := Exn (cls : exn_class) (msg : str).

Definition result (A : Type) : Type := (exn + A)%type.

(** Sequencing of calls that may raise. *)
Definition rbind {A B} (r : result A) (f : A -> result B) : result B :=
  match r with
  | inl e => inl e
  | inr a => f a
  end.

(** A loop whose body may raise: the first exception ends it. *)
Fixpoint for_each {A B} (f : A -> result B) (l : list A) : result (list B) :=
  match l with
  | [] => inr []
  | a :: l' =>
      rbind (f a) (fun b => rbind (for_each f l') (fun bs => inr (b :: bs)))
  end.

(** The adapter interface of [types.py].  The two methods carry the suffix
    [_method] to tell them from the pipeline's functions [recognize_pdf] and
    [recognize_images]; each returns a result or raises. *)
Record RecognizerAdapter : Type := {
  name : str;
  supports_pdf : bool;
  supports_image : bool;
  recognize_pdf_method : str -> option dict -> result RecognizeResult.t;
  recognize_images_method : list Image -> option dict -> result RecognizeResult.t
}.

(** The engine modules [build_adapter] imports. *)
Inductive EngineModule : Type :=
| paddle | tesseract | easyocr | doctr | trocr | donut | nougat.

(** Everything outside the pipeline, during one run: the environment switch
    read by [autodeps._should_auto_install], the two import flags of
    [pipeline.py] with the functions behind them, the exception, if any, that
    [im.size] and [im.crop(box)] raise on an image, and for every engine
    module what importing it and calling its [create()] gives.

    [create] is a function of the module alone.  That is what one run sees:
    the module's guarded import sets [_HAS_...] once, at the first import,
    and every later [create()] of the run answers accordingly.  What the
    answer is depends on what was installed before that first import, so two
    runs that install at different moments may see different answers; a
    statement about two runs in one world presupposes that they do not. *)
Record World : Type := {
  auto_install : bool;
  _HAS_PDFMINER : bool;
  pdfminer_extract_text : str -> result str;
  _HAS_PDF2IMAGE : bool;
  convert_from_path : str -> Z -> option Z -> option Z -> result (list Image);
  size_raises : Image -> option exn;
  crop_raises : Image -> Z * Z * Z * Z -> option exn;
  create : EngineModule -> result RecognizerAdapter
}.

(** [im.size] and [im.crop(box)]: calls on the caller's object, which return
    the dimensions and the region, or raise. *)
Definition im_size (w : World) (im : Image) : result (Z * Z) :=
  match size_raises w im with
  | Some e => inl e
  | None => inr (size im)
  end.

Definition im_crop (w : World) (im : Image) (box : Z * Z * Z * Z)
    : result Image :=
  match crop_raises w im box with
  | Some e => inl e
  | None => inr (crop im box)
  end.

(* ------------------------------------------------------------------ *)
(** ** The call log and the monad of the pipeline *)

Inductive event : Type :=
| PipInstall (pkgs : list str)
| ExtractText (path : str)
| ConvertFromPath (path : str) (dpi : Z) (first_page last_page : option Z)
| Create (m : EngineModule)
| CallRecognizePdf (adapter : str) (path : str) (cfg : option dict)
| CallRecognizeImages (adapter : str) (images : list Image) (cfg : option dict).

(** A computation: the calls it made, and an exception or a value. *)
Definition M (A : Type) : Type := (list event * result A)%type.

Definition ret {A} (a : A) : M A := ([], inr a).

Definition raise {A} (e : exn) : M A := ([], inl e).

Definition bind {A B} (m : M A) (f : A -> M B) : M B :=
  match m with
  | (l, inl e) => (l, inl e)
  | (l, inr a) => let (l', r) := f a in (l ++ l', r)
  end.

(** [try: m  except Exception: h] *)
Definition try_except {A} (m : M A) (h : exn -> M A) : M A :=
  match m with
  | (l, inl e) => let (l', r) := h e in (l ++ l', r)
  | (l, inr a) => (l, inr a)
  end.

(** An external call: logged, then its outcome. *)
Definition call {A} (ev : event) (r : result A) : M A := ([ev], r).

(** A call that is not logged: its outcome alone. *)
Definition lift {A} (r : result A) : M A := ([], r).

Definition calls {A} (m : M A) : list event := fst m.
Definition outcome {A} (m : M A) : result A := snd m.

Declare Scope pipeline_scope.
Delimit Scope pipeline_scope with pipeline.
Notation "x <- m ;; k" := (bind m (fun x => k))
  (at level 61, m at next level, right associativity) : pipeline_scope.
Notation "m ;;; k" := (bind m (fun _ => k))
  (at level 61, right associativity) : pipeline_scope.
Open Scope pipeline_scope.

(* ------------------------------------------------------------------ *)
(** ** [autodeps.py] *)

Definition _ENGINE_TO_PACKAGES : list (str * list str) :=
  [ (lit "paddle", [lit "paddleocr>=2.7.0.3"]);
    (lit "easyocr", [lit "easyocr>=1.7.1"]);
    (lit "tesseract", [lit "pytesseract>=0.3.10"]);
    (lit "doctr", [lit "python-doctr[torch]>=0.8.1"]);
    (lit "trocr", [lit "transformers>=4.41.0"; lit "timm>=1.0.0"]);
    (lit "donut", [lit "transformers>=4.41.0"; lit "timm>=1.0.0"]);
    (lit "nougat", [lit "transformers>=4.41.0"]) ].

Definition _COMMON : list str :=
  [ lit "pdfminer.six>=20221105"; lit "pdf2image>=1.16.3";
    lit "pillow>=10.0.0"; lit "numpy>=1.20.0"; lit "tenacity>=8.0.0" ].

(** [_pip_install] swallows every exception of the subprocess, so the call
    is logged and nothing is raised. *)
Definition _pip_install (pkgs : list str) : M unit :=
  call (PipInstall pkgs) (inr tt).

Definition ensure_common (w : World) : M unit :=
  if negb (auto_install w) then ret tt else _pip_install _COMMON.

(** [_ENGINE_TO_PACKAGES.get(engine, [])] *)
Fixpoint dict_get {V} (d : list (str * V)) (k : str) (default : V) : V :=
  match d with
  | [] => default
  | (k', v) :: d' => if str_eqb k k' then v else dict_get d' k default
  end.

Definition ensure_for_engine (w : World) (engine : str) : M unit :=
  if negb (auto_install w) then ret tt
  else
    let pkgs := dict_get _ENGINE_TO_PACKAGES engine [] in
    match pkgs with
    | [] => ret tt
    | _ => _pip_install pkgs
    end.

(** [_should_auto_install], as a function of what [os.getenv] finds for
    [LANGEXTRACT_INGEST_AUTO_INSTALL]: [None] when the variable is unset. *)
Definition _should_auto_install (getenv : option str) : bool :=
  let env := strip (match getenv with Some v => v | None => lit "1" end) in
  negb (str_in env [lit "0"; lit "false"; lit "False"; lit "no"]).

(* ------------------------------------------------------------------ *)
(** ** [pipeline.py] *)

Definition is_sufficient_vector_text (text : str) (min_len : Z) : bool :=
  match text with
  | [] => false
  | _ => min_len <=? len (strip text)
  end.

Definition _load_images_from_pdf (w : World) (path : str) (dpi : Z)
    (first_page last_page : option Z) : M (list Image) :=
  if negb (_HAS_PDF2IMAGE w) then
    raise (Exn ImportError
      (lit "pdf2image not available. Install extras: pip install .[ingest]"))
  else
    call (ConvertFromPath path dpi first_page last_page)
         (convert_from_path w path dpi first_page last_page).

(** The loop runs over [images[:1]]; [im.size] and [im.crop(box)] are not
    guarded, so what they raise leaves the function. *)
Definition _pilot_crop (w : World) (images : list Image) (max_side : Z)
    : result (list Image) :=
  rbind
    (for_each
       (fun im =>
          rbind (im_size w im) (fun '(wd, ht) =>
          im_crop w im (0, 0, Z.min wd max_side, Z.min ht max_side)))
       (firstn 1 images))
    (fun out =>
       inr (match out with
            | [] => firstn 1 images
            | _ :: _ => out
            end)).

(** The registry: the module [build_adapter] imports for a lower-cased
    identifier, if any. *)
Definition registry (e : str) : option EngineModule :=
  if str_eqb e (lit "paddle") then Some paddle
  else if str_eqb e (lit "tesseract") then Some tesseract
  else if str_eqb e (lit "easyocr") then Some easyocr
  else if str_eqb e (lit "doctr") then Some doctr
  else if str_eqb e (lit "trocr") then Some trocr
  else if str_eqb e (lit "donut") then Some donut
  else if str_eqb e (lit "nougat") then Some nougat
  else None.

Definition build_adapter (w : World) (engine : str) : M RecognizerAdapter :=
  let e := lower engine in
  match registry e with
  | Some m => call (Create m) (create w m)
  | None => raise (Exn ValueError (lit "Unknown engine: " ++ engine))
  end.

(** [adapter.recognize_pdf(path, cfg)] and [adapter.recognize_images(images,
    cfg)], logged under the adapter's [name]. *)
Definition recognize_pdf_call (a : RecognizerAdapter) (path : str)
    (cfg : option dict) : M RecognizeResult.t :=
  call (CallRecognizePdf (name a) path cfg) (recognize_pdf_method a path cfg).

Definition recognize_images_call (a : RecognizerAdapter) (images : list Image)
    (cfg : option dict) : M RecognizeResult.t :=
  call (CallRecognizeImages (name a) images cfg)
       (recognize_images_method a images cfg).

(** The script-bonus characters of [auto_select_engine]. *)
Definition bonus_chars : str :=
  [231; 287; 305; 246; 351; 252; 199; 286; 304; 214; 350; 220]%N.

Definition char_in (c : char) (s : str) : bool := existsb (N.eqb c) s.

(** The score of one pilot result. *)
Definition pilot_score (res : RecognizeResult.t) : float :=
  let score := RecognizeResult.mean_confidence res in
  let txt := firstn 512 (RecognizeResult.text res) in
  if existsb (fun ch => char_in ch txt) bonus_chars
  then (score + 0.05)%float else score.

(** The pilot of one candidate: the body of the [try]. *)
Definition pilot (w : World) (pilot_images : list Image) (cfg : option dict)
    (name : str) : M RecognizeResult.t :=
  adapter <- build_adapter w name ;;
  recognize_images_call adapter pilot_images cfg.

(** The loop of [auto_select_engine], with its two loop variables. *)
Fixpoint auto_select_loop (w : World) (pilot_images : list Image)
    (cfg : option dict) (candidates : list str)
    (best_name : option str) (best_score : float) : M (option str * float) :=
  match candidates with
  | [] => ret (best_name, best_score)
  | name :: rest =>
      st <- try_except
              (res <- pilot w pilot_images cfg name ;;
               let score := pilot_score res in
               if (best_score <? score)%float
               then ret (Some name, score)
               else ret (best_name, best_score))
              (fun _ => ret (best_name, best_score)) ;;
      auto_select_loop w pilot_images cfg rest (fst st) (snd st)
  end.

Definition default_candidates : list str :=
  [lit "paddle"; lit "easyocr"; lit "tesseract"].

(** The crop comes first, outside the [try] of the loop.  [candidates[0]]
    on an empty list raises [IndexError("list index out of range")] (for a
    tuple the message names the tuple). *)
Definition auto_select_engine (w : World) (images : list Image)
    (candidates : list str) (cfg : option dict) : M str :=
  pilot_images <- lift (_pilot_crop w images 512) ;;
  st <- auto_select_loop w pilot_images cfg candidates None (-1)%float ;;
  match fst st with
  | Some ((_ :: _) as best_name) => ret best_name
  | _ =>
      match candidates with
      | c :: _ => ret c
      | [] => raise (Exn IndexError (lit "list index out of range"))
      end
  end.

(** [ocr_cfg = ocr_cfg or {}] *)
Definition or_empty (ocr_cfg : option dict) : dict :=
  match ocr_cfg with
  | Some (kv :: d) => kv :: d
  | _ => []
  end.

(** [for name in ("paddle", "easyocr", "tesseract"): if name not in order:
    order.append(name)] *)
Definition append_defaults (order : list str) : list str :=
  fold_left
    (fun order name => if negb (str_in name order) then order ++ [name] else order)
    default_candidates order.

(** [order = list(fallback_order) if fallback_order else [engine]] *)
Definition initial_order (engine : str) (fallback_order : option (list str))
    : list str :=
  match fallback_order with
  | Some (n :: l) => n :: l
  | _ => [engine]
  end.

(** [if engine not in order: order.insert(0, engine)] *)
Definition with_engine (engine : str) (order : list str) : list str :=
  if negb (str_in engine order) then engine :: order else order.

(** The order [recognize_pdf] builds (step 4 of the source). *)
Definition order_for_pdf (engine : str) (fallback_order : option (list str))
    : list str :=
  append_defaults (with_engine engine (initial_order engine fallback_order)).

(** The order [recognize_images] builds. *)
Definition order_for_images (engine : str) : list str :=
  append_defaults [engine].

(** What one turn of a fallback loop does to the control flow. *)
Inductive loop_step : Type :=
| Return (r : IngestResult.t)
| Continue (last_res : option RecognizeResult.t).

(** The result returned when [res], obtained from [name], clears the
    threshold. *)
Definition accepted (input_path : option str) (name : str)
    (res : RecognizeResult.t) : IngestResult.t :=
  IngestResult.mk input_path true (Some name)
    (Some (RecognizeResult.mean_confidence res))
    (RecognizeResult.text res) (RecognizeResult.meta res).

(** The result returned from [last_res] when the loop is exhausted. *)
Definition degraded (input_path : option str) (last_res : RecognizeResult.t)
    : IngestResult.t :=
  IngestResult.mk input_path true (Some (RecognizeResult.engine last_res))
    (Some (RecognizeResult.mean_confidence last_res))
    (RecognizeResult.text last_res) (RecognizeResult.meta last_res).

(** The fallback loop and what follows it.  [attempt] is the part of the
    [try] body that produces [res]; the two entry points differ in it, in
    [input_path] and in the message of the final [RuntimeError]. *)
Fixpoint run_with_fallback (attempt : str -> M RecognizeResult.t)
    (input_path : option str) (no_engine : str) (confidence_threshold : float)
    (order : list str) (last_res : option RecognizeResult.t)
    : M IngestResult.t :=
  match order with
  | [] =>
      match last_res with
      | Some last => ret (degraded input_path last)
      | None => raise (Exn RuntimeError no_engine)
      end
  | name :: rest =>
      step <- try_except
                (res <- attempt name ;;
                 if (confidence_threshold <=? RecognizeResult.mean_confidence res)%float
                 then ret (Return (accepted input_path name res))
                 else ret (Continue (Some res)))
                (fun _ => ret (Continue last_res)) ;;
      match step with
      | Return r => ret r
      | Continue last =>
          run_with_fallback attempt input_path no_engine confidence_threshold
            rest last
      end
  end.

(** One engine attempt of [recognize_pdf]. *)
Definition attempt_pdf (w : World) (path : str) (images : list Image)
    (ocr_cfg : dict) (name : str) : M RecognizeResult.t :=
  ensure_for_engine w name ;;;
  adapter <- build_adapter w name ;;
  if supports_pdf adapter
  then recognize_pdf_call adapter path (Some ocr_cfg)
  else recognize_images_call adapter images (Some ocr_cfg).

(** One engine attempt of [recognize_images]. *)
Definition attempt_images (w : World) (images : list Image) (ocr_cfg : dict)
    (name : str) : M RecognizeResult.t :=
  ensure_for_engine w name ;;;
  adapter <- build_adapter w name ;;
  recognize_images_call adapter images (Some ocr_cfg).

Definition no_engine_pdf : str := lit "No OCR engine succeeded for given PDF".
Definition no_engine_images : str := lit "No OCR engine succeeded for images".

(** Step 4 of [recognize_pdf] once [order] is built: the loop and its
    epilogue. *)
Definition run_fallback_pdf (w : World) (path : str) (images : list Image)
    (ocr_cfg : dict) (confidence_threshold : float) (order : list str)
    : M IngestResult.t :=
  run_with_fallback (attempt_pdf w path images ocr_cfg) (Some path)
    no_engine_pdf confidence_threshold order None.

(** The same for [recognize_images]. *)
Definition run_fallback_images (w : World) (images : list Image)
    (ocr_cfg : dict) (confidence_threshold : float) (order : list str)
    : M IngestResult.t :=
  run_with_fallback (attempt_images w images ocr_cfg) None
    no_engine_images confidence_threshold order None.

(** The result of the vector-text short cut. *)
Definition vector_result (path : str) (vector_text : str) : IngestResult.t :=
  IngestResult.mk (Some path) false None None vector_text
    [(lit "vector", PyBool true)].

(** Step 1 of [recognize_pdf]: the embedded text, or the empty string. *)
Definition extract_vector_text (w : World) (path : str) (prefer_ocr : bool)
    : M str :=
  if negb prefer_ocr && _HAS_PDFMINER w then
    try_except (call (ExtractText path) (pdfminer_extract_text w path))
               (fun _ => ret [])
  else ret [].

Definition truthy (s : str) : bool :=
  match s with [] => false | _ => true end.

(** [if engine == "auto": engine = auto_select_engine(images, cfg=ocr_cfg)] *)
Definition choose_engine (w : World) (images : list Image) (engine : str)
    (ocr_cfg : dict) : M str :=
  if str_eqb engine (lit "auto")
  then auto_select_engine w images default_candidates (Some ocr_cfg)
  else ret engine.

(** Steps 2 to 4 of [recognize_pdf]: rasterize, choose the engine, run with
    fallback. *)
Definition recognize_pdf_by_ocr (w : World) (path : str) (engine : str)
    (ocr_cfg : dict) (dpi : Z) (first_page last_page : option Z)
    (confidence_threshold : float) (fallback_order : option (list str))
    : M IngestResult.t :=
  images <- _load_images_from_pdf w path dpi first_page last_page ;;
  engine <- choose_engine w images engine ocr_cfg ;;
  run_fallback_pdf w path images ocr_cfg confidence_threshold
    (order_for_pdf engine fallback_order).

Definition recognize_pdf (w : World) (path : str) (engine : str)
    (prefer_ocr : bool) (ocr_cfg : option dict) (dpi : Z)
    (first_page last_page : option Z) (confidence_threshold : float)
    (fallback_order : option (list str)) : M IngestResult.t :=
  let ocr_cfg := or_empty ocr_cfg in
  ensure_common w ;;;
  vector_text <- extract_vector_text w path prefer_ocr ;;
  if truthy vector_text && is_sufficient_vector_text vector_text 64 then
    ret (vector_result path vector_text)
  else
    recognize_pdf_by_ocr w path engine ocr_cfg dpi first_page last_page
      confidence_threshold fallback_order.

Definition recognize_images (w : World) (images : list Image) (engine : str)
    (ocr_cfg : option dict) (confidence_threshold : float) : M IngestResult.t :=
  let ocr_cfg := or_empty ocr_cfg in
  ensure_common w ;;;
  engine <- choose_engine w images engine ocr_cfg ;;
  run_fallback_images w images ocr_cfg confidence_threshold
    (order_for_images engine).

(** [printed.ocr_confidence or 0.0] *)
Definition or_zero (c : option float) : float :=
  match c with
  | Some x => if (x =? 0)%float then 0%float else x
  | None => 0%float
  end.

(** The builtin [max] on two floats: the second only if it is greater. *)
Definition py_max (a b : float) : float := if (a <? b)%float then b else a.

(** How an optional string is formatted inside an f-string. *)
Definition format_opt (s : option str) : str :=
  match s with
  | Some s => s
  | None => lit "None"
  end.

Definition newline : str := [10%N].

(** The second pass of [maybe_enable_htr]: the first two lines of its [try]. *)
Definition htr_pass (w : World) (images : list Image) (ocr_cfg : option dict)
    (htr_engine : str) : M RecognizeResult.t :=
  htr_adapter <- build_adapter w htr_engine ;;
  recognize_images_call htr_adapter images ocr_cfg.

(** The combined result built from the two passes. *)
Definition combine (printed : IngestResult.t) (htr_res : RecognizeResult.t)
    : IngestResult.t :=
  let combined_text :=
    IngestResult.text printed ++ newline ++ RecognizeResult.text htr_res in
  let mean_conf :=
    py_max (or_zero (IngestResult.ocr_confidence printed))
           (RecognizeResult.mean_confidence htr_res) in
  IngestResult.mk None true
    (Some (format_opt (IngestResult.engine printed) ++ lit "+"
           ++ RecognizeResult.engine htr_res))
    (Some mean_conf) combined_text
    [ (lit "printed", PyDict (IngestResult.meta printed));
      (lit "htr", PyDict (RecognizeResult.meta htr_res)) ].

Definition maybe_enable_htr (w : World) (images : list Image)
    (enable_htr : bool) (printed_text_engine htr_engine : str)
    (ocr_cfg : option dict) : M IngestResult.t :=
  if negb enable_htr then
    recognize_images w images printed_text_engine ocr_cfg 0.6%float
  else
    printed <- recognize_images w images printed_text_engine ocr_cfg 0.6%float ;;
    try_except
      (htr_res <- htr_pass w images ocr_cfg htr_engine ;;
       ret (combine printed htr_res))
      (fun _ => ret printed).

(* ------------------------------------------------------------------ *)
(** ** The engine adapters *)

(** *** Builtins *)

(** [sep.join(parts)] *)
Fixpoint join (sep : str) (parts : list str) : str :=
  match parts with
  | [] => []
  | p :: rest =>
      match rest with
      | [] => p
      | _ :: _ => p ++ sep ++ join sep rest
      end
  end.

(** [bool(v)] *)
Definition py_bool (v : pyval) : bool :=
  match v with
  | PyNone => false
  | PyBool b => b
  | PyInt z => negb (z =? 0)%Z
  | PyFloat f => negb (f =? 0)%float
  | PyStr s => truthy s
  | PyDict d => match d with [] => false | _ :: _ => true end
  end.

(** The builtin [min] on two floats: the second only if it is smaller. *)
Definition py_min (a b : float) : float := if (b <? a)%float then b else a.

(** [max(0.0, min(1.0, mean_conf))] *)
Definition clamp (mean_conf : float) : float := py_max 0 (py_min 1 mean_conf).

(** [x or []] *)
Definition or_nil {A} (x : option (list A)) : list A :=
  match x with Some l => l | None => [] end.

(** [len(xs)] as the float that [/] and [*] make of it. *)
Definition float_of_len {A} (xs : list A) : float :=
  PrimFloat.of_uint63 (Uint63.of_Z (Z.of_nat (List.length xs))).

(** *** The engine libraries *)

(** A [PaddleOCR] object: its method [ocr] on a PDF path and on an image.
    A page is a list of [(box, (txt, score))] items, of which the box is
    dropped; a page and the whole result may be [None]. *)
Record PaddleOCR_t : Type := {
  ocr_pdf : str -> result (option (list (option (list (str * pyval)))));
  ocr_image : Image -> result (option (list (str * pyval)))
}.

(** The page list of a DocTR export: pages of blocks of lines of word
    values, a missing key read as its default. *)
Definition doctr_pages : Type := list (list (list (list str))).

(** Everything the adapters reach outside their modules: the builtins [float]
    and [sum], the clock, and the engine libraries with the flags set by
    their guarded imports. *)
Record Runtime : Type := {
  (* float(x), which raises on what is not a number *)
  py_float : pyval -> result float;
  (* sum(xs) on a list of floats *)
  py_sum : list float -> float;
  (* int((time.time() - t0) * 1000) *)
  elapsed_ms : Z;
  (* paddleocr: PaddleOCR(use_angle_cls=True, lang=lang, use_gpu=use_gpu) *)
  _HAS_PADDLE : bool;
  PaddleOCR : pyval -> bool -> result PaddleOCR_t;
  (* pytesseract: image_to_string(im, lang=lang), and the "conf" entry of
     image_to_data(im, lang=lang, output_type=DICT), None when it has none *)
  _HAS_TESS : bool;
  image_to_string : Image -> pyval -> result str;
  image_to_data_conf : Image -> pyval -> result (option (list pyval));
  (* easyocr: Reader([lang], gpu=gpu) and its readtext, the boxes dropped *)
  _HAS_EASY : bool;
  easyocr_Reader : pyval -> bool -> result (Image -> result (list (str * pyval)));
  (* doctr: ocr_predictor(det_arch, reco_arch, pretrained); the predictor
     applied to pages, then export()["pages"] of what it returns; and
     DocumentFile.from_pdf(path) *)
  _HAS_DOCTR : bool;
  ocr_predictor :
    pyval -> pyval -> bool -> result (list Image -> result (result doctr_pages));
  from_pdf : str -> result (list Image);
  (* torch.cuda.is_available() *)
  cuda_is_available : bool;
  (* transformers: the processor and the model loaded for model_id and moved
     to the device, as the function from an image to its decoded text (for
     Donut: from an image and the task prompt) *)
  _HAS_TROCR : bool;
  trocr_from_pretrained : pyval -> str -> result (Image -> result str);
  _HAS_DONUT : bool;
  donut_from_pretrained : pyval -> str -> result (Image -> pyval -> result str);
  (* nougat: NougatModel.from_pretrained(model_name).to(device) and its
     inference on a PDF path *)
  _HAS_NOUGAT : bool;
  nougat_from_pretrained : pyval -> pyval -> result (str -> result str)
}.

(** [sum(xs) / len(xs) if xs else 0.0] *)
Definition mean_or_zero (rt : Runtime) (xs : list float) : float :=
  match xs with
  | [] => 0%float
  | _ :: _ => (py_sum rt xs / float_of_len xs)%float
  end.

(** [try: scores.append(float(score)) except Exception: continue]: what one
    item adds to the scores. *)
Definition score_of (rt : Runtime) (score : pyval) : list float :=
  match py_float rt score with
  | inr f => [f]
  | inl _ => []
  end.

Definition elapsed_entry (rt : Runtime) : str * pyval :=
  (lit "elapsed_ms", PyInt (elapsed_ms rt)).

Definition pages_entry {A} (pages : list A) : str * pyval :=
  (lit "pages", PyInt (Z.of_nat (List.length pages))).

Definition not_rasterized : exn :=
  Exn NotImplementedError (lit "Use recognize_images() after rasterizing PDF").

(** *** [ocr/paddle.py] *)

Definition PaddleAdapter__build (rt : Runtime) (cfg : option dict)
    : result PaddleOCR_t :=
  let lang := dict_get (or_empty cfg) (lit "lang") (PyStr (lit "turkish")) in
  let use_gpu := py_bool (dict_get (or_empty cfg) (lit "use_gpu") (PyBool false)) in
  PaddleOCR rt lang use_gpu.

(** The result built from the items read, shared by the two methods. *)
Definition scored_result {A} (rt : Runtime) (name : str) (cfg : option dict)
    (items : list (str * pyval)) (pages : list A) : RecognizeResult.t :=
  let texts := map fst items in
  let scores := flat_map (fun it => score_of rt (snd it)) items in
  RecognizeResult.mk (join newline texts) (clamp (mean_or_zero rt scores)) name
    [ elapsed_entry rt; pages_entry pages;
      (lit "lang", dict_get (or_empty cfg) (lit "lang") PyNone) ].

Definition PaddleAdapter_recognize_pdf (rt : Runtime) (path : str)
    (cfg : option dict) : result RecognizeResult.t :=
  rbind (PaddleAdapter__build rt cfg) (fun ocr =>
  rbind (ocr_pdf ocr path) (fun result =>
  inr (scored_result rt (lit "paddle") cfg
         (flat_map or_nil (or_nil result)) (or_nil result)))).

Definition PaddleAdapter_recognize_images (rt : Runtime) (images : list Image)
    (cfg : option dict) : result RecognizeResult.t :=
  rbind (PaddleAdapter__build rt cfg) (fun ocr =>
  rbind (for_each (fun im => rbind (ocr_image ocr im) (fun out => inr (or_nil out)))
           images) (fun outs =>
  inr (scored_result rt (lit "paddle") cfg (List.concat outs) images))).

Definition PaddleAdapter (rt : Runtime) : RecognizerAdapter :=
  {| name := lit "paddle";
     supports_pdf := true;
     supports_image := true;
     recognize_pdf_method := PaddleAdapter_recognize_pdf rt;
     recognize_images_method := PaddleAdapter_recognize_images rt |}.

Definition paddle_create (rt : Runtime) : result RecognizerAdapter :=
  if negb (_HAS_PADDLE rt) then
    inl (Exn ImportError
           (lit "PaddleOCR not available. Install extras: pip install .[ingest-paddle]"))
  else inr (PaddleAdapter rt).

(** *** [ocr/easyocr.py] *)

Definition EasyOCRAdapter__build (rt : Runtime) (cfg : option dict)
    : result (Image -> result (list (str * pyval))) :=
  let lang := dict_get (or_empty cfg) (lit "lang") (PyStr (lit "tr")) in
  let gpu := py_bool (dict_get (or_empty cfg) (lit "use_gpu") (PyBool false)) in
  easyocr_Reader rt lang gpu.

Definition EasyOCRAdapter_recognize_images (rt : Runtime) (images : list Image)
    (cfg : option dict) : result RecognizeResult.t :=
  rbind (EasyOCRAdapter__build rt cfg) (fun readtext =>
  rbind (for_each readtext images) (fun outs =>
  inr (scored_result rt (lit "easyocr") cfg (List.concat outs) images))).

Definition EasyOCRAdapter (rt : Runtime) : RecognizerAdapter :=
  {| name := lit "easyocr";
     supports_pdf := false;
     supports_image := true;
     recognize_pdf_method := fun _ _ => inl not_rasterized;
     recognize_images_method := EasyOCRAdapter_recognize_images rt |}.

Definition easyocr_create (rt : Runtime) : result RecognizerAdapter :=
  if negb (_HAS_EASY rt) then
    inl (Exn ImportError
           (lit "EasyOCR not available. Install extras: pip install .[ingest-easyocr]"))
  else inr (EasyOCRAdapter rt).

(** *** [ocr/tesseract.py] *)

(** [c not in ("-1", None)] *)
Definition is_conf (c : pyval) : bool :=
  match c with
  | PyStr s => negb (str_eqb s (lit "-1"))
  | PyNone => false
  | _ => true
  end.

(** The [try] of the loop: what one image adds to [confs]. *)
Definition page_conf (rt : Runtime) (lang : pyval) (im : Image) : list float :=
  match image_to_data_conf rt im lang with
  | inl _ => []
  | inr conf =>
      match for_each (py_float rt) (filter is_conf (or_nil conf)) with
      | inl _ => []
      | inr [] => []
      | inr (c :: cs) =>
          [(py_sum rt (c :: cs) / (100 * float_of_len (c :: cs)))%float]
      end
  end.

Definition TesseractAdapter_recognize_images (rt : Runtime) (images : list Image)
    (cfg : option dict) : result RecognizeResult.t :=
  let lang := dict_get (or_empty cfg) (lit "lang") (PyStr (lit "tur")) in
  rbind (for_each (fun im => rbind (image_to_string rt im lang) (fun txt =>
                             inr (txt, page_conf rt lang im)))
           images) (fun outs =>
  let texts := map fst outs in
  let confs := flat_map snd outs in
  inr (RecognizeResult.mk (join newline texts) (clamp (mean_or_zero rt confs))
         (lit "tesseract")
         [ elapsed_entry rt; pages_entry images; (lit "lang", lang) ])).

Definition TesseractAdapter (rt : Runtime) : RecognizerAdapter :=
  {| name := lit "tesseract";
     supports_pdf := false;
     supports_image := true;
     recognize_pdf_method := fun _ _ => inl not_rasterized;
     recognize_images_method := TesseractAdapter_recognize_images rt |}.

Definition tesseract_create (rt : Runtime) : result RecognizerAdapter :=
  if negb (_HAS_TESS rt) then
    inl (Exn ImportError
           (lit "Tesseract not available. Install tesseract system package and pip install .[ingest-tesseract]"))
  else inr (TesseractAdapter rt).

(** *** [ocr/doctr.py] *)

Definition DocTRAdapter__build (rt : Runtime) (cfg : option dict)
    : result (list Image -> result (result doctr_pages)) :=
  let reco_arch :=
    dict_get (or_empty cfg) (lit "reco_arch") (PyStr (lit "crnn_vgg16_bn")) in
  let det_arch :=
    dict_get (or_empty cfg) (lit "det_arch") (PyStr (lit "db_resnet50")) in
  let pretrained :=
    py_bool (dict_get (or_empty cfg) (lit "pretrained") (PyBool true)) in
  ocr_predictor rt det_arch reco_arch pretrained.

(** The lines of an export, in the order of the three nested loops; a line
    without words gives none. *)
Definition doctr_lines (pages : doctr_pages) : list str :=
  flat_map (fun page =>
    flat_map (fun block =>
      flat_map (fun parts =>
        match parts with
        | [] => []
        | _ :: _ => [join (lit " ") parts]
        end) block) page) pages.

(** The [try] around the loops: an export that raises adds no line. *)
Definition export_lines (export : result doctr_pages) : list str :=
  match export with
  | inl _ => []
  | inr pages => doctr_lines pages
  end.

Definition DocTRAdapter_recognize_pdf (rt : Runtime) (path : str)
    (cfg : option dict) : result RecognizeResult.t :=
  rbind (DocTRAdapter__build rt cfg) (fun predictor =>
  rbind (from_pdf rt path) (fun doc =>
  rbind (predictor doc) (fun res =>
  inr (RecognizeResult.mk (join newline (export_lines res)) 0%float (lit "doctr")
         [ elapsed_entry rt; pages_entry doc ])))).

Definition DocTRAdapter_recognize_images (rt : Runtime) (images : list Image)
    (cfg : option dict) : result RecognizeResult.t :=
  rbind (DocTRAdapter__build rt cfg) (fun predictor =>
  rbind (for_each (fun im => rbind (predictor [im]) (fun res =>
                             inr (export_lines res)))
           images) (fun outs =>
  inr (RecognizeResult.mk (join newline (List.concat outs)) 0%float (lit "doctr")
         [ elapsed_entry rt; pages_entry images ]))).

Definition DocTRAdapter (rt : Runtime) : RecognizerAdapter :=
  {| name := lit "doctr";
     supports_pdf := true;
     supports_image := true;
     recognize_pdf_method := DocTRAdapter_recognize_pdf rt;
     recognize_images_method := DocTRAdapter_recognize_images rt |}.

Definition doctr_create (rt : Runtime) : result RecognizerAdapter :=
  if negb (_HAS_DOCTR rt) then
    inl (Exn ImportError
           (lit "DocTR not available. Install extras: pip install .[ingest-doctr]"))
  else inr (DocTRAdapter rt).

(** *** [vlm/trocr.py] and [vlm/donut.py] *)

(** ["cuda" if torch.cuda.is_available() and (cfg or {}).get("use_gpu", True)
    else "cpu"] *)
Definition device_of (rt : Runtime) (cfg : option dict) : str :=
  if cuda_is_available rt
     && py_bool (dict_get (or_empty cfg) (lit "use_gpu") (PyBool true))
  then lit "cuda" else lit "cpu".

Definition TrOCRAdapter_recognize_images (rt : Runtime) (images : list Image)
    (cfg : option dict) : result RecognizeResult.t :=
  let model_id :=
    dict_get (or_empty cfg) (lit "model")
      (PyStr (lit "microsoft/trocr-base-printed")) in
  let device := device_of rt cfg in
  rbind (trocr_from_pretrained rt model_id device) (fun decode =>
  rbind (for_each decode images) (fun texts =>
  inr (RecognizeResult.mk (join newline texts) 0%float (lit "trocr")
         [ elapsed_entry rt; pages_entry images; (lit "device", PyStr device) ]))).

Definition TrOCRAdapter (rt : Runtime) : RecognizerAdapter :=
  {| name := lit "trocr";
     supports_pdf := false;
     supports_image := true;
     recognize_pdf_method := fun _ _ => inl not_rasterized;
     recognize_images_method := TrOCRAdapter_recognize_images rt |}.

Definition trocr_create (rt : Runtime) : result RecognizerAdapter :=
  if negb (_HAS_TROCR rt) then
    inl (Exn ImportError
           (lit "TrOCR not available. Install extras: pip install .[ingest-vlm]"))
  else inr (TrOCRAdapter rt).

Definition DonutAdapter_recognize_images (rt : Runtime) (images : list Image)
    (cfg : option dict) : result RecognizeResult.t :=
  let model_id :=
    dict_get (or_empty cfg) (lit "model") (PyStr (lit "naver-clova-ix/donut-base")) in
  let device := device_of rt cfg in
  let task_prompt :=
    dict_get (or_empty cfg) (lit "task_prompt")
      (PyStr (lit "<s_docvqa><s_question>extract_text</s_question><s_answer>")) in
  rbind (donut_from_pretrained rt model_id device) (fun decode =>
  rbind (for_each (fun im => decode im task_prompt) images) (fun texts =>
  inr (RecognizeResult.mk (join newline texts) 0%float (lit "donut")
         [ elapsed_entry rt; pages_entry images; (lit "device", PyStr device) ]))).

Definition DonutAdapter (rt : Runtime) : RecognizerAdapter :=
  {| name := lit "donut";
     supports_pdf := false;
     supports_image := true;
     recognize_pdf_method := fun _ _ => inl not_rasterized;
     recognize_images_method := DonutAdapter_recognize_images rt |}.

Definition donut_create (rt : Runtime) : result RecognizerAdapter :=
  if negb (_HAS_DONUT rt) then
    inl (Exn ImportError
           (lit "Donut not available. Install extras: pip install .[ingest-vlm]"))
  else inr (DonutAdapter rt).

(** *** [vlm/nougat.py] *)

Definition NougatAdapter_recognize_pdf (rt : Runtime) (path : str)
    (cfg : option dict) : result RecognizeResult.t :=
  let model_name :=
    dict_get (or_empty cfg) (lit "model") (PyStr (lit "facebook/nougat-base")) in
  let device := dict_get (or_empty cfg) (lit "device") (PyStr (lit "cuda")) in
  rbind (nougat_from_pretrained rt model_name device) (fun inference =>
  rbind (inference path) (fun text =>
  inr (RecognizeResult.mk text 0%float (lit "nougat")
         [ elapsed_entry rt; (lit "pages", PyNone); (lit "device", device) ]))).

Definition NougatAdapter (rt : Runtime) : RecognizerAdapter :=
  {| name := lit "nougat";
     supports_pdf := true;
     supports_image := false;
     recognize_pdf_method := NougatAdapter_recognize_pdf rt;
     recognize_images_method := fun _ _ =>
       inl (Exn NotImplementedError
              (lit "Nougat expects PDF inputs; convert images to PDF first.")) |}.

Definition nougat_create (rt : Runtime) : result RecognizerAdapter :=
  if negb (_HAS_NOUGAT rt) then
    inl (Exn ImportError
           (lit "Nougat not available. Install extras: pip install .[ingest-vlm]"))
  else inr (NougatAdapter rt).

(** *** The shipped engines *)

(** The [create] of each engine module. *)
Definition create_of (rt : Runtime) (m : EngineModule) : result RecognizerAdapter :=
  match m with
  | paddle => paddle_create rt
  | tesseract => tesseract_create rt
  | easyocr => easyocr_create rt
  | doctr => doctr_create rt
  | trocr => trocr_create rt
  | donut => donut_create rt
  | nougat => nougat_create rt
  end.

(** The world in which the pipeline runs on the shipped adapters. *)
Definition shipped (w : World) (rt : Runtime) : World :=
  {| auto_install := auto_install w;
     _HAS_PDFMINER := _HAS_PDFMINER w;
     pdfminer_extract_text := pdfminer_extract_text w;
     _HAS_PDF2IMAGE := _HAS_PDF2IMAGE w;
     convert_from_path := convert_from_path w;
     size_raises := size_raises w;
     crop_raises := crop_raises w;
     create := create_of rt |}.

(* ------------------------------------------------------------------ *)
(** ** Comparisons as propositions *)

(** [a <= b] and [a < b] on floats, as propositions. *)
Definition fle (a b : float) : Prop := (a <=? b)%float = true.
Definition flt (a b : float) : Prop := (a <? b)%float = true.

(* ------------------------------------------------------------------ *)
(** ** Vocabulary for the fallback loop *)

(** The attempt of [name] does not end the loop: it raises, or its result is
    below the threshold. *)
Definition rejected (attempt : str -> M RecognizeResult.t) (thr : float)
    (name : str) : Prop :=
  match outcome (attempt name) with
  | inl _ => True
  | inr res => (thr <=? RecognizeResult.mean_confidence res)%float = false
  end.

(** [last_res] after the attempt of [name]. *)
Definition next_last (attempt : str -> M RecognizeResult.t)
    (last_res : option RecognizeResult.t) (name : str)
    : option RecognizeResult.t :=
  match outcome (attempt name) with
  | inr res => Some res
  | inl _ => last_res
  end.

(** The result of the last engine of [order] that returned one. *)
Definition last_result (attempt : str -> M RecognizeResult.t)
    (order : list str) : option RecognizeResult.t :=
  fold_left (next_last attempt) order None.

(** The calls made by attempting the engines of [names] one after another. *)
Definition attempts (attempt : str -> M RecognizeResult.t) (names : list str)
    : list event :=
  flat_map (fun n => calls (attempt n)) names.

(** What graceful degradation asks of a fallback loop, for one threshold:
    - an attempt that raises is caught, and the loop goes on with the rest of
      the order, [last_res] unchanged;
    - when no attempt of the order clears the threshold, every engine has
      been attempted and the outcome is the result of the last engine that
      returned one, or the [RuntimeError] of the loop when none did;
    - in particular, when every attempt raises the outcome is that error. *)
Definition degrades_gracefully (attempt : str -> M RecognizeResult.t)
    (input_path : option str) (no_engine : str) (thr : float) : Prop :=
  (forall name rest last e,
      outcome (attempt name) = inl e ->
      run_with_fallback attempt input_path no_engine thr (name :: rest) last =
        (calls (attempt name)
           ++ calls (run_with_fallback attempt input_path no_engine thr rest last),
         outcome (run_with_fallback attempt input_path no_engine thr rest last)))
  /\
  (forall order,
      Forall (rejected attempt thr) order ->
      run_with_fallback attempt input_path no_engine thr order None =
        (attempts attempt order,
         match last_result attempt order with
         | Some last =>
             inr (IngestResult.mk input_path true
                    (Some (RecognizeResult.engine last))
                    (Some (RecognizeResult.mean_confidence last))
                    (RecognizeResult.text last) (RecognizeResult.meta last))
         | None => inl (Exn RuntimeError no_engine)
         end))
  /\
  (forall order,
      (forall n, In n order -> exists e, outcome (attempt n) = inl e) ->
      outcome (run_with_fallback attempt input_path no_engine thr order None) =
        inl (Exn RuntimeError no_engine)).


(** The default engines that do not occur in [order], in default order. *)
Definition missing_defaults (order : list str) : list str :=
  filter (fun d => negb (str_in d order)) default_candidates.

(* ------------------------------------------------------------------ *)
(** ** Vocabulary for elapsed time

    The pipeline reads no clock.  To speak about a deadline all the same,
    every external call is given a cost, and time is the sum of the costs of
    the calls made so far. *)

Definition elapsed (cost : event -> Z) (log : list event) : Z :=
  fold_right (fun ev t => cost ev + t) 0 log.

(** The call constructs or invokes an engine. *)
Definition engine_call (ev : event) : bool :=
  match ev with
  | Create _ | CallRecognizePdf _ _ _ | CallRecognizeImages _ _ _ => true
  | _ => false
  end.

(** No engine is constructed or invoked once [timeout] has elapsed. *)
Definition respects_timeout (cost : event -> Z) (timeout : Z)
    (log : list event) : Prop :=
  forall before ev after,
    log = before ++ ev :: after -> engine_call ev = true ->
    elapsed cost before < timeout.

(** The loop takes no account of time.  Whatever the calls cost, it ends in
    one of two ways.  Either some engine clears the threshold: then all
    engines before it were attempted and rejected, it was attempted, and its
    result is returned under its name.  Or no engine clears the threshold:
    then every engine of the order was attempted, and the outcome is the last
    result obtained, or the [RuntimeError] of the loop when there is none.
    In both cases the time spent is that of these attempts, whatever it is. *)
Definition runs_regardless_of_time (attempt : str -> M RecognizeResult.t)
    (input_path : option str) (no_engine : str) (thr : float)
    (cost : event -> Z) (order : list str) : Prop :=
  let run := run_with_fallback attempt input_path no_engine thr order None in
  (exists pre name post res,
      order = pre ++ name :: post /\
      Forall (rejected attempt thr) pre /\
      outcome (attempt name) = inr res /\
      fle thr (RecognizeResult.mean_confidence res) /\
      run = (attempts attempt (pre ++ [name]),
             inr (accepted input_path name res)) /\
      elapsed cost (calls run) = elapsed cost (attempts attempt (pre ++ [name])))
  \/
  (Forall (rejected attempt thr) order /\
   run = (attempts attempt order,
          match last_result attempt order with
          | Some last => inr (degraded input_path last)
          | None => inl (Exn RuntimeError no_engine)
          end) /\
   elapsed cost (calls run) = elapsed cost (attempts attempt order)).

(** Ten units for every recognition, nothing for the rest. *)
Definition slow_recognition (ev : event) : Z :=
  match ev with
  | CallRecognizePdf _ _ _ | CallRecognizeImages _ _ _ => 10
  | _ => 0
  end.

(* ------------------------------------------------------------------ *)
(** ** Vocabulary for the auto-selector *)

(** What the pilot of candidate [name] gives: a result or an exception.
    There is no pilot when the crop raised. *)
Definition pilot_outcome (w : World) (images : list Image) (cfg : option dict)
    (name : str) : result RecognizeResult.t :=
  match _pilot_crop w images 512 with
  | inl e => inl e
  | inr pilot_images => outcome (pilot w pilot_images cfg name)
  end.

(** The contract of [types.py]: "Mean confidence in [0,1]". *)
Definition confidence_in_range (c : float) : Prop :=
  fle 0 c /\ fle c 1.

(** The two loop variables after the loop, as a function of the pilots. *)
Fixpoint select (w : World) (pilot_images : list Image) (cfg : option dict)
    (candidates : list str) (best_name : option str) (best_score : float)
    : option str * float :=
  match candidates with
  | [] => (best_name, best_score)
  | name :: rest =>
      match outcome (pilot w pilot_images cfg name) with
      | inr res =>
          if (best_score <? pilot_score res)%float
          then select w pilot_images cfg rest (Some name) (pilot_score res)
          else select w pilot_images cfg rest best_name best_score
      | inl _ => select w pilot_images cfg rest best_name best_score
      end
  end.

(* ------------------------------------------------------------------ *)
(** ** Stub worlds

    Adapters and collaborators with fixed answers, in the manner of the
    adapters of [tests/ingest_pipeline_test.py]. *)

(** A missing engine runtime: [create()] raises [ImportError]. *)
Definition unavailable : result RecognizerAdapter :=
  inl (Exn ImportError (lit "engine not available")).

(** An image-only adapter answering [txt] with confidence [conf]. *)
Definition image_stub (n : str) (conf : float) (txt : str) : RecognizerAdapter :=
  {| name := n; supports_pdf := false; supports_image := true;
     recognize_pdf_method := fun _ _ =>
       inl (Exn NotImplementedError (lit "Use recognize_images()"));
     recognize_images_method := fun _ _ =>
       inr (RecognizeResult.mk txt conf n []) |}.

(** A PDF-capable adapter answering [txt] with confidence [conf]. *)
Definition pdf_stub (n : str) (conf : float) (txt : str) : RecognizerAdapter :=
  {| name := n; supports_pdf := true; supports_image := true;
     recognize_pdf_method := fun _ _ => inr (RecognizeResult.mk txt conf n []);
     recognize_images_method := fun _ _ =>
       inr (RecognizeResult.mk txt conf n []) |}.

(** An adapter whose recognition always raises. *)
Definition failing_stub (n : str) : RecognizerAdapter :=
  {| name := n; supports_pdf := false; supports_image := true;
     recognize_pdf_method := fun _ _ =>
       inl (Exn NotImplementedError (lit "Use recognize_images()"));
     recognize_images_method := fun _ _ =>
       inl (Exn OtherError (lit "inference failed")) |}.

(** A world that differs only in its engines: no auto-install, a scanned
    document without embedded text, a rasterizer giving one page. *)
Definition world_of (engines : EngineModule -> result RecognizerAdapter) : World :=
  {| auto_install := false;
     _HAS_PDFMINER := true;
     pdfminer_extract_text := fun _ => inr [];
     _HAS_PDF2IMAGE := true;
     convert_from_path := fun _ dpi _ _ => inr [Page 0 (dpi * 8) (dpi * 11)];
     size_raises := fun _ => None;
     crop_raises := fun _ _ => None;
     create := engines |}.

Definition one_page : list Image := [Page 0 2480 3508].

(** Engines X (0.3), Y (0.9), Z (0.99) under the three default identifiers. *)
Definition world_xyz : World :=
  world_of (fun m =>
    match m with
    | paddle => inr (image_stub (lit "paddle") 0.3 (lit "X"))
    | easyocr => inr (image_stub (lit "easyocr") 0.9 (lit "Y"))
    | tesseract => inr (image_stub (lit "tesseract") 0.99 (lit "Z"))
    | _ => unavailable
    end).

(** Two engines below the usual threshold, the third unavailable. *)
Definition world_low : World :=
  world_of (fun m =>
    match m with
    | paddle => inr (image_stub (lit "paddle") 0.2 (lit "X"))
    | easyocr => inr (image_stub (lit "easyocr") 0.3 (lit "Y"))
    | _ => unavailable
    end).

(** No engine runtime is installed. *)
Definition world_none : World := world_of (fun _ => unavailable).


(** Candidate A: 0.6 on plain text; candidate B: 0.65 on a text with
    Turkish letters (the adapters of the repository's own test). *)
Definition world_ab : World :=
  world_of (fun m =>
    match m with
    | paddle => inr (image_stub (lit "paddle") 0.6 (lit "a"))
    | easyocr =>
        inr (image_stub (lit "easyocr") 0.65
               [98; 32; 231; 287; 246; 351; 252]%N)
    | _ => unavailable
    end).

(** The engines of [world_ab], and an image file that is opened but cannot
    be loaded: its size is known, [im.crop] raises. *)
Definition world_unloadable : World :=
  {| auto_install := false;
     _HAS_PDFMINER := true;
     pdfminer_extract_text := fun _ => inr [];
     _HAS_PDF2IMAGE := true;
     convert_from_path := fun _ dpi _ _ => inr [Page 0 (dpi * 8) (dpi * 11)];
     size_raises := fun _ => None;
     crop_raises := fun _ _ =>
       Some (Exn OtherError (lit "image file is truncated"));
     create := create world_ab |}.

(** Two candidates with the same score. *)
Definition world_tie : World :=
  world_of (fun m =>
    match m with
    | paddle => inr (image_stub (lit "paddle") 0.6 (lit "a"))
    | easyocr => inr (image_stub (lit "easyocr") 0.6 (lit "b"))
    | _ => unavailable
    end).

(** A printed-text engine (0.5) and a handwriting engine (0.8). *)
Definition world_dual : World :=
  world_of (fun m =>
    match m with
    | paddle => inr (image_stub (lit "paddle") 0.5 (lit "P"))
    | trocr => inr (image_stub (lit "trocr") 0.8 (lit "H"))
    | _ => unavailable
    end).

(** The same printed-text engine; the handwriting engine fails at inference. *)
Definition world_dual_failing : World :=
  world_of (fun m =>
    match m with
    | paddle => inr (image_stub (lit "paddle") 0.5 (lit "P"))
    | trocr => inr (failing_stub (lit "trocr"))
    | _ => unavailable
    end).

(** An image-only adapter whose text is the width of the first page it is
    given: what it reads depends on the rasterization. *)
Definition width_reader (n : str) (conf : float) : RecognizerAdapter :=
  {| name := n; supports_pdf := false; supports_image := true;
     recognize_pdf_method := fun _ _ =>
       inl (Exn NotImplementedError (lit "Use recognize_images()"));
     recognize_images_method := fun images _ =>
       inr (RecognizeResult.mk
              (match images with
               | im :: _ => [Z.to_N (fst (size im))]
               | [] => []
               end) conf n []) |}.

(** A scanned document; a rasterizer that refuses a resolution that is not
    positive; a PDF-capable paddle and an image-only tesseract. *)
Definition world_pdf : World :=
  {| auto_install := false;
     _HAS_PDFMINER := true;
     pdfminer_extract_text := fun _ => inr [];
     _HAS_PDF2IMAGE := true;
     convert_from_path := fun _ dpi _ _ =>
       if dpi <=? 0
       then inl (Exn OtherError (lit "Unable to get page count."))
       else inr [Page 0 (dpi * 8) (dpi * 11)];
     size_raises := fun _ => None;
     crop_raises := fun _ _ => None;
     create := fun m =>
       match m with
       | paddle => inr (pdf_stub (lit "paddle") 0.9 (lit "T"))
       | tesseract => inr (width_reader (lit "tesseract") 0.9)
       | _ => unavailable
       end |}.

(** A document with 500 characters of embedded text. *)
Definition world_vector : World :=
  {| auto_install := true;
     _HAS_PDFMINER := true;
     pdfminer_extract_text := fun _ => inr (repeat 97%N 500);
     _HAS_PDF2IMAGE := true;
     convert_from_path := fun _ _ _ _ => inr one_page;
     size_raises := fun _ => None;
     crop_raises := fun _ _ => None;
     create := fun _ => unavailable |}.

(* ------------------------------------------------------------------ *)
(** ** Vocabulary and stubs for the further properties *)

(** What [auto_select_engine] may call: an engine constructor, or a
    recognition of at most one image whose sides do not exceed [max_side]. *)
Definition pilot_sized (max_side : Z) (ev : event) : Prop :=
  match ev with
  | Create _ => True
  | CallRecognizeImages _ images _ =>
      (List.length images <= 1)%nat /\
      Forall (fun im => fst (size im) <= max_side /\ snd (size im) <= max_side)
             images
  | _ => False
  end.

(** The identifier under which [build_adapter] knows an engine module. *)
Definition module_name (m : EngineModule) : str :=
  match m with
  | paddle => lit "paddle"
  | tesseract => lit "tesseract"
  | easyocr => lit "easyocr"
  | doctr => lit "doctr"
  | trocr => lit "trocr"
  | donut => lit "donut"
  | nougat => lit "nougat"
  end.

(** How a run of the loop that returned [r] with confidence [c] ended, read
    off the confidence.  At or above the threshold: the loop stopped at an
    engine [name] after a rejected prefix; [r] is the result of that engine
    under its name, and nothing after it was attempted.  Below the threshold:
    every engine of the order was attempted and rejected, and [r] is the last
    result obtained, that of an engine [name] after which every engine
    raised, under the name that result carries. *)
Definition loop_end (attempt : str -> M RecognizeResult.t)
    (run : list str -> M IngestResult.t) (thr : float) (order : list str)
    (r : IngestResult.t) (c : float) : Prop :=
  (fle thr c /\
   exists pre name post res,
     order = pre ++ name :: post /\
     Forall (rejected attempt thr) pre /\
     outcome (attempt name) = inr res /\
     c = RecognizeResult.mean_confidence res /\
     IngestResult.text r = RecognizeResult.text res /\
     IngestResult.engine r = Some name /\
     calls (run order) = attempts attempt (pre ++ [name]))
  \/
  ((thr <=? c)%float = false /\
   Forall (rejected attempt thr) order /\
   calls (run order) = attempts attempt order /\
   exists pre name post res,
     order = pre ++ name :: post /\
     outcome (attempt name) = inr res /\
     (forall n, In n post -> exists e, outcome (attempt n) = inl e) /\
     c = RecognizeResult.mean_confidence res /\
     IngestResult.text r = RecognizeResult.text res /\
     IngestResult.engine r = Some (RecognizeResult.engine res)).

(** Every installation request in the log is for a package list that
    [allowed] accepts. *)
Definition installs_only (allowed : list str -> Prop) (ev : event) : Prop :=
  match ev with
  | PipInstall pkgs => allowed pkgs
  | _ => True
  end.

(** With auto-install on, a printed pass that finds paddle installs the
    common list and the paddle package, and nothing for trocr. *)
Definition world_installing : World :=
  {| auto_install := true;
     _HAS_PDFMINER := true;
     pdfminer_extract_text := fun _ => inr [];
     _HAS_PDF2IMAGE := true;
     convert_from_path := fun _ _ _ _ => inr one_page;
     size_raises := fun _ => None;
     crop_raises := fun _ _ => None;
     create := fun m =>
       match m with
       | paddle => inr (image_stub (lit "paddle") 0.9 (lit "P"))
       | _ => unavailable
       end |}.

(** Only the handwriting engine is installed. *)
Definition world_htr_only : World :=
  world_of (fun m =>
    match m with
    | trocr => inr (image_stub (lit "trocr") 0.8 (lit "H"))
    | _ => unavailable
    end).

(** The adapter object of each engine module. *)
Definition adapter_of (rt : Runtime) (m : EngineModule) : RecognizerAdapter :=
  match m with
  | paddle => PaddleAdapter rt
  | tesseract => TesseractAdapter rt
  | easyocr => EasyOCRAdapter rt
  | doctr => DocTRAdapter rt
  | trocr => TrOCRAdapter rt
  | donut => DonutAdapter rt
  | nougat => NougatAdapter rt
  end.

(** The flag set by the guarded import of each engine module. *)
Definition has_library (rt : Runtime) (m : EngineModule) : bool :=
  match m with
  | paddle => _HAS_PADDLE rt
  | tesseract => _HAS_TESS rt
  | easyocr => _HAS_EASY rt
  | doctr => _HAS_DOCTR rt
  | trocr => _HAS_TROCR rt
  | donut => _HAS_DONUT rt
  | nougat => _HAS_NOUGAT rt
  end.

(** A runtime for the examples: [float] converts floats only, [sum] adds
    from the left, paddle reads one item with score 0.9, DocTR one line of
    two words, TrOCR one line; the other libraries are not installed. *)
Definition float_only (v : pyval) : result float :=
  match v with
  | PyFloat f => inr f
  | _ => inl (Exn ValueError (lit "could not convert to float"))
  end.

Definition not_installed {A} : result A :=
  inl (Exn OtherError (lit "not installed")).

Definition demo_runtime : Runtime :=
  {| py_float := float_only;
     py_sum := fun xs => fold_left PrimFloat.add xs 0%float;
     elapsed_ms := 7;
     _HAS_PADDLE := true;
     PaddleOCR := fun _ _ =>
       inr {| ocr_pdf := fun _ => inr (Some [Some [(lit "Merhaba", PyFloat 0.9)]]);
              ocr_image := fun _ => inr (Some [(lit "Merhaba", PyFloat 0.9)]) |};
     _HAS_TESS := false;
     image_to_string := fun _ _ => not_installed;
     image_to_data_conf := fun _ _ => not_installed;
     _HAS_EASY := false;
     easyocr_Reader := fun _ _ => not_installed;
     _HAS_DOCTR := true;
     ocr_predictor := fun _ _ _ =>
       inr (fun _ => inr (inr [[[[lit "iki"; lit "kelime"]]]]));
     from_pdf := fun _ => inr one_page;
     cuda_is_available := false;
     _HAS_TROCR := true;
     trocr_from_pretrained := fun _ _ => inr (fun _ => inr (lit "el yazisi"));
     _HAS_DONUT := false;
     donut_from_pretrained := fun _ _ => not_installed;
     _HAS_NOUGAT := true;
     nougat_from_pretrained := fun _ _ => inr (fun _ => inr (lit "# Baslik")) |}.

(** A recognition call goes to a method the called adapter declares: a
    [recognize_pdf] to an adapter with [supports_pdf], a [recognize_images]
    to one with [supports_image]. *)
Definition declared_call (rt : Runtime) (ev : event) : Prop :=
  match ev with
  | CallRecognizePdf n _ _ =>
      exists m, n = name (adapter_of rt m) /\
                supports_pdf (adapter_of rt m) = true
  | CallRecognizeImages n _ _ =>
      exists m, n = name (adapter_of rt m) /\
                supports_image (adapter_of rt m) = true
  | _ => True
  end.

(* ------------------------------------------------------------------ *)
(** ** The order of binary64 numbers

    [<=?] and [<?] on floats are specified through [SFcompare].  Every
    number that is not a NaN gets a key in [Z * Z * Z], ordered
    lexicographically, so that the facts about the order needed below reduce
    to linear arithmetic. *)

Definition sf_key (f : spec_float) : option (Z * Z * Z) :=
  match f with
  | S754_nan => None
  | S754_infinity true => Some (-2, 0, 0)
  | S754_finite true m e => Some (-1, - e, Z.neg m)
  | S754_zero _ => Some (0, 0, 0)
  | S754_finite false m e => Some (1, e, Z.pos m)
  | S754_infinity false => Some (2, 0, 0)
  end.

Definition lex3 (a b : Z * Z * Z) : comparison :=
  let '(a1, a2, a3) := a in
  let '(b1, b2, b3) := b in
  match a1 ?= b1 with
  | Eq => match a2 ?= b2 with Eq => a3 ?= b3 | c => c end
  | c => c
  end.

Definition lex_lt (a b : Z * Z * Z) : Prop :=
  let '(a1, a2, a3) := a in
  let '(b1, b2, b3) := b in
  a1 < b1 \/ (a1 = b1 /\ (a2 < b2 \/ (a2 = b2 /\ a3 < b3))).

(** The number is not negative (and not a NaN). *)
Definition nonneg_sf (f : spec_float) : Prop :=
  match f with
  | S754_zero _ | S754_finite false _ _ | S754_infinity false => True
  | _ => False
  end.

Lemma lex3_spec a b : CompareSpec (a = b) (lex_lt a b) (lex_lt b a) (lex3 a b).
Proof.
  destruct a as [[a1 a2] a3], b as [[b1 b2] b3]; unfold lex3, lex_lt.
  destruct (Z.compare_spec a1 b1); [|constructor; lia|constructor; lia].
  destruct (Z.compare_spec a2 b2); [|constructor; lia|constructor; lia].
  destruct (Z.compare_spec a3 b3); constructor; try lia. congruence.
Qed.

Lemma SFcompare_key f1 f2 :
  SFcompare f1 f2 =
  match sf_key f1, sf_key f2 with
  | Some a, Some b => Some (lex3 a b)
  | _, _ => None
  end.
Proof.
  destruct f1 as [s1|s1| |s1 m1 e1], f2 as [s2|s2| |s2 m2 e2];
    try destruct s1; try destruct s2; try reflexivity; simpl.
  rewrite Z.compare_opp, (Z.compare_antisym e1 e2).
  destruct (e1 ?= e2); reflexivity.
Qed.

Lemma leb_key a b :
  (a <=? b)%float =
  match sf_key (Prim2SF a), sf_key (Prim2SF b) with
  | Some x, Some y => match lex3 x y with Gt => false | _ => true end
  | _, _ => false
  end.
Proof.
  rewrite leb_spec; unfold SFleb; rewrite SFcompare_key.
  destruct (sf_key (Prim2SF a)), (sf_key (Prim2SF b)); reflexivity.
Qed.

Lemma ltb_key a b :
  (a <? b)%float =
  match sf_key (Prim2SF a), sf_key (Prim2SF b) with
  | Some x, Some y => match lex3 x y with Lt => true | _ => false end
  | _, _ => false
  end.
Proof.
  rewrite ltb_spec; unfold SFltb; rewrite SFcompare_key.
  destruct (sf_key (Prim2SF a)), (sf_key (Prim2SF b)); reflexivity.
Qed.

Lemma eqb_key a b :
  (a =? b)%float =
  match sf_key (Prim2SF a), sf_key (Prim2SF b) with
  | Some x, Some y => match lex3 x y with Eq => true | _ => false end
  | _, _ => false
  end.
Proof.
  rewrite eqb_spec; unfold SFeqb; rewrite SFcompare_key.
  destruct (sf_key (Prim2SF a)), (sf_key (Prim2SF b)); reflexivity.
Qed.

(** Comparisons to keys, keys to components, components to [lia]. *)
Ltac float_order :=
  unfold fle, flt in *;
  repeat match goal with
         | H : context [(_ <=? _)%float] |- _ => rewrite leb_key in H
         | H : context [(_ <? _)%float] |- _ => rewrite ltb_key in H
         | H : context [(_ =? _)%float] |- _ => rewrite eqb_key in H
         | |- context [(_ <=? _)%float] => rewrite leb_key
         | |- context [(_ <? _)%float] => rewrite ltb_key
         | |- context [(_ =? _)%float] => rewrite eqb_key
         end;
  repeat match goal with
         | |- context [sf_key (Prim2SF ?a)] =>
             destruct (sf_key (Prim2SF a)) as [[[? ?] ?]|]
         | H : context [sf_key (Prim2SF ?a)] |- _ =>
             destruct (sf_key (Prim2SF a)) as [[[? ?] ?]|]
         end;
  try discriminate; try reflexivity;
  repeat match goal with
         | H : context [lex3 ?x ?y] |- _ =>
             destruct (lex3_spec x y); try discriminate
         | |- context [lex3 ?x ?y] =>
             destruct (lex3_spec x y); try discriminate
         end;
  try reflexivity;
  unfold lex_lt in *;
  repeat match goal with
         | H : (_, _) = (_, _) |- _ => inversion H; clear H; subst
         end;
  try lia.

Lemma flt_trans a b c : flt a b -> flt b c -> flt a c.
Proof. intros; float_order. Qed.

Lemma fle_trans a b c : fle a b -> fle b c -> fle a c.
Proof. intros; float_order. Qed.

Lemma fle_flt_trans a b c : fle a b -> flt b c -> flt a c.
Proof. intros; float_order. Qed.

Lemma flt_fle_trans a b c : flt a b -> fle b c -> flt a c.
Proof. intros; float_order. Qed.

Lemma flt_fle a b : flt a b -> fle a b.
Proof. intros; float_order. Qed.

Lemma fle_left_refl a b : fle a b -> fle a a.
Proof. intros; float_order. Qed.

Lemma fle_right_refl a b : fle a b -> fle b b.
Proof. intros; float_order. Qed.

Lemma flt_right_refl a b : flt a b -> fle b b.
Proof. intros; float_order. Qed.

(** Two numbers are comparable: if [a < b] fails then [b <= a]. *)
Lemma not_flt_fle a b :
  (a <? b)%float = false -> fle a a -> fle b b -> fle b a.
Proof. intros; float_order. Qed.

Lemma fle_not_flt a b : fle a b -> (b <? a)%float = false.
Proof. intros; float_order. Qed.

Lemma fle_antisym_eqb a b : fle a b -> fle b a -> (a =? b)%float = true.
Proof. intros; float_order. Qed.

Lemma eqb_fle a b : (a =? b)%float = true -> fle a b /\ fle b a.
Proof. intros; split; float_order. Qed.

(** *** The sign of a sum

    A sum of two numbers that are not negative is not negative (and is a
    number): rounding keeps the mantissa non-negative. *)

Lemma shr_1_nonneg mrs : 0 <= shr_m mrs -> 0 <= shr_m (shr_1 mrs).
Proof.
  destruct mrs as [m r s]; simpl.
  destruct m as [|[p|p|]|p]; simpl; lia.
Qed.

Lemma iter_pos_nonneg p : forall mrs,
  0 <= shr_m mrs -> 0 <= shr_m (iter_pos shr_1 p mrs).
Proof.
  induction p; intros mrs H; simpl; auto using shr_1_nonneg.
Qed.

Lemma shr_fexp_nonneg prec emax m e l :
  0 <= m -> 0 <= shr_m (fst (shr_fexp prec emax m e l)).
Proof.
  intros H. unfold shr_fexp, shr.
  assert (H0 : 0 <= shr_m (shr_record_of_loc m l))
    by (destruct l as [|[]]; simpl; exact H).
  destruct (fexp prec emax (Zdigits2 m + e) - e); simpl;
    auto using iter_pos_nonneg.
Qed.

Lemma round_nearest_even_nonneg mx lx :
  0 <= mx -> 0 <= round_nearest_even mx lx.
Proof.
  intros H. destruct lx as [|[]]; simpl; try lia.
  destruct (Z.even mx); lia.
Qed.

Lemma binary_round_aux_nonneg prec emax mx ex lx :
  0 <= mx -> nonneg_sf (binary_round_aux prec emax false mx ex lx).
Proof.
  intros H. unfold binary_round_aux.
  pose proof (shr_fexp_nonneg prec emax mx ex lx H) as H1.
  destruct (shr_fexp prec emax mx ex lx) as [mrs' e']. simpl in H1.
  pose proof (shr_fexp_nonneg prec emax _ e' loc_Exact
                (round_nearest_even_nonneg _ (loc_of_shr_record mrs') H1)) as H2.
  destruct (shr_fexp prec emax _ e' loc_Exact) as [mrs'' e'']. simpl in H2.
  destruct (shr_m mrs''); simpl; try lia; auto.
  destruct (e'' <=? emax - prec); simpl; auto.
Qed.

Lemma SFadd_nonneg prec emax x y :
  nonneg_sf x -> nonneg_sf y -> nonneg_sf (SFadd prec emax x y).
Proof.
  destruct x as [[]|[]| |[] mx ex], y as [[]|[]| |[] my ey];
    simpl; auto; try tauto.
  intros _ _. unfold binary_normalize, binary_round.
  destruct (shl_align _ _ _) as [mz ez].
  apply binary_round_aux_nonneg. lia.
Qed.

Lemma fle_zero_nonneg c : fle 0 c -> nonneg_sf (Prim2SF c).
Proof.
  unfold fle. rewrite leb_spec. unfold SFleb.
  change (Prim2SF 0) with (S754_zero false).
  destruct (Prim2SF c) as [[]|[]| |[] m e]; simpl; auto; discriminate.
Qed.

Lemma nonneg_above_minus_one c : nonneg_sf (Prim2SF c) -> flt (-1) c.
Proof.
  unfold flt. rewrite ltb_spec. unfold SFltb.
  change (Prim2SF (-1)) with (S754_finite true 4503599627370496 (-52)).
  destruct (Prim2SF c) as [[]|[]| |[] m e]; simpl; auto; tauto.
Qed.

Lemma add_bonus_above_minus_one c : fle 0 c -> flt (-1) (c + 0.05).
Proof.
  intros H. apply nonneg_above_minus_one. rewrite add_spec.
  apply SFadd_nonneg; [apply fle_zero_nonneg, H|].
  vm_compute. exact I.
Qed.

(* ------------------------------------------------------------------ *)
(** ** Laws of the monad *)

Lemma bind_inr {A B} (m : M A) (f : A -> M B) a :
  outcome m = inr a ->
  bind m f = (calls m ++ calls (f a), outcome (f a)).
Proof.
  destruct m as [l [e|x]]; simpl; intros H; inversion H; subst.
  destruct (f a); reflexivity.
Qed.

Lemma bind_inl {A B} (m : M A) (f : A -> M B) e :
  outcome m = inl e -> bind m f = (calls m, inl e).
Proof. destruct m as [l [e'|x]]; simpl; intros H; inversion H; reflexivity. Qed.

Lemma try_except_inr {A} (m : M A) h a :
  outcome m = inr a -> try_except m h = (calls m, inr a).
Proof. destruct m as [l [e'|x]]; simpl; intros H; inversion H; reflexivity. Qed.

Lemma try_except_inl {A} (m : M A) h e :
  outcome m = inl e ->
  try_except m h = (calls m ++ calls (h e), outcome (h e)).
Proof.
  destruct m as [l [e'|x]]; simpl; intros H; inversion H; subst.
  destruct (h e); reflexivity.
Qed.

Lemma M_eta {A} (m : M A) : m = (calls m, outcome m).
Proof. destruct m; reflexivity. Qed.

(** [ensure_common] and [ensure_for_engine] never raise. *)
Lemma ensure_common_outcome w : outcome (ensure_common w) = inr tt.
Proof. unfold ensure_common; destruct (auto_install w); reflexivity. Qed.

Lemma ensure_for_engine_outcome w n : outcome (ensure_for_engine w n) = inr tt.
Proof.
  unfold ensure_for_engine; destruct (auto_install w); cbn [negb];
    try reflexivity.
  destruct (dict_get _ENGINE_TO_PACKAGES n []); reflexivity.
Qed.

(* ------------------------------------------------------------------ *)
(** ** Strings and membership *)

Lemma str_eqb_eq a b : str_eqb a b = true <-> a = b.
Proof.
  unfold str_eqb; destruct (list_eq_dec N.eq_dec a b); split;
    intros; congruence.
Qed.

Lemma str_eqb_refl a : str_eqb a a = true.
Proof. apply str_eqb_eq; reflexivity. Qed.

Lemma str_in_In x l : str_in x l = true <-> In x l.
Proof.
  unfold str_in; rewrite existsb_exists; split.
  - intros [y [Hy He]]; apply str_eqb_eq in He; subst; exact Hy.
  - intros H; exists x; split; [exact H|apply str_eqb_refl].
Qed.

Lemma str_in_false x l : str_in x l = false <-> ~ In x l.
Proof.
  rewrite <- str_in_In; destruct (str_in x l); split; congruence.
Qed.

(* ------------------------------------------------------------------ *)
(** ** The fallback loop *)

Section Fallback.

Variable attempt : str -> M RecognizeResult.t.
Variable input_path : option str.
Variable no_engine : str.
Variable thr : float.

Let run := run_with_fallback attempt input_path no_engine thr.

(** A rejected attempt is followed by the rest of the order. *)
Lemma run_cons_rejected name rest last :
  rejected attempt thr name ->
  run (name :: rest) last =
    (calls (attempt name) ++ calls (run rest (next_last attempt last name)),
     outcome (run rest (next_last attempt last name))).
Proof.
  unfold rejected, next_last, run; intros H; cbn [run_with_fallback].
  destruct (attempt name) as [l [e|res]] eqn:Ha; simpl in H |- *.
  - destruct (run_with_fallback attempt input_path no_engine thr rest last);
      simpl; rewrite app_nil_r; reflexivity.
  - rewrite H; simpl.
    destruct (run_with_fallback attempt input_path no_engine thr rest (Some res));
      simpl; rewrite app_nil_r; reflexivity.
Qed.

(** An accepted attempt ends the loop. *)
Lemma run_cons_accepted name rest last res :
  outcome (attempt name) = inr res ->
  fle thr (RecognizeResult.mean_confidence res) ->
  run (name :: rest) last =
    (calls (attempt name), inr (accepted input_path name res)).
Proof.
  unfold run, fle; intros Ha Hc; cbn [run_with_fallback].
  destruct (attempt name) as [l [e|r]]; simpl in Ha; inversion Ha; subst.
  simpl; rewrite Hc; simpl; rewrite !app_nil_r; reflexivity.
Qed.

Lemma run_app_rejected pre : forall rest last,
  Forall (rejected attempt thr) pre ->
  run (pre ++ rest) last =
    (attempts attempt pre
       ++ calls (run rest (fold_left (next_last attempt) pre last)),
     outcome (run rest (fold_left (next_last attempt) pre last))).
Proof.
  induction pre as [|n pre IH]; intros rest last H.
  - simpl. apply M_eta.
  - inversion H as [|? ? Hn Hpre]; subst.
    rewrite <- app_comm_cons, (run_cons_rejected _ _ _ Hn).
    rewrite (IH rest _ Hpre); cbn [calls outcome fst snd fold_left].
    unfold attempts; cbn [flat_map]; rewrite app_assoc; reflexivity.
Qed.

Lemma run_early_exit pre name post res last :
  Forall (rejected attempt thr) pre ->
  outcome (attempt name) = inr res ->
  fle thr (RecognizeResult.mean_confidence res) ->
  run (pre ++ name :: post) last =
    (attempts attempt (pre ++ [name]), inr (accepted input_path name res)).
Proof.
  intros Hpre Ha Hc.
  rewrite (run_app_rejected pre _ _ Hpre), (run_cons_accepted _ _ _ _ Ha Hc).
  unfold attempts; rewrite flat_map_app; simpl; rewrite app_nil_r; reflexivity.
Qed.

Lemma run_exhausted order last :
  Forall (rejected attempt thr) order ->
  run order last =
    (attempts attempt order,
     match fold_left (next_last attempt) order last with
     | Some r => inr (degraded input_path r)
     | None => inl (Exn RuntimeError no_engine)
     end).
Proof.
  intros H. rewrite <- (app_nil_r order) at 1.
  rewrite (run_app_rejected order [] last H).
  unfold run; cbn [run_with_fallback].
  destruct (fold_left (next_last attempt) order last); simpl;
    rewrite app_nil_r; reflexivity.
Qed.

(** Either some engine is accepted after a rejected prefix, or all are
    rejected: the loop always ends in one of the two ways. *)
Lemma accepted_or_exhausted order :
  (exists pre name post res,
      order = pre ++ name :: post /\ Forall (rejected attempt thr) pre /\
      outcome (attempt name) = inr res /\
      fle thr (RecognizeResult.mean_confidence res))
  \/ Forall (rejected attempt thr) order.
Proof.
  induction order as [|n order IH]; [right; constructor|].
  destruct (outcome (attempt n)) as [e|res] eqn:Ha.
  - assert (Hn : rejected attempt thr n) by (unfold rejected; rewrite Ha; exact I).
    destruct IH as [(pre & name & post & r & -> & Hp & Hr & Hc)|IH].
    + left; exists (n :: pre), name, post, r; repeat split; auto.
    + right; constructor; assumption.
  - destruct (thr <=? RecognizeResult.mean_confidence res)%float eqn:Hc.
    + left; exists [], n, order, res; repeat split; auto.
    + assert (Hn : rejected attempt thr n)
        by (unfold rejected; rewrite Ha; exact Hc).
      destruct IH as [(pre & name & post & r & -> & Hp & Hr & Hc')|IH].
      * left; exists (n :: pre), name, post, r; repeat split; auto.
      * right; constructor; assumption.
Qed.

End Fallback.

(* ------------------------------------------------------------------ *)
(** ** The auto-selector *)

Lemma auto_select_loop_run w pi cfg : forall candidates bn bs,
  auto_select_loop w pi cfg candidates bn bs =
    (flat_map (fun n => calls (pilot w pi cfg n)) candidates,
     inr (select w pi cfg candidates bn bs)).
Proof.
  induction candidates as [|n rest IH]; intros bn bs; [reflexivity|].
  cbn [auto_select_loop select flat_map].
  destruct (pilot w pi cfg n) as [l [e|res]]; cbn.
  - rewrite IH; cbn; rewrite app_nil_r; reflexivity.
  - destruct (bs <? pilot_score res)%float; cbn; rewrite IH; cbn;
      rewrite !app_nil_r; reflexivity.
Qed.

(** The empty identifier is in no registry, so its pilot raises. *)
Lemma pilot_nil_raises w pi cfg : exists e, outcome (pilot w pi cfg []) = inl e.
Proof. eexists; reflexivity. Qed.

Lemma select_all_raise w pi cfg : forall candidates bn bs,
  (forall n, In n candidates -> exists e, outcome (pilot w pi cfg n) = inl e) ->
  select w pi cfg candidates bn bs = (bn, bs).
Proof.
  induction candidates as [|n rest IH]; intros bn bs H; [reflexivity|].
  cbn [select]. destruct (H n (or_introl eq_refl)) as [e ->].
  apply IH; intros m Hm; apply H; right; exact Hm.
Qed.

(** The invariant of the loop: either the best is still the initial one and
    no score exceeds it, or the best is the first candidate reaching the
    highest score. *)
Lemma select_spec w pi cfg : forall candidates bn bs,
  fle bs bs ->
  (forall n res, In n candidates -> outcome (pilot w pi cfg n) = inr res ->
                 fle (pilot_score res) (pilot_score res)) ->
  (select w pi cfg candidates bn bs = (bn, bs) /\
   forall n res, In n candidates -> outcome (pilot w pi cfg n) = inr res ->
                 fle (pilot_score res) bs)
  \/
  (exists i n res,
      nth_error candidates i = Some n /\
      outcome (pilot w pi cfg n) = inr res /\
      select w pi cfg candidates bn bs = (Some n, pilot_score res) /\
      flt bs (pilot_score res) /\
      forall j m r, nth_error candidates j = Some m ->
                    outcome (pilot w pi cfg m) = inr r ->
                    fle (pilot_score r) (pilot_score res) /\
                    ((j < i)%nat -> flt (pilot_score r) (pilot_score res))).
Proof.
  induction candidates as [|n rest IH]; intros bn bs Hbs Hnum.
  - left; split; [reflexivity|intros ? ? []].
  - assert (Hrest : forall m r, In m rest -> outcome (pilot w pi cfg m) = inr r ->
                                fle (pilot_score r) (pilot_score r))
      by (intros m r Hm; apply Hnum; right; exact Hm).
    cbn [select].
    destruct (outcome (pilot w pi cfg n)) as [e|res] eqn:Hn.
    + (* the pilot raised: the candidate is skipped *)
      destruct (IH bn bs Hbs Hrest) as [[Hs Hle]|(i & m & r & Hi & Hm & Hs & Hlt & Hmax)].
      * left; split; [exact Hs|].
        intros m r [<-|Hm] Hr; [congruence|eauto].
      * right; exists (S i), m, r; repeat split; auto.
        -- destruct j as [|j]; cbn in H; [inversion H; subst; congruence|].
           apply (Hmax j m0 r0 H H0).
        -- destruct j as [|j]; cbn in H; [inversion H; subst; congruence|].
           intros Hj; apply (Hmax j m0 r0 H H0); lia.
    + assert (Hres : fle (pilot_score res) (pilot_score res))
        by (apply (Hnum n res); [left; reflexivity|exact Hn]).
      destruct (bs <? pilot_score res)%float eqn:Hcmp.
      * (* a new best *)
        destruct (IH (Some n) (pilot_score res) Hres Hrest)
          as [[Hs Hle]|(i & m & r & Hi & Hm & Hs & Hlt & Hmax)].
        -- right; exists 0%nat, n, res; repeat split; auto.
           ++ destruct j as [|j]; cbn in H.
              ** inversion H; subst; rewrite Hn in H0; inversion H0; subst; exact Hres.
              ** apply (Hle m r); [eapply nth_error_In; eassumption|assumption].
           ++ intros Hj; lia.
        -- right; exists (S i), m, r; repeat split; auto.
           ++ eapply flt_trans; [exact Hcmp|exact Hlt].
           ++ destruct j as [|j]; cbn in H.
              ** inversion H; subst; rewrite Hn in H0; inversion H0; subst.
                 apply flt_fle; exact Hlt.
              ** apply (Hmax j m0 r0 H H0).
           ++ destruct j as [|j]; cbn in H.
              ** inversion H; subst; rewrite Hn in H0; inversion H0; subst.
                 intros _; exact Hlt.
              ** intros Hj; apply (Hmax j m0 r0 H H0); lia.
      * (* not better than the best so far *)
        assert (Hle0 : fle (pilot_score res) bs)
          by (apply not_flt_fle; assumption).
        destruct (IH bn bs Hbs Hrest)
          as [[Hs Hle]|(i & m & r & Hi & Hm & Hs & Hlt & Hmax)].
        -- left; split; [exact Hs|].
           intros m r [<-|Hm] Hr; [rewrite Hn in Hr; inversion Hr; subst; exact Hle0|eauto].
        -- right; exists (S i), m, r; repeat split; auto.
           ++ destruct j as [|j]; cbn in H.
              ** inversion H; subst; rewrite Hn in H0; inversion H0; subst.
                 apply flt_fle; apply (fle_flt_trans _ bs); assumption.
              ** apply (Hmax j m0 r0 H H0).
           ++ destruct j as [|j]; cbn in H.
              ** inversion H; subst; rewrite Hn in H0; inversion H0; subst.
                 intros _; apply (fle_flt_trans _ bs); assumption.
              ** intros Hj; apply (Hmax j m0 r0 H H0); lia.
Qed.

(** When the crop raises, so does auto-selection, before any pilot. *)
Lemma auto_select_engine_crop_raises w images cfg candidates e :
  _pilot_crop w images 512 = inl e ->
  auto_select_engine w images candidates cfg = ([], inl e).
Proof. intros H. unfold auto_select_engine. rewrite H. reflexivity. Qed.

Lemma auto_select_engine_run w images cfg candidates pi :
  _pilot_crop w images 512 = inr pi ->
  auto_select_engine w images candidates cfg =
    (flat_map (fun n => calls (pilot w pi cfg n)) candidates,
     match fst (select w pi cfg candidates None (-1)) with
     | Some (c :: n) => inr (c :: n)
     | _ =>
         match candidates with
         | c :: _ => inr c
         | [] => inl (Exn IndexError (lit "list index out of range"))
         end
     end).
Proof.
  intros Hpi. unfold auto_select_engine. rewrite Hpi.
  unfold lift. cbn [bind]. rewrite auto_select_loop_run.
  cbn [bind fst snd].
  destruct (select w pi cfg candidates None (-1))
    as [[[|c n]|] bs]; cbn; try (destruct candidates; cbn);
    rewrite ?app_nil_r; reflexivity.
Qed.

(** Once the crop has returned, auto-selection returns for every non-empty
    candidate list. *)
Lemma auto_select_engine_returns w images cfg c0 rest pi :
  _pilot_crop w images 512 = inr pi ->
  exists chosen,
    outcome (auto_select_engine w images (c0 :: rest) cfg) = inr chosen.
Proof.
  intros Hpi. rewrite (auto_select_engine_run _ _ _ _ pi Hpi); cbn [outcome snd].
  destruct (fst _) as [[|c n]|]; eauto.
Qed.

(** The calls of auto-selection are those of its pilots. *)
Lemma auto_select_engine_calls w images cfg candidates :
  calls (auto_select_engine w images candidates cfg) =
    match _pilot_crop w images 512 with
    | inl _ => []
    | inr pi => flat_map (fun n => calls (pilot w pi cfg n)) candidates
    end.
Proof.
  destruct (_pilot_crop w images 512) as [e|pi] eqn:Hpi.
  - rewrite (auto_select_engine_crop_raises _ _ _ _ e Hpi); reflexivity.
  - rewrite (auto_select_engine_run _ _ _ _ pi Hpi); reflexivity.
Qed.

Lemma bonus_present_iff (txt : str) :
  existsb (fun ch => char_in ch txt) bonus_chars = true <->
  exists ch, In ch bonus_chars /\ In ch txt.
Proof.
  rewrite existsb_exists; split; intros [ch [Hb Ht]]; exists ch; split; auto.
  - unfold char_in in Ht; apply existsb_exists in Ht.
    destruct Ht as [c [Hc He]]; apply N.eqb_eq in He; subst; exact Hc.
  - unfold char_in; apply existsb_exists; exists ch; split;
      [exact Ht|apply N.eqb_refl].
Qed.

(** Within the contract every score exceeds the initial [-1.0]. *)
Lemma pilot_score_above_initial res :
  confidence_in_range (RecognizeResult.mean_confidence res) ->
  flt (-1) (pilot_score res).
Proof.
  intros [H0 _]. unfold pilot_score.
  destruct (existsb _ bonus_chars).
  - apply add_bonus_above_minus_one; exact H0.
  - apply nonneg_above_minus_one, fle_zero_nonneg; exact H0.
Qed.

(** What auto-selection returns is one of the candidates. *)
Lemma select_In w pi cfg : forall candidates bn bs n,
  fst (select w pi cfg candidates bn bs) = Some n ->
  bn = Some n \/ In n candidates.
Proof.
  induction candidates as [|c rest IH]; intros bn bs n H; [left; exact H|].
  cbn [select] in H.
  destruct (outcome (pilot w pi cfg c)) as [e|res].
  - destruct (IH _ _ _ H); [left|right; right]; assumption.
  - destruct (bs <? pilot_score res)%float.
    + destruct (IH _ _ _ H) as [E|E]; [inversion E; right; left; reflexivity|].
      right; right; exact E.
    + destruct (IH _ _ _ H); [left|right; right]; assumption.
Qed.

Lemma auto_select_engine_In w images candidates cfg chosen :
  outcome (auto_select_engine w images candidates cfg) = inr chosen ->
  In chosen candidates.
Proof.
  destruct (_pilot_crop w images 512) as [e|pi] eqn:Hpi.
  { rewrite (auto_select_engine_crop_raises _ _ _ _ e Hpi). discriminate. }
  rewrite (auto_select_engine_run _ _ _ _ pi Hpi); cbn [outcome snd]. intros H.
  destruct (fst (select w pi cfg candidates None (-1)))
    as [[|c n]|] eqn:S.
  - destruct candidates; inversion H; subst; left; reflexivity.
  - inversion H; subst.
    destruct (select_In _ _ _ _ _ _ _ S) as [E|E]; [discriminate|exact E].
  - destruct candidates; inversion H; subst; left; reflexivity.
Qed.

(** C5, as stated, fails: the crop of the pilot image comes before the loop
    and outside its [try].  With an image that cannot be loaded and two
    candidates, both of which would answer, auto-selection raises the
    exception of the crop and no candidate is tried. *)
Lemma auto_select_engine_counterexample :
  auto_select_engine world_unloadable one_page [lit "paddle"; lit "easyocr"] None
    = ([], inl (Exn OtherError (lit "image file is truncated")))
  /\
  outcome (pilot world_unloadable one_page None (lit "paddle"))
    = inr (RecognizeResult.mk (lit "a") 0.6 (lit "paddle") []).
Proof. split; vm_compute; reflexivity. Qed.

(** C5, amended.  The auto-selector scores a pilot result as its mean
    confidence, plus 0.05 when one of the script-bonus characters occurs among
    the first 512 characters of its text.  When reading the size of the first
    image or cropping it raises, auto-selection raises that exception and
    tries no candidate.  Otherwise, for a non-empty candidate list, it returns
    one of the candidates, whatever the candidates do.  When every pilot raises it
    returns the first candidate.  When the pilots that return respect the
    confidence contract and at least one returns, the chosen candidate is one
    whose pilot returned, no candidate scores higher, and every candidate
    listed before it scores strictly lower (a tie goes to the earlier one). *)
Theorem auto_select_engine_spec :
  forall (w : World) (images : list Image) (cfg : option dict)
         (c0 : str) (rest : list str),
    (forall res,
        ((exists ch, In ch bonus_chars /\
                     In ch (firstn 512 (RecognizeResult.text res))) ->
         pilot_score res = (RecognizeResult.mean_confidence res + 0.05)%float) /\
        ((forall ch, In ch bonus_chars ->
                     ~ In ch (firstn 512 (RecognizeResult.text res))) ->
         pilot_score res = RecognizeResult.mean_confidence res)) /\
    (forall e,
        _pilot_crop w images 512 = inl e ->
        auto_select_engine w images (c0 :: rest) cfg = ([], inl e)) /\
    (forall pilot_images,
        _pilot_crop w images 512 = inr pilot_images ->
        exists chosen,
          outcome (auto_select_engine w images (c0 :: rest) cfg) = inr chosen /\
          In chosen (c0 :: rest) /\
          ((forall n, In n (c0 :: rest) ->
                      exists e, pilot_outcome w images cfg n = inl e) ->
           chosen = c0) /\
          ((forall n res,
               In n (c0 :: rest) ->
               pilot_outcome w images cfg n = inr res ->
               confidence_in_range (RecognizeResult.mean_confidence res)) ->
           (exists n res, In n (c0 :: rest) /\
                          pilot_outcome w images cfg n = inr res) ->
           exists i res,
             nth_error (c0 :: rest) i = Some chosen /\
             pilot_outcome w images cfg chosen = inr res /\
             forall j m r,
               nth_error (c0 :: rest) j = Some m ->
               pilot_outcome w images cfg m = inr r ->
               fle (pilot_score r) (pilot_score res) /\
               ((j < i)%nat -> flt (pilot_score r) (pilot_score res)))).
Proof.
  intros w images cfg c0 rest. split.
  { intros res; split.
    - intros H; apply bonus_present_iff in H.
      unfold pilot_score; rewrite H; reflexivity.
    - intros H. unfold pilot_score.
      destruct (existsb _ bonus_chars) eqn:E; [|reflexivity].
      apply bonus_present_iff in E; destruct E as [ch [Hb Ht]].
      exfalso; exact (H ch Hb Ht). }
  split; [intros e He; apply auto_select_engine_crop_raises; exact He|].
  intros pi Hpi. unfold pilot_outcome. rewrite Hpi.
  destruct (auto_select_engine_returns w images cfg c0 rest pi Hpi)
    as [chosen Hout].
  exists chosen; split; [exact Hout|].
  split; [exact (auto_select_engine_In _ _ _ _ _ Hout)|].
  rewrite (auto_select_engine_run _ _ _ _ pi Hpi) in Hout;
    cbn [outcome snd] in Hout.
  split.
  - intros Hall.
    rewrite (select_all_raise w pi cfg (c0 :: rest) None (-1) Hall) in Hout.
    cbn in Hout; congruence.
  - intros Hc [n0 [res0 [Hin0 Hr0]]].
    assert (Hnum : forall n res, In n (c0 :: rest) ->
                     outcome (pilot w pi cfg n) = inr res ->
                     fle (pilot_score res) (pilot_score res)).
    { intros n res Hin Hr.
      apply (flt_right_refl (-1)), pilot_score_above_initial, (Hc n res Hin Hr). }
    destruct (select_spec w pi cfg (c0 :: rest) None (-1) eq_refl Hnum) as
      [[Hs Hle]|(i & n & res & Hi & Hn & Hs & Hlt & Hmax)].
    + exfalso.
      pose proof (pilot_score_above_initial res0 (Hc n0 res0 Hin0 Hr0)) as Habove.
      pose proof (Hle n0 res0 Hin0 Hr0) as Hbelow.
      apply fle_not_flt in Hbelow. unfold flt in Habove. congruence.
    + rewrite Hs in Hout; cbn [fst] in Hout.
      destruct n as [|c n].
      { destruct (pilot_nil_raises w pi cfg) as [e He]; congruence. }
      inversion Hout; subst chosen.
      exists i, res; auto.
Qed.

Lemma auto_select_engine_spec_witness :
  exists chosen,
    outcome (auto_select_engine world_ab one_page
               [lit "paddle"; lit "easyocr"] None) = inr chosen /\
    exists i res,
      nth_error [lit "paddle"; lit "easyocr"] i = Some chosen /\
      pilot_outcome world_ab one_page None chosen = inr res /\
      forall j m r,
        nth_error [lit "paddle"; lit "easyocr"] j = Some m ->
        pilot_outcome world_ab one_page None m = inr r ->
        fle (pilot_score r) (pilot_score res) /\
        ((j < i)%nat -> flt (pilot_score r) (pilot_score res)).
Proof.
  destruct (auto_select_engine_spec world_ab one_page None
              (lit "paddle") [lit "easyocr"])
    as [_ [_ Hret]].
  destruct (Hret [Cropped (Page 0 2480 3508) (0, 0, 512, 512)] eq_refl)
    as [chosen [Hout [_ [_ Hmax]]]].
  exists chosen; split; [exact Hout|].
  apply Hmax.
  - intros n res [<-|[<-|[]]] H; vm_compute in H; inversion H; subst;
      split; vm_compute; reflexivity.
  - exists (lit "paddle"); eexists; split; [left; reflexivity|].
    vm_compute; reflexivity.
Defined.

(** The two examples of the specification: the bonus decides between 0.6 and
    0.65 + 0.05, and a tie goes to the candidate listed first. *)
Example auto_select_prefers_bonus :
  auto_select_engine world_ab one_page [lit "paddle"; lit "easyocr"] None
  = ([Create paddle;
      CallRecognizeImages (lit "paddle")
        [Cropped (Page 0 2480 3508) (0, 0, 512, 512)] None;
      Create easyocr;
      CallRecognizeImages (lit "easyocr")
        [Cropped (Page 0 2480 3508) (0, 0, 512, 512)] None],
     inr (lit "easyocr")).
Proof. vm_compute; reflexivity. Qed.

Example auto_select_tie_first :
  outcome (auto_select_engine world_tie one_page
             [lit "paddle"; lit "easyocr"] None) = inr (lit "paddle").
Proof. vm_compute; reflexivity. Qed.

Example auto_select_all_raise_first :
  outcome (auto_select_engine world_none one_page
             [lit "tesseract"; lit "paddle"] None) = inr (lit "tesseract").
Proof. vm_compute; reflexivity. Qed.

(* ------------------------------------------------------------------ *)
(** ** The entry points as sequences of their steps *)

(** Choosing the engine returns, unless the engine is "auto" and the crop of
    the pilot image raises: then that exception leaves [choose_engine], and
    nothing has been called. *)
Lemma choose_engine_cases w images engine ocr_cfg :
  (exists chosen, outcome (choose_engine w images engine ocr_cfg) = inr chosen)
  \/
  (exists e,
      engine = lit "auto" /\
      _pilot_crop w images 512 = inl e /\
      choose_engine w images engine ocr_cfg = ([], inl e)).
Proof.
  unfold choose_engine. destruct (str_eqb engine (lit "auto")) eqn:E.
  - apply str_eqb_eq in E.
    destruct (_pilot_crop w images 512) as [e|pi] eqn:Hpi.
    + right. exists e. split; [exact E|]. split; [reflexivity|].
      apply auto_select_engine_crop_raises; exact Hpi.
    + left. eapply auto_select_engine_returns; exact Hpi.
  - left; eexists; reflexivity.
Qed.

Lemma choose_engine_explicit w images engine ocr_cfg :
  engine <> lit "auto" -> choose_engine w images engine ocr_cfg = ret engine.
Proof.
  intros H. unfold choose_engine.
  destruct (str_eqb engine (lit "auto")) eqn:E; [|reflexivity].
  apply str_eqb_eq in E; contradiction.
Qed.

Lemma extract_vector_text_returns w path prefer_ocr :
  exists vector_text,
    outcome (extract_vector_text w path prefer_ocr) = inr vector_text.
Proof.
  unfold extract_vector_text.
  destruct (negb prefer_ocr && _HAS_PDFMINER w); [|eexists; reflexivity].
  destruct (pdfminer_extract_text w path); eexists; reflexivity.
Qed.

Lemma recognize_images_steps w images engine ocr_cfg thr chosen :
  outcome (choose_engine w images engine (or_empty ocr_cfg)) = inr chosen ->
  recognize_images w images engine ocr_cfg thr =
    (calls (ensure_common w)
       ++ calls (choose_engine w images engine (or_empty ocr_cfg))
       ++ calls (run_fallback_images w images (or_empty ocr_cfg) thr
                   (order_for_images chosen)),
     outcome (run_fallback_images w images (or_empty ocr_cfg) thr
                (order_for_images chosen))).
Proof.
  intros H. unfold recognize_images.
  rewrite (bind_inr _ _ tt (ensure_common_outcome w)).
  rewrite (bind_inr _ _ chosen H); reflexivity.
Qed.

Lemma recognize_pdf_by_ocr_steps w path engine ocr_cfg dpi fp lp thr fo
      images chosen :
  outcome (_load_images_from_pdf w path dpi fp lp) = inr images ->
  outcome (choose_engine w images engine ocr_cfg) = inr chosen ->
  recognize_pdf_by_ocr w path engine ocr_cfg dpi fp lp thr fo =
    (calls (_load_images_from_pdf w path dpi fp lp)
       ++ calls (choose_engine w images engine ocr_cfg)
       ++ calls (run_fallback_pdf w path images ocr_cfg thr
                   (order_for_pdf chosen fo)),
     outcome (run_fallback_pdf w path images ocr_cfg thr
                (order_for_pdf chosen fo))).
Proof.
  intros Hi Hc. unfold recognize_pdf_by_ocr.
  rewrite (bind_inr _ _ images Hi), (bind_inr _ _ chosen Hc); reflexivity.
Qed.

(** The gate let the document through to recognition. *)
Lemma recognize_pdf_gate_closed w path engine prefer_ocr ocr_cfg dpi fp lp thr fo
      vector_text :
  outcome (extract_vector_text w path prefer_ocr) = inr vector_text ->
  truthy vector_text && is_sufficient_vector_text vector_text 64 = false ->
  recognize_pdf w path engine prefer_ocr ocr_cfg dpi fp lp thr fo =
    (calls (ensure_common w)
       ++ calls (extract_vector_text w path prefer_ocr)
       ++ calls (recognize_pdf_by_ocr w path engine (or_empty ocr_cfg)
                   dpi fp lp thr fo),
     outcome (recognize_pdf_by_ocr w path engine (or_empty ocr_cfg)
                dpi fp lp thr fo)).
Proof.
  intros Hv Hg. unfold recognize_pdf.
  rewrite (bind_inr _ _ tt (ensure_common_outcome w)).
  rewrite (bind_inr _ _ vector_text Hv), Hg; reflexivity.
Qed.

(** The gate short-circuited. *)
Lemma recognize_pdf_gate_open w path engine prefer_ocr ocr_cfg dpi fp lp thr fo
      vector_text :
  outcome (extract_vector_text w path prefer_ocr) = inr vector_text ->
  truthy vector_text && is_sufficient_vector_text vector_text 64 = true ->
  recognize_pdf w path engine prefer_ocr ocr_cfg dpi fp lp thr fo =
    (calls (ensure_common w) ++ calls (extract_vector_text w path prefer_ocr),
     inr (vector_result path vector_text)).
Proof.
  intros Hv Hg. unfold recognize_pdf.
  rewrite (bind_inr _ _ tt (ensure_common_outcome w)).
  rewrite (bind_inr _ _ vector_text Hv), Hg; cbn; rewrite app_nil_r; reflexivity.
Qed.

(* ------------------------------------------------------------------ *)
(** ** C1: early exit of the fallback executor *)

(** C1. The fallback executor tries the engines in the order given and stops
    at the first one whose recognition returns a result with
    [mean_confidence >= confidence_threshold]: for every order
    [pre ++ name :: post] in which every engine of [pre] raises or stays
    below the threshold and [name] returns [res] at or above it, the outcome
    is the result built from [res] ([used_ocr = True], engine [name], the
    confidence and the text of [res]) and the calls made are exactly those of
    the attempts of [pre] and of [name]: nothing of [post] is ensured,
    constructed or invoked.  This holds for the loop of [recognize_pdf] and
    the loop of [recognize_images], for every order and threshold, and so
    for the two entry points on the order they build. *)
Theorem fallback_early_exit :
  forall (w : World) (path : str) (images : list Image) (ocr_cfg : dict)
         (thr : float) (pre : list str) (name : str) (post : list str)
         (res : RecognizeResult.t),
    (Forall (rejected (attempt_pdf w path images ocr_cfg) thr) pre ->
     outcome (attempt_pdf w path images ocr_cfg name) = inr res ->
     fle thr (RecognizeResult.mean_confidence res) ->
     run_fallback_pdf w path images ocr_cfg thr (pre ++ name :: post) =
       (attempts (attempt_pdf w path images ocr_cfg) (pre ++ [name]),
        inr (IngestResult.mk (Some path) true (Some name)
               (Some (RecognizeResult.mean_confidence res))
               (RecognizeResult.text res) (RecognizeResult.meta res))))
    /\
    (Forall (rejected (attempt_images w images ocr_cfg) thr) pre ->
     outcome (attempt_images w images ocr_cfg name) = inr res ->
     fle thr (RecognizeResult.mean_confidence res) ->
     run_fallback_images w images ocr_cfg thr (pre ++ name :: post) =
       (attempts (attempt_images w images ocr_cfg) (pre ++ [name]),
        inr (IngestResult.mk None true (Some name)
               (Some (RecognizeResult.mean_confidence res))
               (RecognizeResult.text res) (RecognizeResult.meta res))))
    /\
    (forall engine cfg chosen,
        ocr_cfg = or_empty cfg ->
        outcome (choose_engine w images engine ocr_cfg) = inr chosen ->
        order_for_images chosen = pre ++ name :: post ->
        Forall (rejected (attempt_images w images ocr_cfg) thr) pre ->
        outcome (attempt_images w images ocr_cfg name) = inr res ->
        fle thr (RecognizeResult.mean_confidence res) ->
        recognize_images w images engine cfg thr =
          (calls (ensure_common w)
             ++ calls (choose_engine w images engine ocr_cfg)
             ++ attempts (attempt_images w images ocr_cfg) (pre ++ [name]),
           inr (IngestResult.mk None true (Some name)
                  (Some (RecognizeResult.mean_confidence res))
                  (RecognizeResult.text res) (RecognizeResult.meta res))))
    /\
    (forall engine dpi fp lp fo chosen,
        outcome (_load_images_from_pdf w path dpi fp lp) = inr images ->
        outcome (choose_engine w images engine ocr_cfg) = inr chosen ->
        order_for_pdf chosen fo = pre ++ name :: post ->
        Forall (rejected (attempt_pdf w path images ocr_cfg) thr) pre ->
        outcome (attempt_pdf w path images ocr_cfg name) = inr res ->
        fle thr (RecognizeResult.mean_confidence res) ->
        recognize_pdf_by_ocr w path engine ocr_cfg dpi fp lp thr fo =
          (calls (_load_images_from_pdf w path dpi fp lp)
             ++ calls (choose_engine w images engine ocr_cfg)
             ++ attempts (attempt_pdf w path images ocr_cfg) (pre ++ [name]),
           inr (IngestResult.mk (Some path) true (Some name)
                  (Some (RecognizeResult.mean_confidence res))
                  (RecognizeResult.text res) (RecognizeResult.meta res)))).
Proof.
  intros w path images ocr_cfg thr pre name post res.
  split; [|split; [|split]].
  - intros Hp Ha Hc. unfold run_fallback_pdf.
    apply run_early_exit; assumption.
  - intros Hp Ha Hc. unfold run_fallback_images.
    apply run_early_exit; assumption.
  - intros engine cfg chosen -> Hch Ho Hp Ha Hc.
    rewrite (recognize_images_steps _ _ _ _ _ chosen Hch), Ho.
    unfold run_fallback_images.
    rewrite (run_early_exit _ _ _ _ pre name post res None Hp Ha Hc).
    reflexivity.
  - intros engine dpi fp lp fo chosen Hi Hch Ho Hp Ha Hc.
    rewrite (recognize_pdf_by_ocr_steps _ _ _ _ _ _ _ _ _ images chosen Hi Hch), Ho.
    unfold run_fallback_pdf.
    rewrite (run_early_exit _ _ _ _ pre name post res None Hp Ha Hc).
    reflexivity.
Qed.

(** The example of the specification: X (0.3), Y (0.9), Z (0.99) and the
    threshold 0.6 give Y, and Z is neither constructed nor invoked. *)
Lemma fallback_early_exit_witness :
  recognize_images world_xyz one_page (lit "paddle") None 0.6 =
    ([Create paddle; CallRecognizeImages (lit "paddle") one_page (Some []);
      Create easyocr; CallRecognizeImages (lit "easyocr") one_page (Some [])],
     inr (IngestResult.mk None true (Some (lit "easyocr")) (Some 0.9%float)
            (lit "Y") [])).
Proof.
  apply (proj1 (proj2 (proj2
    (fallback_early_exit world_xyz [] one_page [] 0.6
       [lit "paddle"] (lit "easyocr") [lit "tesseract"]
       (RecognizeResult.mk (lit "Y") 0.9 (lit "easyocr") []))))
    (lit "paddle") None (lit "paddle")).
  - reflexivity.
  - reflexivity.
  - vm_compute; reflexivity.
  - repeat constructor.
  - reflexivity.
  - reflexivity.
Defined.

(* ------------------------------------------------------------------ *)
(** ** C2: graceful degradation of the fallback executor *)

Lemma all_raise_rejected attempt thr order :
  (forall n, In n order -> exists e, outcome (attempt n) = inl e) ->
  Forall (rejected attempt thr) order.
Proof.
  intros H; apply Forall_forall; intros n Hn.
  destruct (H n Hn) as [e He]; unfold rejected; rewrite He; exact I.
Qed.

Lemma all_raise_last attempt order : forall last,
  (forall n, In n order -> exists e, outcome (attempt n) = inl e) ->
  fold_left (next_last attempt) order last = last.
Proof.
  induction order as [|n order IH]; intros last H; [reflexivity|].
  cbn [fold_left]. unfold next_last at 2.
  destruct (H n (or_introl eq_refl)) as [e ->].
  apply IH; intros m Hm; apply H; right; exact Hm.
Qed.

Lemma run_degrades_gracefully attempt input_path no_engine thr :
  degrades_gracefully attempt input_path no_engine thr.
Proof.
  split; [|split].
  - intros name rest last e He.
    assert (Hr : rejected attempt thr name)
      by (unfold rejected; rewrite He; exact I).
    rewrite (run_cons_rejected _ _ _ _ _ _ _ Hr).
    unfold next_last; rewrite He; reflexivity.
  - intros order H. rewrite (run_exhausted _ _ _ _ _ _ H).
    unfold last_result, degraded; reflexivity.
  - intros order H.
    rewrite (run_exhausted _ _ _ _ _ _ (all_raise_rejected _ thr _ H)).
    rewrite (all_raise_last _ _ None H); reflexivity.
Qed.

(** C2. For every order and threshold, in the loop of [recognize_pdf] and in
    the loop of [recognize_images]: an exception raised while ensuring,
    constructing or invoking one engine is caught and the loop continues with
    the next engine; when the order is exhausted without a result at or above
    the threshold, the result of the last engine that returned one is
    returned as a success, and when no engine returned a result the call
    fails with the loop's [RuntimeError] ("No OCR engine succeeded ...").
    The entry point [recognize_images], once it has chosen its engine, then
    fails with that same error. *)
Theorem fallback_degrades_gracefully :
  forall (w : World) (path : str) (images : list Image) (ocr_cfg : dict)
         (thr : float),
    degrades_gracefully (attempt_pdf w path images ocr_cfg) (Some path)
      no_engine_pdf thr
    /\
    degrades_gracefully (attempt_images w images ocr_cfg) None
      no_engine_images thr
    /\
    (forall engine cfg chosen,
        ocr_cfg = or_empty cfg ->
        outcome (choose_engine w images engine ocr_cfg) = inr chosen ->
        (forall n, In n (order_for_images chosen) ->
                   exists e, outcome (attempt_images w images ocr_cfg n) = inl e) ->
        outcome (recognize_images w images engine cfg thr) =
          inl (Exn RuntimeError no_engine_images)).
Proof.
  intros w path images ocr_cfg thr.
  split; [apply run_degrades_gracefully|].
  split; [apply run_degrades_gracefully|].
  intros engine cfg chosen -> Hch Hall.
  rewrite (recognize_images_steps _ _ _ _ _ chosen Hch); cbn [outcome snd].
  unfold run_fallback_images.
  apply (proj2 (proj2 (run_degrades_gracefully _ None no_engine_images thr))).
  exact Hall.
Qed.

(** The examples of the specification: X (0.2) and Y (0.3) under the
    threshold 0.6 give Y's result with confidence 0.3; with no engine
    available the call fails. *)
Lemma fallback_degrades_gracefully_witness :
  run_fallback_images world_low one_page [] 0.6
    [lit "paddle"; lit "easyocr"; lit "tesseract"] =
    ([Create paddle; CallRecognizeImages (lit "paddle") one_page (Some []);
      Create easyocr; CallRecognizeImages (lit "easyocr") one_page (Some []);
      Create tesseract],
     inr (IngestResult.mk None true (Some (lit "easyocr")) (Some 0.3%float)
            (lit "Y") []))
  /\
  outcome (recognize_images world_none one_page (lit "auto") None 0.6) =
    inl (Exn RuntimeError no_engine_images).
Proof.
  split.
  - apply (proj1 (proj2 (proj1 (proj2
      (fallback_degrades_gracefully world_low [] one_page [] 0.6))))
      [lit "paddle"; lit "easyocr"; lit "tesseract"]).
    repeat constructor.
  - refine (proj2 (proj2
      (fallback_degrades_gracefully world_none [] one_page [] 0.6))
      (lit "auto") None (lit "paddle") eq_refl _ _); [reflexivity|].
    intros n _. unfold attempt_images.
    rewrite (bind_inr _ _ tt (ensure_for_engine_outcome world_none n)).
    unfold build_adapter.
    destruct (registry (lower n)); eexists; reflexivity.
Defined.

(* ------------------------------------------------------------------ *)
(** ** Which calls a computation can make *)

Section CallsOf.

Variable P : event -> Prop.

Lemma Forall_calls_bind {A B} (m : M A) (f : A -> M B) :
  Forall P (calls m) -> (forall a, Forall P (calls (f a))) ->
  Forall P (calls (bind m f)).
Proof.
  intros Hm Hf. destruct m as [l [e|a]]; cbn in *; [exact Hm|].
  specialize (Hf a). destruct (f a) as [l' r]; cbn in *.
  apply Forall_app; split; assumption.
Qed.

Lemma Forall_calls_try {A} (m : M A) (h : exn -> M A) :
  Forall P (calls m) -> (forall e, Forall P (calls (h e))) ->
  Forall P (calls (try_except m h)).
Proof.
  intros Hm Hh. destruct m as [l [e|a]]; cbn in *; [|exact Hm].
  specialize (Hh e). destruct (h e) as [l' r]; cbn in *.
  apply Forall_app; split; assumption.
Qed.

Lemma Forall_calls_ret {A} (a : A) : Forall P (calls (ret a)).
Proof. constructor. Qed.

Lemma Forall_calls_raise {A} (e : exn) : Forall P (calls (@raise A e)).
Proof. constructor. Qed.

Lemma Forall_calls_call {A} ev (r : result A) : P ev -> Forall P (calls (call ev r)).
Proof. intros H; repeat constructor; exact H. Qed.

Hypothesis P_pip : forall pkgs, P (PipInstall pkgs).
Hypothesis P_create : forall m, P (Create m).
Hypothesis P_pdf : forall a p c, P (CallRecognizePdf a p c).
Hypothesis P_images : forall a i c, P (CallRecognizeImages a i c).

Lemma Forall_calls_ensure_for_engine w n : Forall P (calls (ensure_for_engine w n)).
Proof.
  unfold ensure_for_engine. destruct (negb (auto_install w)); [constructor|].
  destruct (dict_get _ENGINE_TO_PACKAGES n []); [constructor|].
  apply Forall_calls_call, P_pip.
Qed.

Lemma Forall_calls_build_adapter w n : Forall P (calls (build_adapter w n)).
Proof.
  unfold build_adapter. destruct (registry (lower n)).
  - apply Forall_calls_call, P_create.
  - constructor.
Qed.

Lemma Forall_calls_pilot w pi cfg n : Forall P (calls (pilot w pi cfg n)).
Proof.
  unfold pilot. apply Forall_calls_bind; [apply Forall_calls_build_adapter|].
  intros a; apply Forall_calls_call, P_images.
Qed.

Lemma Forall_calls_attempt_images w images cfg n :
  Forall P (calls (attempt_images w images cfg n)).
Proof.
  unfold attempt_images.
  apply Forall_calls_bind; [apply Forall_calls_ensure_for_engine|intros _].
  apply Forall_calls_bind; [apply Forall_calls_build_adapter|intros a].
  apply Forall_calls_call, P_images.
Qed.

Lemma Forall_calls_attempt_pdf w path images cfg n :
  Forall P (calls (attempt_pdf w path images cfg n)).
Proof.
  unfold attempt_pdf.
  apply Forall_calls_bind; [apply Forall_calls_ensure_for_engine|intros _].
  apply Forall_calls_bind; [apply Forall_calls_build_adapter|intros a].
  destruct (supports_pdf a); apply Forall_calls_call; auto.
Qed.

Lemma Forall_calls_run attempt input_path no_engine thr :
  (forall n, Forall P (calls (attempt n))) ->
  forall order last,
    Forall P (calls (run_with_fallback attempt input_path no_engine thr order last)).
Proof.
  intros Ha. induction order as [|n order IH]; intros last.
  - cbn. destruct last; constructor.
  - cbn [run_with_fallback]. apply Forall_calls_bind.
    + apply Forall_calls_try; [|intros e; constructor].
      apply Forall_calls_bind; [apply Ha|intros res].
      destruct (thr <=? RecognizeResult.mean_confidence res)%float; constructor.
    + intros [r|l]; [constructor|apply IH].
Qed.

Lemma Forall_calls_auto_select w images candidates cfg :
  Forall P (calls (auto_select_engine w images candidates cfg)).
Proof.
  rewrite auto_select_engine_calls.
  destruct (_pilot_crop _ images 512) as [?|pi]; [constructor|].
  induction candidates as [|n rest IH]; [constructor|].
  cbn [flat_map]. apply Forall_app; split; [apply Forall_calls_pilot|exact IH].
Qed.

Lemma Forall_calls_choose_engine w images engine cfg :
  Forall P (calls (choose_engine w images engine cfg)).
Proof.
  unfold choose_engine. destruct (str_eqb engine (lit "auto")).
  - apply Forall_calls_auto_select.
  - constructor.
Qed.

Lemma Forall_calls_recognize_images w images engine cfg thr :
  Forall P (calls (recognize_images w images engine cfg thr)).
Proof.
  unfold recognize_images.
  apply Forall_calls_bind.
  { unfold ensure_common. destruct (negb (auto_install w)); [constructor|].
    apply Forall_calls_call, P_pip. }
  intros _. apply Forall_calls_bind; [apply Forall_calls_choose_engine|].
  intros chosen. apply Forall_calls_run. apply Forall_calls_attempt_images.
Qed.

Hypothesis P_convert : forall p d f l, P (ConvertFromPath p d f l).

Lemma Forall_calls_by_ocr w path engine cfg dpi fp lp thr fo :
  Forall P (calls (recognize_pdf_by_ocr w path engine cfg dpi fp lp thr fo)).
Proof.
  unfold recognize_pdf_by_ocr. apply Forall_calls_bind.
  { unfold _load_images_from_pdf. destruct (negb (_HAS_PDF2IMAGE w));
      [constructor|apply Forall_calls_call, P_convert]. }
  intros images. apply Forall_calls_bind; [apply Forall_calls_choose_engine|].
  intros chosen. apply Forall_calls_run. apply Forall_calls_attempt_pdf.
Qed.

End CallsOf.

(* ------------------------------------------------------------------ *)
(** ** C7 and C6: the vector-text gate *)

Lemma is_sufficient_vector_text_iff text min_len :
  is_sufficient_vector_text text min_len = true <->
  text <> [] /\ min_len <= len (strip text).
Proof.
  unfold is_sufficient_vector_text. destruct text as [|c text].
  - split; [discriminate|intros [H _]; contradiction].
  - rewrite Z.leb_le. split; [intros H; split; [discriminate|exact H]|tauto].
Qed.

(** With the default threshold the test [vector_text and
    is_sufficient_vector_text(vector_text)] of [recognize_pdf] is the
    comparison of the trimmed length with 64. *)
Lemma gate_default_iff text :
  truthy text && is_sufficient_vector_text text 64 = true <->
  64 <= len (strip text).
Proof.
  rewrite andb_true_iff, is_sufficient_vector_text_iff. split.
  - tauto.
  - intros H. destruct text as [|c text]; [cbn in H; lia|].
    repeat split; [discriminate|exact H].
Qed.

Lemma ensure_common_calls w :
  calls (ensure_common w) = if auto_install w then [PipInstall _COMMON] else [].
Proof. unfold ensure_common; destruct (auto_install w); reflexivity. Qed.

(** C7. The sufficiency predicate: a text whose trimmed length reaches the
    minimum (a positive length, 64 by default) is sufficient; an empty text
    and a text whose trimmed length is below the minimum are insufficient.
    With [prefer_ocr] set, [recognize_pdf] makes no extraction call at all
    and goes on to rasterization and recognition; when the extraction
    raises, the document is treated the same way. *)
Theorem vector_text_gate_spec :
  (forall text min_len,
      0 < min_len -> min_len <= len (strip text) ->
      is_sufficient_vector_text text min_len = true)
  /\
  (forall text min_len,
      text = [] \/ len (strip text) < min_len ->
      is_sufficient_vector_text text min_len = false)
  /\
  (forall text,
      (64 <= len (strip text) ->
       truthy text && is_sufficient_vector_text text 64 = true) /\
      (text = [] \/ len (strip text) < 64 ->
       truthy text && is_sufficient_vector_text text 64 = false))
  /\
  (forall w path engine cfg dpi fp lp thr fo,
      (forall p, ~ In (ExtractText p)
                   (calls (recognize_pdf w path engine true cfg dpi fp lp thr fo))) /\
      recognize_pdf w path engine true cfg dpi fp lp thr fo =
        (calls (ensure_common w)
           ++ calls (recognize_pdf_by_ocr w path engine (or_empty cfg)
                       dpi fp lp thr fo),
         outcome (recognize_pdf_by_ocr w path engine (or_empty cfg)
                    dpi fp lp thr fo)))
  /\
  (forall w path engine prefer_ocr cfg dpi fp lp thr fo e,
      pdfminer_extract_text w path = inl e ->
      outcome (extract_vector_text w path prefer_ocr) = inr [] /\
      recognize_pdf w path engine prefer_ocr cfg dpi fp lp thr fo =
        (calls (ensure_common w)
           ++ calls (extract_vector_text w path prefer_ocr)
           ++ calls (recognize_pdf_by_ocr w path engine (or_empty cfg)
                       dpi fp lp thr fo),
         outcome (recognize_pdf_by_ocr w path engine (or_empty cfg)
                    dpi fp lp thr fo))).
Proof.
  split; [|split; [|split; [|split]]].
  - intros text min_len Hpos Hlen. apply is_sufficient_vector_text_iff.
    split; [|exact Hlen]. intros ->. cbn in Hlen. lia.
  - intros text min_len H.
    destruct (is_sufficient_vector_text text min_len) eqn:E; [|reflexivity].
    apply is_sufficient_vector_text_iff in E. destruct E as [Hne Hlen].
    destruct H as [H|H]; [contradiction|lia].
  - intros text; split.
    + apply gate_default_iff.
    + intros H.
      destruct (truthy text && is_sufficient_vector_text text 64) eqn:E;
        [|reflexivity].
      apply gate_default_iff in E.
      destruct H as [->|H]; [cbn in E|]; lia.
  - intros w path engine cfg dpi fp lp thr fo.
    assert (Hrun : recognize_pdf w path engine true cfg dpi fp lp thr fo =
        (calls (ensure_common w)
           ++ calls (recognize_pdf_by_ocr w path engine (or_empty cfg)
                       dpi fp lp thr fo),
         outcome (recognize_pdf_by_ocr w path engine (or_empty cfg)
                    dpi fp lp thr fo))).
    { rewrite (recognize_pdf_gate_closed w path engine true cfg dpi fp lp thr fo []);
        reflexivity. }
    split; [|exact Hrun].
    intros p Hin. rewrite Hrun in Hin. cbn [calls fst] in Hin.
    apply in_app_or in Hin. destruct Hin as [Hin|Hin].
    + rewrite ensure_common_calls in Hin.
      destruct (auto_install w); cbn in Hin; [destruct Hin as [Hin|[]]|destruct Hin].
      discriminate.
    + pose proof (Forall_calls_by_ocr (fun ev => ev <> ExtractText p)) as HF.
      eapply Forall_forall in HF; [apply HF; reflexivity| | | | | |exact Hin];
        intros; discriminate.
  - intros w path engine prefer_ocr cfg dpi fp lp thr fo e He.
    assert (Hv : outcome (extract_vector_text w path prefer_ocr) = inr []).
    { unfold extract_vector_text.
      destruct (negb prefer_ocr && _HAS_PDFMINER w); [|reflexivity].
      rewrite He; reflexivity. }
    split; [exact Hv|].
    apply (recognize_pdf_gate_closed _ _ _ _ _ _ _ _ _ _ [] Hv); reflexivity.
Qed.

Lemma vector_text_gate_spec_witness :
  is_sufficient_vector_text (repeat 97%N 62 ++ lit "  ") 64 = false
  /\ is_sufficient_vector_text (lit " " ++ repeat 97%N 64 ++ lit " ") 64 = true.
Proof.
  split.
  - apply (proj1 (proj2 vector_text_gate_spec)). right. vm_compute. reflexivity.
  - apply (proj1 vector_text_gate_spec); vm_compute; [reflexivity|discriminate].
Defined.

(** C6. When pdfminer is present, the extraction returns a text whose
    trimmed length is at least 64 and [prefer_ocr] is false, [recognize_pdf]
    returns the vector result ([used_ocr = False], no engine, no confidence,
    the extracted text itself), and the only calls it makes are the common
    dependency check and the extraction: no rasterization, no engine
    construction, no recognition. *)
Theorem vector_text_bypass :
  forall (w : World) (path engine : str) (cfg : option dict) (dpi : Z)
         (fp lp : option Z) (thr : float) (fo : option (list str))
         (text : str),
    _HAS_PDFMINER w = true ->
    pdfminer_extract_text w path = inr text ->
    64 <= len (strip text) ->
    recognize_pdf w path engine false cfg dpi fp lp thr fo =
      ((if auto_install w then [PipInstall _COMMON] else [])
         ++ [ExtractText path],
       inr (IngestResult.mk (Some path) false None None text
              [(lit "vector", PyBool true)])).
Proof.
  intros w path engine cfg dpi fp lp thr fo text Hm He Hlen.
  assert (Hx : extract_vector_text w path false = ([ExtractText path], inr text)).
  { unfold extract_vector_text. rewrite Hm. cbn [negb andb].
    unfold call, try_except. rewrite He. reflexivity. }
  rewrite (recognize_pdf_gate_open w path engine false cfg dpi fp lp thr fo text).
  - rewrite ensure_common_calls, Hx; reflexivity.
  - rewrite Hx; reflexivity.
  - apply gate_default_iff; exact Hlen.
Qed.

(** The example of the specification: 500 characters of embedded text. *)
Lemma vector_text_bypass_witness :
  recognize_pdf world_vector (lit "scan.pdf") (lit "auto") false None 300
    None None 0.6 None =
    ([PipInstall _COMMON; ExtractText (lit "scan.pdf")],
     inr (IngestResult.mk (Some (lit "scan.pdf")) false None None
            (repeat 97%N 500) [(lit "vector", PyBool true)])).
Proof.
  apply (vector_text_bypass world_vector (lit "scan.pdf") (lit "auto") None
           300 None None 0.6 None (repeat 97%N 500)).
  - reflexivity.
  - reflexivity.
  - vm_compute; discriminate.
Defined.

(* ------------------------------------------------------------------ *)
(** ** C4: the engine candidate order *)

Lemma str_in_app x l l' : str_in x (l ++ l') = str_in x l || str_in x l'.
Proof. apply existsb_app. Qed.

Lemma append_missing_eq names : forall order,
  NoDup names ->
  fold_left
    (fun order name => if negb (str_in name order) then order ++ [name] else order)
    names order
  = order ++ filter (fun d => negb (str_in d order)) names.
Proof.
  induction names as [|d names IH]; intros order Hnd.
  - cbn; rewrite app_nil_r; reflexivity.
  - inversion Hnd as [|? ? Hd Hnames]; subst.
    cbn [fold_left filter].
    destruct (str_in d order) eqn:E; cbn [negb].
    + apply IH; exact Hnames.
    + rewrite (IH _ Hnames), <- app_assoc. cbn [app]. do 2 f_equal.
      apply filter_ext_in. intros x Hx.
      rewrite str_in_app. cbn [str_in existsb].
      destruct (str_eqb x d) eqn:Exd.
      * apply str_eqb_eq in Exd; subst; contradiction.
      * rewrite !orb_false_r; reflexivity.
Qed.

Lemma NoDup_default_candidates : NoDup default_candidates.
Proof.
  unfold default_candidates.
  repeat constructor; cbn; intros H;
    repeat (destruct H as [H|H]; [discriminate H|]); exact H.
Qed.

Lemma append_defaults_eq order :
  append_defaults order = order ++ missing_defaults order.
Proof. apply append_missing_eq, NoDup_default_candidates. Qed.

Lemma NoDup_append_defaults order :
  NoDup order -> NoDup (append_defaults order).
Proof.
  intros H. rewrite append_defaults_eq. apply NoDup_app.
  - exact H.
  - apply NoDup_filter, NoDup_default_candidates.
  - intros a Ha Hm. unfold missing_defaults in Hm.
    apply filter_In in Hm. destruct Hm as [_ Hm].
    apply negb_true_iff, str_in_false in Hm. contradiction.
Qed.

Lemma NoDup_with_engine engine order :
  NoDup order -> NoDup (with_engine engine order).
Proof.
  intros H. unfold with_engine.
  destruct (str_in engine order) eqn:E; cbn [negb]; [exact H|].
  constructor; [apply str_in_false; exact E|exact H].
Qed.

(** C4, as stated, fails: a fallback order with a repeated identifier is
    taken as it is, so the identifier is executed twice; and an engine that
    already occurs in the fallback order is not moved to the front. *)
Lemma candidate_order_counterexample :
  order_for_pdf (lit "paddle") (Some [lit "tesseract"; lit "tesseract"]) =
    [lit "paddle"; lit "tesseract"; lit "tesseract"; lit "easyocr"]
  /\
  ~ NoDup (order_for_pdf (lit "paddle")
             (Some [lit "tesseract"; lit "tesseract"]))
  /\
  calls (recognize_pdf world_none (lit "scan.pdf") (lit "paddle") true None
           300 None None 0.6 (Some [lit "tesseract"; lit "tesseract"])) =
    [ConvertFromPath (lit "scan.pdf") 300 None None;
     Create paddle; Create tesseract; Create tesseract; Create easyocr]
  /\
  order_for_pdf (lit "paddle") (Some [lit "tesseract"; lit "paddle"]) =
    [lit "tesseract"; lit "paddle"; lit "easyocr"].
Proof.
  split; [vm_compute; reflexivity|].
  split; [|split; vm_compute; reflexivity].
  intros H.
  change (order_for_pdf (lit "paddle") (Some [lit "tesseract"; lit "tesseract"]))
    with [lit "paddle"; lit "tesseract"; lit "tesseract"; lit "easyocr"] in H.
  inversion H as [|? ? _ H1]; subst.
  inversion H1 as [|? ? Hin _]; subst.
  apply Hin; left; reflexivity.
Qed.

(** C4, amended.  The order [recognize_pdf] executes is the caller's fallback
    order as given (or the chosen engine alone when none is given), with the
    chosen engine put in front only when it does not occur in it, followed by
    those of paddle, easyocr, tesseract that do not occur yet, in that order.
    The code adds no identifier that is already present: the order is
    pairwise distinct whenever the caller's fallback order is, and the order
    of [recognize_images], the chosen engine followed by the other defaults,
    always is. *)
Theorem candidate_order_spec :
  forall (engine : str) (fallback_order : option (list str)),
    (In engine (initial_order engine fallback_order) ->
     order_for_pdf engine fallback_order =
       initial_order engine fallback_order
         ++ missing_defaults (initial_order engine fallback_order))
    /\
    (~ In engine (initial_order engine fallback_order) ->
     order_for_pdf engine fallback_order =
       engine :: initial_order engine fallback_order
         ++ missing_defaults (engine :: initial_order engine fallback_order))
    /\
    (NoDup (initial_order engine fallback_order) ->
     NoDup (order_for_pdf engine fallback_order))
    /\
    order_for_images engine = engine :: missing_defaults [engine]
    /\
    NoDup (order_for_images engine).
Proof.
  intros engine fo. unfold order_for_pdf, order_for_images.
  rewrite !append_defaults_eq.
  split; [|split; [|split; [|split]]].
  - intros H. apply str_in_In in H. unfold with_engine; rewrite H; reflexivity.
  - intros H. apply str_in_false in H. unfold with_engine; rewrite H; reflexivity.
  - intros H. rewrite <- append_defaults_eq.
    apply NoDup_append_defaults, NoDup_with_engine, H.
  - reflexivity.
  - rewrite <- append_defaults_eq. apply NoDup_append_defaults.
    repeat constructor. intros [].
Qed.

Lemma candidate_order_spec_witness :
  NoDup (order_for_pdf (lit "doctr") (Some [lit "tesseract"; lit "nougat"]))
  /\
  order_for_pdf (lit "doctr") (Some [lit "tesseract"; lit "nougat"]) =
    lit "doctr" :: [lit "tesseract"; lit "nougat"]
      ++ [lit "paddle"; lit "easyocr"].
Proof.
  split.
  - apply (proj1 (proj2 (proj2
      (candidate_order_spec (lit "doctr") (Some [lit "tesseract"; lit "nougat"]))))).
    repeat constructor; cbn; intros H;
      repeat (destruct H as [H|H]; [discriminate H|]); exact H.
  - apply (proj1 (proj2
      (candidate_order_spec (lit "doctr") (Some [lit "tesseract"; lit "nougat"])))).
    cbn; intros H;
      repeat (destruct H as [H|H]; [discriminate H|]); exact H.
Defined.

(* ------------------------------------------------------------------ *)
(** ** C3: what a returned result looks like *)

Lemma fold_next_last_Some attempt order : forall last r,
  fold_left (next_last attempt) order last = Some r ->
  last = Some r \/
  exists name, In name order /\ outcome (attempt name) = inr r.
Proof.
  induction order as [|n order IH]; intros last r H; [left; exact H|].
  cbn [fold_left] in H. destruct (IH _ _ H) as [Hl|[name [Hin Hr]]].
  - unfold next_last in Hl. destruct (outcome (attempt n)) as [e|res] eqn:E.
    + left; exact Hl.
    + right; exists n; split; [left; reflexivity|congruence].
  - right; exists name; split; [right; exact Hin|exact Hr].
Qed.

Lemma fold_next_last_stays attempt order : forall x,
  exists y, fold_left (next_last attempt) order (Some x) = Some y.
Proof.
  induction order as [|n order IH]; intros x; [eexists; reflexivity|].
  cbn [fold_left]. unfold next_last at 2.
  destruct (outcome (attempt n)); apply IH.
Qed.

Lemma fold_next_last_None attempt order : forall last,
  fold_left (next_last attempt) order last = None ->
  forall n, In n order -> exists e, outcome (attempt n) = inl e.
Proof.
  induction order as [|n order IH]; intros last H m Hm; [destruct Hm|].
  cbn [fold_left] in H. unfold next_last at 2 in H.
  destruct (outcome (attempt n)) as [e|res] eqn:E.
  - destruct Hm as [<-|Hm]; [eexists; exact E|eapply IH; eassumption].
  - destruct (fold_next_last_stays attempt order res) as [y Hy]. congruence.
Qed.

(** How a fallback run can end. *)
Lemma run_outcome_cases attempt input_path no_engine thr order :
  (exists name res,
      In name order /\ outcome (attempt name) = inr res /\
      (outcome (run_with_fallback attempt input_path no_engine thr order None)
         = inr (accepted input_path name res)
       \/
       outcome (run_with_fallback attempt input_path no_engine thr order None)
         = inr (degraded input_path res)))
  \/
  ((forall n, In n order -> exists e, outcome (attempt n) = inl e) /\
   outcome (run_with_fallback attempt input_path no_engine thr order None)
     = inl (Exn RuntimeError no_engine)).
Proof.
  destruct (accepted_or_exhausted attempt thr order)
    as [(pre & name & post & res & -> & Hp & Hr & Hc)|Hex].
  - left; exists name, res. split; [apply in_elt|]. split; [exact Hr|].
    left. rewrite (run_early_exit _ _ _ _ _ _ _ _ _ Hp Hr Hc); reflexivity.
  - rewrite (run_exhausted _ _ _ _ _ _ Hex); cbn [outcome snd].
    destruct (fold_left (next_last attempt) order None) as [r|] eqn:F.
    + left. destruct (fold_next_last_Some _ _ _ _ F) as [H|[name [Hin Hr]]];
        [discriminate|].
      exists name, r; auto.
    + right; split; [|reflexivity].
      eapply fold_next_last_None; exact F.
Qed.

(** A loop that returns, returns the result of an engine of its order:
    accepted under that engine's name, or kept as the last result. *)
Lemma run_result_cases attempt input_path no_engine thr order r :
  outcome (run_with_fallback attempt input_path no_engine thr order None)
    = inr r ->
  exists name res,
    In name order /\ outcome (attempt name) = inr res /\
    (r = accepted input_path name res \/ r = degraded input_path res).
Proof.
  intros H.
  destruct (run_outcome_cases attempt input_path no_engine thr order)
    as [(name & res & Hin & Hr & [Ha|Hd])|[_ He]].
  - exists name, res. rewrite Ha in H. inversion H; auto.
  - exists name, res. rewrite Hd in H. inversion H; auto.
  - rewrite He in H; discriminate.
Qed.

(** A loop that fails, fails with its own [RuntimeError], every engine of the
    order having raised. *)
Lemma run_failure_cases attempt input_path no_engine thr order e :
  outcome (run_with_fallback attempt input_path no_engine thr order None)
    = inl e ->
  e = Exn RuntimeError no_engine /\
  forall n, In n order -> exists e', outcome (attempt n) = inl e'.
Proof.
  intros H.
  destruct (run_outcome_cases attempt input_path no_engine thr order)
    as [(name & res & Hin & Hr & [Ha|Hd])|[Hall He]];
    [rewrite Ha in H; discriminate|rewrite Hd in H; discriminate|].
  rewrite He in H. inversion H. split; [reflexivity|exact Hall].
Qed.

(** When the engine is "auto" and the crop of the pilot image raises,
    [recognize_images] ends there. *)
Lemma recognize_images_crop_raises w images engine cfg thr e :
  choose_engine w images engine (or_empty cfg) = ([], inl e) ->
  recognize_images w images engine cfg thr = (calls (ensure_common w), inl e).
Proof.
  intros H. unfold recognize_images.
  rewrite (bind_inr _ _ tt (ensure_common_outcome w)).
  rewrite H. cbn. rewrite app_nil_r. reflexivity.
Qed.

(** How [recognize_images] ends: as its loop does for the chosen engine, or
    with the exception of the pilot crop. *)
Lemma recognize_images_outcome w images engine cfg thr :
  (exists chosen,
      outcome (choose_engine w images engine (or_empty cfg)) = inr chosen /\
      outcome (recognize_images w images engine cfg thr) =
        outcome (run_fallback_images w images (or_empty cfg) thr
                   (order_for_images chosen)))
  \/
  (exists e,
      engine = lit "auto" /\
      _pilot_crop w images 512 = inl e /\
      recognize_images w images engine cfg thr = (calls (ensure_common w), inl e)).
Proof.
  destruct (choose_engine_cases w images engine (or_empty cfg))
    as [[chosen H]|(e & Ha & Hc & He)].
  - left. exists chosen; split; [exact H|].
    rewrite (recognize_images_steps _ _ _ _ _ chosen H); reflexivity.
  - right. exists e. split; [exact Ha|]. split; [exact Hc|].
    apply recognize_images_crop_raises; exact He.
Qed.

(** A result of [recognize_images] is the result of an engine of the order
    built for the chosen engine. *)
Lemma recognize_images_returns w images engine cfg thr r :
  outcome (recognize_images w images engine cfg thr) = inr r ->
  exists chosen name res,
    outcome (choose_engine w images engine (or_empty cfg)) = inr chosen /\
    In name (order_for_images chosen) /\
    outcome (attempt_images w images (or_empty cfg) name) = inr res /\
    (r = accepted None name res \/ r = degraded None res).
Proof.
  intros H.
  destruct (recognize_images_outcome w images engine cfg thr)
    as [(chosen & Hc & Ho)|(e & _ & _ & He)].
  - rewrite Ho in H. unfold run_fallback_images in H.
    destruct (run_result_cases _ _ _ _ _ _ H) as (name & res & Hin & Hr & Hcase).
    exists chosen, name, res. auto.
  - rewrite He in H. discriminate.
Qed.

(** A failure of [recognize_images] is the exception of the pilot crop (with
    engine "auto") or the [RuntimeError] of the exhausted loop. *)
Lemma recognize_images_fails w images engine cfg thr e :
  outcome (recognize_images w images engine cfg thr) = inl e ->
  (engine = lit "auto" /\ _pilot_crop w images 512 = inl e)
  \/
  (e = Exn RuntimeError no_engine_images /\
   exists chosen,
     outcome (choose_engine w images engine (or_empty cfg)) = inr chosen /\
     forall n, In n (order_for_images chosen) ->
               exists e', outcome (attempt_images w images (or_empty cfg) n)
                          = inl e').
Proof.
  intros H.
  destruct (recognize_images_outcome w images engine cfg thr)
    as [(chosen & Hc & Ho)|(e0 & Ha & Hc & He)].
  - right. rewrite Ho in H. unfold run_fallback_images in H.
    destruct (run_failure_cases _ _ _ _ _ _ H) as [-> Hall].
    split; [reflexivity|]. exists chosen; auto.
  - left. rewrite He in H. inversion H; subst e0. auto.
Qed.

Lemma recognize_pdf_outcome_cases w path engine prefer_ocr cfg dpi fp lp thr fo r :
  outcome (recognize_pdf w path engine prefer_ocr cfg dpi fp lp thr fo) = inr r ->
  (exists vector_text,
      prefer_ocr = false /\
      pdfminer_extract_text w path = inr vector_text /\
      64 <= len (strip vector_text) /\
      r = vector_result path vector_text)
  \/
  (exists images chosen,
      outcome (_load_images_from_pdf w path dpi fp lp) = inr images /\
      outcome (choose_engine w images engine (or_empty cfg)) = inr chosen /\
      outcome (run_fallback_pdf w path images (or_empty cfg) thr
                 (order_for_pdf chosen fo)) = inr r).
Proof.
  intros H.
  destruct (extract_vector_text_returns w path prefer_ocr) as [vt Hv].
  destruct (truthy vt && is_sufficient_vector_text vt 64) eqn:G.
  - left. exists vt.
    rewrite (recognize_pdf_gate_open _ _ _ _ _ _ _ _ _ _ vt Hv G) in H.
    cbn in H. inversion H; subst r.
    pose proof (proj1 (gate_default_iff vt) G) as Hlen.
    assert (Hne : vt <> []) by (intros ->; cbn in Hlen; lia).
    unfold extract_vector_text in Hv.
    destruct prefer_ocr; cbn [negb andb] in Hv; [cbn in Hv; congruence|].
    destruct (_HAS_PDFMINER w); [|cbn in Hv; congruence].
    unfold call, try_except in Hv.
    destruct (pdfminer_extract_text w path) as [e|t]; cbn in Hv;
      [congruence|].
    inversion Hv; subst. auto.
  - right.
    rewrite (recognize_pdf_gate_closed _ _ _ _ _ _ _ _ _ _ vt Hv G) in H.
    cbn [outcome snd] in H.
    destruct (outcome (_load_images_from_pdf w path dpi fp lp)) as [e|images] eqn:Hi.
    + unfold recognize_pdf_by_ocr in H. rewrite (bind_inl _ _ e Hi) in H.
      discriminate.
    + destruct (choose_engine_cases w images engine (or_empty cfg))
        as [[chosen Hc]|(e & _ & _ & He)].
      * exists images, chosen. split; [reflexivity|]. split; [exact Hc|].
        rewrite (recognize_pdf_by_ocr_steps _ _ _ _ _ _ _ _ _ images chosen Hi Hc)
          in H.
        exact H.
      * unfold recognize_pdf_by_ocr in H.
        rewrite (bind_inr _ _ images Hi) in H. cbn [outcome snd] in H.
        rewrite He in H. discriminate.
Qed.

(** A failure of [recognize_pdf] is the exception of the rasterizer, the
    exception of the pilot crop (with engine "auto"), or the [RuntimeError] of
    the exhausted loop. *)
Lemma recognize_pdf_fails w path engine prefer_ocr cfg dpi fp lp thr fo e :
  outcome (recognize_pdf w path engine prefer_ocr cfg dpi fp lp thr fo) = inl e ->
  outcome (_load_images_from_pdf w path dpi fp lp) = inl e
  \/
  (exists images,
      outcome (_load_images_from_pdf w path dpi fp lp) = inr images /\
      engine = lit "auto" /\ _pilot_crop w images 512 = inl e)
  \/
  (e = Exn RuntimeError no_engine_pdf /\
   exists images chosen,
     outcome (_load_images_from_pdf w path dpi fp lp) = inr images /\
     outcome (choose_engine w images engine (or_empty cfg)) = inr chosen /\
     forall n, In n (order_for_pdf chosen fo) ->
               exists e', outcome (attempt_pdf w path images (or_empty cfg) n)
                          = inl e').
Proof.
  intros H.
  destruct (extract_vector_text_returns w path prefer_ocr) as [vt Hv].
  destruct (truthy vt && is_sufficient_vector_text vt 64) eqn:G.
  { rewrite (recognize_pdf_gate_open _ _ _ _ _ _ _ _ _ _ vt Hv G) in H.
    discriminate. }
  rewrite (recognize_pdf_gate_closed _ _ _ _ _ _ _ _ _ _ vt Hv G) in H.
  cbn [outcome snd] in H.
  destruct (outcome (_load_images_from_pdf w path dpi fp lp)) as [e0|images] eqn:Hi.
  - left. unfold recognize_pdf_by_ocr in H. rewrite (bind_inl _ _ e0 Hi) in H.
    cbn in H. inversion H; reflexivity.
  - right.
    destruct (choose_engine_cases w images engine (or_empty cfg))
      as [[chosen Hc]|(e0 & Ha & Hcrop & He)].
    + right.
      rewrite (recognize_pdf_by_ocr_steps _ _ _ _ _ _ _ _ _ images chosen Hi Hc)
        in H.
      cbn [outcome snd] in H. unfold run_fallback_pdf in H.
      destruct (run_failure_cases _ _ _ _ _ _ H) as [-> Hall].
      split; [reflexivity|]. exists images, chosen; auto.
    + left. exists images. split; [reflexivity|]. split; [exact Ha|].
      unfold recognize_pdf_by_ocr in H.
      rewrite (bind_inr _ _ images Hi) in H. cbn [outcome snd] in H.
      rewrite He in H. cbn in H. inversion H; subst e0. exact Hcrop.
Qed.

(** A result of [recognize_images] is the result of an engine. *)
Lemma recognize_images_result w images engine cfg thr r :
  outcome (recognize_images w images engine cfg thr) = inr r ->
  IngestResult.used_ocr r = true /\
  IngestResult.engine r <> None /\
  exists name res,
    outcome (attempt_images w images (or_empty cfg) name) = inr res /\
    IngestResult.text r = RecognizeResult.text res /\
    IngestResult.ocr_confidence r
      = Some (RecognizeResult.mean_confidence res).
Proof.
  intros H.
  destruct (recognize_images_returns _ _ _ _ _ _ H)
    as (chosen & name & res & _ & _ & Hr & [->| ->]); cbn;
    (split; [reflexivity|split; [discriminate|exists name, res; auto]]).
Qed.




(* ------------------------------------------------------------------ *)
(** ** C8: the dual-pass combiner *)

(** [max(printed.ocr_confidence or 0.0, htr_res.mean_confidence)] is the
    greater of the two confidences when both are numbers. *)
Lemma py_max_or_zero_spec pc hc :
  fle pc pc -> fle hc hc ->
  fle pc (py_max (or_zero (Some pc)) hc) /\
  fle hc (py_max (or_zero (Some pc)) hc) /\
  ((py_max (or_zero (Some pc)) hc =? pc)%float = true \/
   py_max (or_zero (Some pc)) hc = hc).
Proof.
  intros Hp Hh. unfold py_max, or_zero.
  destruct (pc =? 0)%float eqn:Ez.
  - destruct (0 <? hc)%float eqn:El.
    + repeat split; [float_order|exact Hh|right; reflexivity].
    + repeat split; [float_order|float_order|left; float_order].
  - destruct (pc <? hc)%float eqn:El.
    + repeat split; [float_order|exact Hh|right; reflexivity].
    + repeat split; [exact Hp|float_order|left; float_order].
Qed.

(** C8. With [enable_htr] false, [maybe_enable_htr] is the printed-only pass.
    With [enable_htr] true and a printed pass that returned [printed]: when
    the handwriting pass raises, the result is [printed] itself; when it
    returns [htr], the result has the text of [printed], a newline and the
    text of [htr], the engine name of [printed] joined by "+" to that of
    [htr], and as confidence the greater of the two confidences. *)
Theorem dual_pass_combination :
  forall (w : World) (images : list Image) (printed_text_engine htr_engine : str)
         (cfg : option dict),
    maybe_enable_htr w images false printed_text_engine htr_engine cfg =
      recognize_images w images printed_text_engine cfg 0.6
    /\
    (forall printed e,
        outcome (recognize_images w images printed_text_engine cfg 0.6)
          = inr printed ->
        outcome (htr_pass w images cfg htr_engine) = inl e ->
        outcome (maybe_enable_htr w images true printed_text_engine
                   htr_engine cfg) = inr printed)
    /\
    (forall printed htr,
        outcome (recognize_images w images printed_text_engine cfg 0.6)
          = inr printed ->
        outcome (htr_pass w images cfg htr_engine) = inr htr ->
        exists printed_name printed_conf r c,
          IngestResult.engine printed = Some printed_name /\
          IngestResult.ocr_confidence printed = Some printed_conf /\
          outcome (maybe_enable_htr w images true printed_text_engine
                     htr_engine cfg) = inr r /\
          IngestResult.used_ocr r = true /\
          IngestResult.text r =
            IngestResult.text printed ++ [10%N] ++ RecognizeResult.text htr /\
          IngestResult.engine r =
            Some (printed_name ++ lit "+" ++ RecognizeResult.engine htr) /\
          IngestResult.ocr_confidence r = Some c /\
          (confidence_in_range printed_conf ->
           confidence_in_range (RecognizeResult.mean_confidence htr) ->
           fle printed_conf c /\
           fle (RecognizeResult.mean_confidence htr) c /\
           ((c =? printed_conf)%float = true \/
            c = RecognizeResult.mean_confidence htr))).
Proof.
  intros w images pe he cfg. split; [reflexivity|]. split.
  - intros printed e Hp Hh. unfold maybe_enable_htr; cbn [negb].
    rewrite (bind_inr _ _ printed Hp); cbn [outcome snd].
    rewrite (try_except_inl _ _ e)
      by (rewrite (bind_inl _ _ e Hh); reflexivity).
    reflexivity.
  - intros printed htr Hp Hh.
    destruct (recognize_images_result _ _ _ _ _ _ Hp)
      as (Hu & Hne & name & res & _ & _ & Hc).
    destruct (IngestResult.engine printed) as [pn|] eqn:Hn; [|contradiction].
    set (pc := RecognizeResult.mean_confidence res) in *.
    exists pn, pc, (combine printed htr),
           (py_max (or_zero (Some pc)) (RecognizeResult.mean_confidence htr)).
    split; [reflexivity|]. split; [exact Hc|]. split.
    { unfold maybe_enable_htr; cbn [negb].
      rewrite (bind_inr _ _ printed Hp); cbn [outcome snd].
      rewrite (try_except_inr _ _ (combine printed htr))
        by (rewrite (bind_inr _ _ htr Hh); reflexivity).
      reflexivity. }
    unfold combine; cbn. rewrite Hn, Hc. cbn.
    repeat split; try reflexivity;
      destruct H as [H _]; destruct H0 as [H0 _];
      apply fle_right_refl in H; apply fle_right_refl in H0;
      apply (py_max_or_zero_spec pc _ H H0).
Qed.

Lemma dual_pass_combination_witness :
  outcome (maybe_enable_htr world_dual_failing one_page true (lit "paddle")
             (lit "trocr") None) =
    inr (IngestResult.mk None true (Some (lit "paddle")) (Some 0.5%float)
           (lit "P") []).
Proof.
  apply (proj1 (proj2
           (dual_pass_combination world_dual_failing one_page (lit "paddle")
              (lit "trocr") None))
           (IngestResult.mk None true (Some (lit "paddle")) (Some 0.5%float)
              (lit "P") [])
           (Exn OtherError (lit "inference failed"))).
  - vm_compute; reflexivity.
  - vm_compute; reflexivity.
Defined.

(** The example of the specification: "P" at 0.5 and "H" at 0.8 combine
    into "P\nH" at 0.8 under the joined engine name. *)
Example dual_pass_example :
  outcome (maybe_enable_htr world_dual one_page true (lit "paddle")
             (lit "trocr") None) =
    inr (IngestResult.mk None true (Some (lit "paddle+trocr")) (Some 0.8%float)
           [80; 10; 72]%N
           [(lit "printed", PyDict []); (lit "htr", PyDict [])]).
Proof. vm_compute; reflexivity. Qed.

(* ------------------------------------------------------------------ *)
(** ** C10: what the resolution and the page range can influence *)

(** C10, as stated, fails in two ways.  The explicit engine is PDF-capable
    and clears the threshold, yet (1) a fallback order that lists an
    image-only engine before it lets that engine answer first, from the
    rasterized pages, so two calls that differ only in [dpi] return
    different texts; and (2) the pages are rasterized before any engine is
    tried, so a [dpi] the rasterizer refuses fails a call that another [dpi]
    lets return. *)
Lemma pdf_engine_independence_counterexample :
  (exists a res,
      outcome (build_adapter world_pdf (lit "paddle")) = inr a /\
      supports_pdf a = true /\
      recognize_pdf_method a (lit "scan.pdf") (Some []) = inr res /\
      fle 0.6 (RecognizeResult.mean_confidence res))
  /\
  outcome (recognize_pdf world_pdf (lit "scan.pdf") (lit "paddle") false None
             300 None None 0.6 (Some [lit "tesseract"; lit "paddle"])) =
    inr (IngestResult.mk (Some (lit "scan.pdf")) true (Some (lit "tesseract"))
           (Some 0.9%float) [2400%N] [])
  /\
  outcome (recognize_pdf world_pdf (lit "scan.pdf") (lit "paddle") false None
             150 None None 0.6 (Some [lit "tesseract"; lit "paddle"])) =
    inr (IngestResult.mk (Some (lit "scan.pdf")) true (Some (lit "tesseract"))
           (Some 0.9%float) [1200%N] [])
  /\
  outcome (recognize_pdf world_pdf (lit "scan.pdf") (lit "paddle") false None
             300 None None 0.6 None) =
    inr (IngestResult.mk (Some (lit "scan.pdf")) true (Some (lit "paddle"))
           (Some 0.9%float) (lit "T") [])
  /\
  outcome (recognize_pdf world_pdf (lit "scan.pdf") (lit "paddle") false None
             0 None None 0.6 None) =
    inl (Exn OtherError (lit "Unable to get page count.")).
Proof.
  split.
  { eexists; eexists; repeat split; vm_compute; reflexivity. }
  repeat split; vm_compute; reflexivity.
Qed.

(** The chosen engine is the first of the order when the fallback order is
    absent or empty, starts with the engine, or does not contain it. *)
Lemma order_for_pdf_head engine fo :
  (forall n l, fo = Some (n :: l) -> n = engine \/ ~ In engine (n :: l)) ->
  exists rest, order_for_pdf engine fo = engine :: rest.
Proof.
  intros H. unfold order_for_pdf. rewrite append_defaults_eq.
  unfold with_engine, initial_order.
  destruct fo as [[|n l]|].
  - cbn [str_in existsb]; rewrite str_eqb_refl; cbn; eexists; reflexivity.
  - destruct (H n l eq_refl) as [->|Hn].
    + cbn [str_in existsb]; rewrite str_eqb_refl; cbn; eexists; reflexivity.
    + apply str_in_false in Hn; rewrite Hn; cbn; eexists; reflexivity.
  - cbn [str_in existsb]; rewrite str_eqb_refl; cbn; eexists; reflexivity.
Qed.

(** The attempt of a PDF-capable engine does not look at the images. *)
Lemma attempt_pdf_capable w path images cfg engine a :
  outcome (build_adapter w engine) = inr a ->
  supports_pdf a = true ->
  attempt_pdf w path images cfg engine =
    (calls (ensure_for_engine w engine) ++ calls (build_adapter w engine)
       ++ [CallRecognizePdf (name a) path (Some cfg)],
     recognize_pdf_method a path (Some cfg)).
Proof.
  intros Hb Hs. unfold attempt_pdf.
  rewrite (bind_inr _ _ tt (ensure_for_engine_outcome w engine)).
  rewrite (bind_inr _ _ a Hb), Hs. reflexivity.
Qed.

(** C10, amended.  Take an explicit engine that is the first of the executed
    order (no fallback order, or one that starts with the engine or does not
    contain it), whose adapter is PDF-capable and whose recognition of the
    path clears the threshold.  Then every call that returns, whatever its
    [dpi], [first_page] and [last_page], returns the same result: the
    vector-text result when the gate lets the embedded text through, and
    otherwise the result the adapter gave for the path and the configuration
    alone.  Any two calls that differ only in these three arguments and both
    return therefore agree on text and confidence.  (The pages are still
    rasterized first with the requested arguments, and a failure of the
    rasterizer fails the call.) *)
Theorem pdf_engine_independence :
  forall (w : World) (path engine : str) (prefer_ocr : bool)
         (cfg : option dict) (thr : float) (fo : option (list str))
         (a : RecognizerAdapter) (res : RecognizeResult.t)
         (dpi1 : Z) (fp1 lp1 : option Z) (dpi2 : Z) (fp2 lp2 : option Z)
         (r1 r2 : IngestResult.t),
    engine <> lit "auto" ->
    (forall n l, fo = Some (n :: l) -> n = engine \/ ~ In engine (n :: l)) ->
    outcome (build_adapter w engine) = inr a ->
    supports_pdf a = true ->
    recognize_pdf_method a path (Some (or_empty cfg)) = inr res ->
    fle thr (RecognizeResult.mean_confidence res) ->
    outcome (recognize_pdf w path engine prefer_ocr cfg dpi1 fp1 lp1 thr fo)
      = inr r1 ->
    outcome (recognize_pdf w path engine prefer_ocr cfg dpi2 fp2 lp2 thr fo)
      = inr r2 ->
    r1 = r2 /\
    (IngestResult.used_ocr r1 = true ->
     r1 = IngestResult.mk (Some path) true (Some engine)
            (Some (RecognizeResult.mean_confidence res))
            (RecognizeResult.text res) (RecognizeResult.meta res)).
Proof.
  intros w path engine prefer_ocr cfg thr fo a res dpi1 fp1 lp1 dpi2 fp2 lp2
         r1 r2 Hauto Hfirst Hb Hs Hrec Hthr H1 H2.
  assert (Hocr : forall dpi fp lp images r,
             outcome (_load_images_from_pdf w path dpi fp lp) = inr images ->
             outcome (recognize_pdf_by_ocr w path engine (or_empty cfg)
                        dpi fp lp thr fo) = inr r ->
             r = accepted (Some path) engine res).
  { intros dpi fp lp images r Hi Hr.
    rewrite (recognize_pdf_by_ocr_steps _ _ _ _ _ _ _ _ _ images engine Hi) in Hr
      by (rewrite choose_engine_explicit by exact Hauto; reflexivity).
    destruct (order_for_pdf_head engine fo Hfirst) as [rest Ho].
    rewrite Ho in Hr. unfold run_fallback_pdf in Hr.
    rewrite (run_early_exit _ _ _ _ [] engine rest res None) in Hr.
    - cbn in Hr; congruence.
    - constructor.
    - rewrite (attempt_pdf_capable _ _ _ _ _ a Hb Hs); exact Hrec.
    - exact Hthr. }
  assert (Hall : forall dpi fp lp r,
             outcome (recognize_pdf w path engine prefer_ocr cfg dpi fp lp thr fo)
               = inr r ->
             r = match outcome (extract_vector_text w path prefer_ocr) with
                 | inr vt =>
                     if truthy vt && is_sufficient_vector_text vt 64
                     then vector_result path vt
                     else accepted (Some path) engine res
                 | inl _ => r
                 end).
  { intros dpi fp lp r Hr.
    destruct (extract_vector_text_returns w path prefer_ocr) as [vt Hv].
    rewrite Hv.
    destruct (truthy vt && is_sufficient_vector_text vt 64) eqn:G.
    - rewrite (recognize_pdf_gate_open _ _ _ _ _ _ _ _ _ _ vt Hv G) in Hr.
      cbn in Hr; congruence.
    - rewrite (recognize_pdf_gate_closed _ _ _ _ _ _ _ _ _ _ vt Hv G) in Hr.
      cbn [outcome snd] in Hr.
      destruct (outcome (_load_images_from_pdf w path dpi fp lp))
        as [e|images] eqn:Hi.
      + unfold recognize_pdf_by_ocr in Hr.
        rewrite (bind_inl _ _ e Hi) in Hr. discriminate.
      + exact (Hocr dpi fp lp images r Hi Hr). }
  pose proof (Hall _ _ _ _ H1) as E1. pose proof (Hall _ _ _ _ H2) as E2.
  destruct (extract_vector_text_returns w path prefer_ocr) as [vt Hv].
  rewrite Hv in E1, E2.
  split; [congruence|].
  intros Hu. rewrite E1 in Hu |- *.
  destruct (truthy vt && is_sufficient_vector_text vt 64);
    [cbn in Hu; discriminate|reflexivity].
Qed.

Lemma pdf_engine_independence_witness :
  exists r1 r2,
    outcome (recognize_pdf world_pdf (lit "scan.pdf") (lit "paddle") false
               None 300 None None 0.6 None) = inr r1 /\
    outcome (recognize_pdf world_pdf (lit "scan.pdf") (lit "paddle") false
               None 150 (Some 1) (Some 2) 0.6 None) = inr r2 /\
    r1 = r2 /\
    (IngestResult.used_ocr r1 = true ->
     r1 = IngestResult.mk (Some (lit "scan.pdf")) true (Some (lit "paddle"))
            (Some 0.9%float) (lit "T") []).
Proof.
  eexists. eexists.
  split; [vm_compute; reflexivity|].
  split; [vm_compute; reflexivity|].
  apply (pdf_engine_independence world_pdf (lit "scan.pdf") (lit "paddle")
           false None 0.6 None (pdf_stub (lit "paddle") 0.9 (lit "T"))
           (RecognizeResult.mk (lit "T") 0.9 (lit "paddle") [])
           300 None None 150 (Some 1) (Some 2)).
  - discriminate.
  - discriminate.
  - reflexivity.
  - reflexivity.
  - reflexivity.
  - reflexivity.
  - vm_compute; reflexivity.
  - vm_compute; reflexivity.
Defined.

(* ------------------------------------------------------------------ *)
(** ** C9: no overall timeout *)

(** C9, as stated, fails: no entry point has a timeout parameter (see their
    signatures), and the loop goes on after any deadline.  With recognitions
    that take ten units each and a deadline of five, the second and the third
    engine are still constructed after the deadline has passed, the result is
    that of the second engine rather than the one at hand on expiry, and when
    no engine is available the failure is the loop's [RuntimeError], not a
    timeout. *)
Lemma overall_timeout_counterexample :
  calls (recognize_images world_low one_page (lit "paddle") None 0.6) =
    [Create paddle; CallRecognizeImages (lit "paddle") one_page (Some []);
     Create easyocr; CallRecognizeImages (lit "easyocr") one_page (Some []);
     Create tesseract]
  /\
  elapsed slow_recognition
    [Create paddle; CallRecognizeImages (lit "paddle") one_page (Some [])] = 10
  /\
  ~ respects_timeout slow_recognition 5
      (calls (recognize_images world_low one_page (lit "paddle") None 0.6))
  /\
  outcome (recognize_images world_low one_page (lit "paddle") None 0.6) =
    inr (IngestResult.mk None true (Some (lit "easyocr")) (Some 0.3%float)
           (lit "Y") [])
  /\
  outcome (recognize_images world_none one_page (lit "paddle") None 0.6) =
    inl (Exn RuntimeError no_engine_images).
Proof.
  split; [vm_compute; reflexivity|].
  split; [reflexivity|].
  split; [|split; vm_compute; reflexivity].
  intros H.
  specialize (H [Create paddle;
                 CallRecognizeImages (lit "paddle") one_page (Some [])]
                (Create easyocr)
                [CallRecognizeImages (lit "easyocr") one_page (Some []);
                 Create tesseract]).
  cbv in H. specialize (H eq_refl eq_refl). discriminate H.
Qed.

Lemma run_regardless_of_time attempt input_path no_engine thr cost order :
  runs_regardless_of_time attempt input_path no_engine thr cost order.
Proof.
  unfold runs_regardless_of_time.
  destruct (accepted_or_exhausted attempt thr order)
    as [(pre & name & post & res & -> & Hp & Hr & Hc)|Hex].
  - left. exists pre, name, post, res.
    rewrite (run_early_exit _ input_path no_engine _ _ _ post _ None Hp Hr Hc).
    repeat split; auto.
  - right. rewrite (run_exhausted _ input_path no_engine _ _ None Hex).
    repeat split; auto.
Qed.

(** C9, amended.  The entry points take no timeout and the fallback loop
    consults no clock.  Whatever the calls cost, the loop attempts the engines
    in order until one clears the threshold or the order is exhausted, and
    returns the accepted or the last result: no candidate is abandoned for
    the time spent.  The only failure of the loop is the [RuntimeError] raised
    when no engine returned a result, and the entry points fail with it, with
    the exception of the rasterizer or with that of the pilot crop: the
    pipeline has no timeout failure of its own. *)
Theorem no_overall_timeout :
  forall (w : World) (path : str) (images : list Image) (ocr_cfg : dict)
         (thr : float) (order : list str) (cost : event -> Z),
    runs_regardless_of_time (attempt_images w images ocr_cfg) None
      no_engine_images thr cost order
    /\
    runs_regardless_of_time (attempt_pdf w path images ocr_cfg) (Some path)
      no_engine_pdf thr cost order
    /\
    (forall e,
        outcome (run_fallback_images w images ocr_cfg thr order) = inl e ->
        e = Exn RuntimeError no_engine_images)
    /\
    (forall e,
        outcome (run_fallback_pdf w path images ocr_cfg thr order) = inl e ->
        e = Exn RuntimeError no_engine_pdf)
    /\
    (forall engine cfg e,
        outcome (recognize_images w images engine cfg thr) = inl e ->
        e = Exn RuntimeError no_engine_images \/
        (engine = lit "auto" /\ _pilot_crop w images 512 = inl e))
    /\
    (forall engine prefer_ocr cfg dpi fp lp fo e,
        outcome (recognize_pdf w path engine prefer_ocr cfg dpi fp lp thr fo)
          = inl e ->
        e = Exn RuntimeError no_engine_pdf \/
        outcome (_load_images_from_pdf w path dpi fp lp) = inl e \/
        (exists rasterized,
            outcome (_load_images_from_pdf w path dpi fp lp) = inr rasterized /\
            engine = lit "auto" /\ _pilot_crop w rasterized 512 = inl e)).
Proof.
  intros w path images ocr_cfg thr order cost.
  split; [apply run_regardless_of_time|].
  split; [apply run_regardless_of_time|].
  split; [|split; [|split]].
  - intros e H. unfold run_fallback_images in H.
    apply (run_failure_cases _ _ _ _ _ _ H).
  - intros e H. unfold run_fallback_pdf in H.
    apply (run_failure_cases _ _ _ _ _ _ H).
  - intros engine cfg e H.
    destruct (recognize_images_fails _ _ _ _ _ _ H) as [Hc|[-> _]];
      [right; exact Hc|left; reflexivity].
  - intros engine prefer_ocr cfg dpi fp lp fo e H.
    destruct (recognize_pdf_fails _ _ _ _ _ _ _ _ _ _ _ H)
      as [Hl|[(rasterized & Hi & Ha & Hc)|[-> _]]].
    + right; left; exact Hl.
    + right; right. exists rasterized; auto.
    + left; reflexivity.
Qed.

Lemma no_overall_timeout_witness :
  runs_regardless_of_time (attempt_images world_low one_page []) None
    no_engine_images 0.6 slow_recognition
    [lit "paddle"; lit "easyocr"; lit "tesseract"].
Proof.
  exact (proj1 (no_overall_timeout world_low [] one_page [] 0.6
                  [lit "paddle"; lit "easyocr"; lit "tesseract"]
                  slow_recognition)).
Defined.

(* ------------------------------------------------------------------ *)
(** ** Further properties of the pipeline *)

(** ** The pilot *)

Lemma _pilot_crop_cases w images max_side pi :
  _pilot_crop w images max_side = inr pi ->
  (images = [] /\ pi = [])
  \/
  (exists im rest,
      images = im :: rest /\
      pi = [crop im (0, 0, Z.min (fst (size im)) max_side,
                           Z.min (snd (size im)) max_side)]).
Proof.
  destruct images as [|im rest]; intros H.
  - left. cbn in H. inversion H. split; reflexivity.
  - right; exists im, rest; split; [reflexivity|].
    unfold _pilot_crop, im_size, im_crop in H. cbn [firstn for_each rbind] in H.
    destruct (size_raises w im); [discriminate H|]. cbn [rbind] in H.
    destruct (size im) as [wd ht]. cbn [fst snd].
    destruct (crop_raises w im _); [discriminate H|]. cbn in H.
    inversion H; reflexivity.
Qed.

Lemma _pilot_crop_sized w images max_side pi :
  _pilot_crop w images max_side = inr pi ->
  (List.length pi <= 1)%nat /\
  Forall (fun im => fst (size im) <= max_side /\ snd (size im) <= max_side) pi.
Proof.
  intros H.
  destruct (_pilot_crop_cases w images max_side pi H)
    as [[_ ->]|(im & rest & _ & ->)].
  - split; [cbn; lia|constructor].
  - split; [cbn; lia|]. repeat constructor; cbn; lia.
Qed.

Lemma pilot_calls_sized w images pi cfg n :
  _pilot_crop w images 512 = inr pi ->
  Forall (pilot_sized 512) (calls (pilot w pi cfg n)).
Proof.
  intros H. unfold pilot. apply Forall_calls_bind.
  - unfold build_adapter. destruct (registry (lower n)).
    + apply Forall_calls_call; exact I.
    + constructor.
  - intros a. apply Forall_calls_call. cbn.
    apply (_pilot_crop_sized w images 512 pi H).
Qed.

(** X1. The pilot is bounded in cost: whatever the images, the candidates
    and the engines, every call [auto_select_engine] makes is an engine
    construction or a recognition of at most one image, cropped to at most
    512 by 512; it never recognizes a PDF, never rasterizes, never installs a
    package and never sees a whole page larger than the crop. *)
Theorem auto_select_engine_pilot_bounded :
  forall (w : World) (images : list Image) (candidates : list str)
         (cfg : option dict),
    Forall (pilot_sized 512)
           (calls (auto_select_engine w images candidates cfg)).
Proof.
  intros w images candidates cfg.
  rewrite auto_select_engine_calls.
  destruct (_pilot_crop w images 512) as [e|pi] eqn:Hpi; [constructor|].
  induction candidates as [|n rest IH]; [constructor|].
  cbn [flat_map]. apply Forall_app; split; [|exact IH].
  apply (pilot_calls_sized w images pi cfg n Hpi).
Qed.

(* ------------------------------------------------------------------ *)
(** ** The registry and the package table *)

Lemma registry_Some e m : registry e = Some m -> e = module_name m.
Proof.
  unfold registry.
  repeat match goal with
         | |- context [str_eqb e ?k] =>
             let E := fresh "E" in
             destruct (str_eqb e k) eqn:E;
             [apply str_eqb_eq in E; intros H; inversion H; subst; reflexivity|]
         end.
  discriminate.
Qed.

Lemma registry_module_name m : registry (module_name m) = Some m.
Proof. destruct m; reflexivity. Qed.

Lemma lower_module_name m : lower (module_name m) = module_name m.
Proof. destruct m; reflexivity. Qed.

Lemma registry_None_packages e :
  registry e = None <-> dict_get _ENGINE_TO_PACKAGES e [] = [].
Proof.
  unfold registry, _ENGINE_TO_PACKAGES. cbn [dict_get].
  destruct (str_eqb e (lit "paddle")); [split; discriminate|].
  destruct (str_eqb e (lit "easyocr")) eqn:E1;
    destruct (str_eqb e (lit "tesseract")) eqn:E2;
    try (split; discriminate).
  destruct (str_eqb e (lit "doctr")); [split; discriminate|].
  destruct (str_eqb e (lit "trocr")); [split; discriminate|].
  destruct (str_eqb e (lit "donut")); [split; discriminate|].
  destruct (str_eqb e (lit "nougat")); [split; discriminate|].
  split; reflexivity.
Qed.

(** X2. [build_adapter] and the package table of [autodeps.py] agree on
    what an engine is.  A name is unknown to [build_adapter] (it raises
    [ValueError] and constructs nothing) exactly when the table has no
    packages for the lower-case form of the name; and whenever
    [ensure_for_engine] asks for an installation for a name, [build_adapter]
    constructs an engine for that name. *)
Theorem registry_matches_package_table :
  forall (w : World) (engine : str),
    (build_adapter w engine =
       ([], inl (Exn ValueError (lit "Unknown engine: " ++ engine)))
     <-> dict_get _ENGINE_TO_PACKAGES (lower engine) [] = [])
    /\
    (calls (ensure_for_engine w engine) <> [] ->
     exists m, calls (build_adapter w engine) = [Create m]).
Proof.
  intros w engine. split; [split|].
  - intros H. apply registry_None_packages.
    unfold build_adapter in H.
    destruct (registry (lower engine)) as [m|]; [discriminate H|reflexivity].
  - intros H. apply registry_None_packages in H.
    unfold build_adapter. rewrite H. reflexivity.
  - intros H. unfold ensure_for_engine in H.
    destruct (negb (auto_install w)); [contradiction H; reflexivity|].
    destruct (dict_get _ENGINE_TO_PACKAGES engine []) as [|p pkgs] eqn:D;
      [contradiction H; reflexivity|].
    destruct (registry engine) as [m|] eqn:R.
    + exists m. apply registry_Some in R. subst engine.
      unfold build_adapter.
      rewrite lower_module_name, registry_module_name. reflexivity.
    + apply registry_None_packages in R. congruence.
Qed.

(** X3. Package installation is keyed on the exact spelling of the engine
    name, construction on its lower-case form.  For a name the registry
    accepts: spelled in lower case and with auto-install on, exactly one
    installation of a non-empty package list is requested; spelled with any
    upper-case letter, nothing is installed, yet the engine is constructed
    all the same. *)
Theorem ensure_for_engine_is_case_sensitive :
  forall (w : World) (name : str) (m : EngineModule),
    registry (lower name) = Some m ->
    calls (build_adapter w name) = [Create m] /\
    (name = lower name -> auto_install w = true ->
     exists pkgs, pkgs <> [] /\
                  calls (ensure_for_engine w name) = [PipInstall pkgs]) /\
    (name <> lower name -> calls (ensure_for_engine w name) = []).
Proof.
  intros w name m H. split; [|split].
  - unfold build_adapter; rewrite H; reflexivity.
  - intros Hn Ha. rewrite <- Hn in H.
    unfold ensure_for_engine; rewrite Ha; cbn [negb].
    destruct (dict_get _ENGINE_TO_PACKAGES name []) as [|p pkgs] eqn:D.
    + apply registry_None_packages in D. congruence.
    + exists (p :: pkgs); split; [discriminate|reflexivity].
  - intros Hn. unfold ensure_for_engine.
    destruct (negb (auto_install w)); [reflexivity|].
    destruct (dict_get _ENGINE_TO_PACKAGES name []) as [|p pkgs] eqn:D;
      [reflexivity|].
    exfalso. apply Hn.
    destruct (registry name) as [m'|] eqn:R.
    + apply registry_Some in R. subst name. symmetry; apply lower_module_name.
    + apply registry_None_packages in R. congruence.
Qed.

Lemma ensure_for_engine_is_case_sensitive_witness :
  calls (build_adapter world_vector (lit "Paddle")) = [Create paddle] /\
  (lit "Paddle" = lower (lit "Paddle") -> auto_install world_vector = true ->
   exists pkgs, pkgs <> [] /\
     calls (ensure_for_engine world_vector (lit "Paddle")) = [PipInstall pkgs]) /\
  (lit "Paddle" <> lower (lit "Paddle") ->
   calls (ensure_for_engine world_vector (lit "Paddle")) = []).
Proof.
  apply (ensure_for_engine_is_case_sensitive world_vector (lit "Paddle") paddle).
  reflexivity.
Defined.

(* ------------------------------------------------------------------ *)
(** ** Unknown engine names *)

Lemma unknown_not_in_table name :
  registry (lower name) = None -> dict_get _ENGINE_TO_PACKAGES name [] = [].
Proof.
  intros H. apply registry_None_packages.
  destruct (registry name) as [m|] eqn:R; [|reflexivity].
  apply registry_Some in R. subst name.
  rewrite lower_module_name, registry_module_name in H. discriminate.
Qed.

Lemma unknown_ensure w name :
  registry (lower name) = None -> ensure_for_engine w name = ret tt.
Proof.
  intros H. unfold ensure_for_engine.
  destruct (negb (auto_install w)); [reflexivity|].
  rewrite (unknown_not_in_table name H); reflexivity.
Qed.

Lemma unknown_attempt_images w images cfg name :
  registry (lower name) = None ->
  attempt_images w images cfg name =
    ([], inl (Exn ValueError (lit "Unknown engine: " ++ name))).
Proof.
  intros H. unfold attempt_images, build_adapter.
  rewrite (unknown_ensure w name H), H. reflexivity.
Qed.

Lemma unknown_attempt_pdf w path images cfg name :
  registry (lower name) = None ->
  attempt_pdf w path images cfg name =
    ([], inl (Exn ValueError (lit "Unknown engine: " ++ name))).
Proof.
  intros H. unfold attempt_pdf, build_adapter.
  rewrite (unknown_ensure w name H), H. reflexivity.
Qed.

Lemma unknown_not_default name :
  registry (lower name) = None -> ~ In name default_candidates.
Proof.
  intros H Hin. unfold default_candidates in Hin.
  destruct Hin as [<-|[<-|[<-|[]]]]; discriminate H.
Qed.

Lemma missing_defaults_unknown name :
  registry (lower name) = None -> missing_defaults [name] = default_candidates.
Proof.
  intros H. unfold missing_defaults.
  rewrite <- (filter_ext_in (fun _ => true)).
  - induction default_candidates as [|d l IH]; [reflexivity|].
    cbn [filter]; rewrite IH; reflexivity.
  - intros d Hd. symmetry. apply negb_true_iff, str_in_false.
    intros [->|[]]. exact (unknown_not_default _ H Hd).
Qed.

Lemma bind_ext {A B} (m : M A) (f g : A -> M B) :
  (forall a, f a = g a) -> bind m f = bind m g.
Proof.
  intros H. destruct m as [l [e|a]]; cbn; [reflexivity|].
  rewrite H; reflexivity.
Qed.

Lemma run_skips_unknown attempt input_path no_engine thr name rest last msg :
  attempt name = ([], inl (Exn ValueError msg)) ->
  run_with_fallback attempt input_path no_engine thr (name :: rest) last =
  run_with_fallback attempt input_path no_engine thr rest last.
Proof.
  intros H.
  rewrite run_cons_rejected by (unfold rejected; rewrite H; exact I).
  unfold next_last; rewrite H; cbn [calls outcome fst snd app].
  symmetry; apply M_eta.
Qed.

(** X4. An engine name that is not in the registry is not reported: its
    turn in the loop raises [ValueError] (with the name as given) without
    constructing or installing anything, the exception is swallowed, and the
    call is in every respect (calls made, result or failure) the call with
    engine "paddle", that is, recognition over the three default engines.
    This holds for [recognize_images] and for [recognize_pdf] without a
    fallback order. *)
Theorem unknown_engine_is_ignored :
  forall (w : World) (engine : str),
    registry (lower engine) = None ->
    engine <> lit "auto" ->
    (forall images cfg,
        attempt_images w images cfg engine =
          ([], inl (Exn ValueError (lit "Unknown engine: " ++ engine)))) /\
    (forall images cfg thr,
        recognize_images w images engine cfg thr =
        recognize_images w images (lit "paddle") cfg thr) /\
    (forall path prefer_ocr cfg dpi fp lp thr,
        recognize_pdf w path engine prefer_ocr cfg dpi fp lp thr None =
        recognize_pdf w path (lit "paddle") prefer_ocr cfg dpi fp lp thr None).
Proof.
  intros w engine Hreg Hauto.
  assert (Hoi : order_for_images engine = engine :: default_candidates).
  { unfold order_for_images. rewrite append_defaults_eq.
    rewrite (missing_defaults_unknown _ Hreg). reflexivity. }
  assert (Hop : order_for_pdf engine None = engine :: default_candidates).
  { unfold order_for_pdf, initial_order, with_engine.
    cbn [str_in existsb]. rewrite str_eqb_refl. cbn [orb negb].
    rewrite append_defaults_eq, (missing_defaults_unknown _ Hreg). reflexivity. }
  split; [intros; apply unknown_attempt_images; exact Hreg|].
  split.
  - intros images cfg thr. unfold recognize_images.
    rewrite (choose_engine_explicit w images engine _ Hauto).
    rewrite (choose_engine_explicit w images (lit "paddle")) by discriminate.
    cbn [bind ret]. rewrite Hoi.
    change (order_for_images (lit "paddle")) with default_candidates.
    unfold run_fallback_images.
    rewrite (run_skips_unknown _ _ _ _ _ _ _ _
               (unknown_attempt_images w images (or_empty cfg) engine Hreg)).
    reflexivity.
  - intros path prefer_ocr cfg dpi fp lp thr.
    unfold recognize_pdf, recognize_pdf_by_ocr.
    assert (Hrun : forall images,
      (chosen <- choose_engine w images engine (or_empty cfg) ;;
       run_fallback_pdf w path images (or_empty cfg) thr
         (order_for_pdf chosen None)) =
      (chosen <- choose_engine w images (lit "paddle") (or_empty cfg) ;;
       run_fallback_pdf w path images (or_empty cfg) thr
         (order_for_pdf chosen None))).
    { intros images.
      rewrite (choose_engine_explicit w images engine _ Hauto).
      rewrite (choose_engine_explicit w images (lit "paddle")) by discriminate.
      cbn [bind ret]. rewrite Hop.
      change (order_for_pdf (lit "paddle") None) with default_candidates.
      unfold run_fallback_pdf.
      rewrite (run_skips_unknown _ _ _ _ _ _ _ _
                 (unknown_attempt_pdf w path images (or_empty cfg) engine Hreg)).
      reflexivity. }
    apply bind_ext; intros _. apply bind_ext; intros vt.
    destruct (truthy vt && is_sufficient_vector_text vt 64); [reflexivity|].
    apply bind_ext; intros images. apply Hrun.
Qed.

Lemma unknown_engine_is_ignored_witness :
  recognize_images world_xyz one_page (lit "padle") None 0.6 =
  recognize_images world_xyz one_page (lit "paddle") None 0.6.
Proof.
  refine (proj1 (proj2 (unknown_engine_is_ignored world_xyz (lit "padle")
                          eq_refl _)) one_page None 0.6%float).
  discriminate.
Defined.

(* ------------------------------------------------------------------ *)
(** ** Who is in the executed order *)

Lemma In_append_defaults x order :
  In x (append_defaults order) <-> In x order \/ In x default_candidates.
Proof.
  rewrite append_defaults_eq, in_app_iff. unfold missing_defaults.
  rewrite filter_In, negb_true_iff, str_in_false. split.
  - tauto.
  - intros [H|H]; [left; exact H|].
    destruct (str_in x order) eqn:E.
    + left; apply str_in_In; exact E.
    + right; split; [exact H|apply str_in_false; exact E].
Qed.

Lemma In_with_engine x engine order :
  In x (with_engine engine order) <-> x = engine \/ In x order.
Proof.
  unfold with_engine. destruct (str_in engine order) eqn:E; cbn [negb].
  - apply str_in_In in E. split; [tauto|intros [->|H]; assumption].
  - cbn [In]. split; intros [H|H]; auto.
Qed.

Lemma In_order_for_pdf engine fo x :
  In x (order_for_pdf engine fo) <->
  x = engine \/
  match fo with Some l => In x l | None => False end \/
  In x default_candidates.
Proof.
  unfold order_for_pdf. rewrite In_append_defaults, In_with_engine.
  unfold initial_order. destruct fo as [[|n l]|]; cbn [In];
    intuition congruence.
Qed.

Lemma In_order_for_images engine x :
  In x (order_for_images engine) <-> x = engine \/ In x default_candidates.
Proof.
  unfold order_for_images. rewrite In_append_defaults. cbn [In].
  intuition congruence.
Qed.

(** X5. The engines [recognize_pdf] may run are the chosen engine, the
    engines of the caller's fallback order and the three defaults, and all
    of these: a caller cannot keep paddle, easyocr or tesseract out of the
    order by naming other engines, and nothing else is ever added.  For
    [recognize_images] they are the chosen engine and the three defaults. *)
Theorem executed_order_members :
  forall (engine : str) (fallback_order : option (list str)) (x : str),
    (In x (order_for_pdf engine fallback_order) <->
     x = engine \/
     match fallback_order with Some l => In x l | None => False end \/
     In x default_candidates)
    /\
    (In x (order_for_images engine) <->
     x = engine \/ In x default_candidates).
Proof.
  intros engine fo x. split;
    [apply In_order_for_pdf|apply In_order_for_images].
Qed.

(* ------------------------------------------------------------------ *)
(** ** Automatic selection and explicit choice *)

(** X6. With auto-install off (no installation then separates the pilots
    from the loop), asking for engine "auto" is asking for the engine the
    pilot picks: whenever auto-selection returns a pick, the pick is one of
    paddle, easyocr, tesseract, the order executed is these three with the
    pick first, and the outcome of [recognize_images] with "auto" is the
    outcome of [recognize_images] with the pick named explicitly. *)
Theorem auto_is_explicit_choice :
  forall (w : World) (images : list Image) (cfg : option dict) (thr : float)
         (chosen : str),
    auto_install w = false ->
    outcome (auto_select_engine w images default_candidates
               (Some (or_empty cfg))) = inr chosen ->
    In chosen default_candidates /\
    List.length (order_for_images chosen) = 3%nat /\
    hd_error (order_for_images chosen) = Some chosen /\
    (forall x, In x (order_for_images chosen) <-> In x default_candidates) /\
    outcome (recognize_images w images (lit "auto") cfg thr) =
    outcome (recognize_images w images chosen cfg thr).
Proof.
  intros w images cfg thr chosen _ Hc.
  pose proof (auto_select_engine_In _ _ _ _ _ Hc) as Hin.
  split; [exact Hin|].
  assert (Hne : chosen <> lit "auto").
  { intros ->. unfold default_candidates in Hin.
    destruct Hin as [H|[H|[H|[]]]]; discriminate H. }
  unfold default_candidates in Hin.
  split; [destruct Hin as [<-|[<-|[<-|[]]]]; reflexivity|].
  split; [destruct Hin as [<-|[<-|[<-|[]]]]; reflexivity|].
  split.
  { intros x. rewrite (In_order_for_images chosen x).
    split; [|tauto]. intros [->|H]; [|exact H].
    unfold default_candidates. exact Hin. }
  rewrite (recognize_images_steps w images (lit "auto") cfg thr chosen)
    by exact Hc.
  rewrite (recognize_images_steps w images chosen cfg thr chosen)
    by (rewrite choose_engine_explicit by exact Hne; reflexivity).
  reflexivity.
Qed.

Lemma auto_is_explicit_choice_witness :
  In (lit "tesseract") default_candidates /\
  List.length (order_for_images (lit "tesseract")) = 3%nat /\
  hd_error (order_for_images (lit "tesseract")) = Some (lit "tesseract") /\
  (forall x, In x (order_for_images (lit "tesseract")) <->
             In x default_candidates) /\
  outcome (recognize_images world_xyz one_page (lit "auto") None 0.6) =
  outcome (recognize_images world_xyz one_page (lit "tesseract") None 0.6).
Proof.
  apply (auto_is_explicit_choice world_xyz one_page None 0.6%float
           (lit "tesseract")).
  - reflexivity.
  - vm_compute; reflexivity.
Defined.

(* ------------------------------------------------------------------ *)
(** ** What the returned confidence tells *)

(** The last result of a run is that of an engine after which every engine
    raised. *)
Lemma last_result_split attempt : forall order last,
  fold_left (next_last attempt) order None = Some last ->
  exists pre name post,
    order = pre ++ name :: post /\
    outcome (attempt name) = inr last /\
    forall n, In n post -> exists e, outcome (attempt n) = inl e.
Proof.
  induction order as [|n order IH] using rev_ind; intros last H;
    [discriminate H|].
  rewrite fold_left_app in H. cbn [fold_left] in H. unfold next_last in H at 1.
  destruct (outcome (attempt n)) as [e|res] eqn:Hn.
  - destruct (IH last H) as (pre & name & post & -> & Hr & Hpost).
    exists pre, name, (post ++ [n]).
    split; [rewrite <- app_assoc; reflexivity|]. split; [exact Hr|].
    intros m Hm. apply in_app_or in Hm. destruct Hm as [Hm|[<-|[]]].
    + apply Hpost; exact Hm.
    + exists e; exact Hn.
  - inversion H; subst last.
    exists order, n, []. split; [reflexivity|]. split; [exact Hn|].
    intros m [].
Qed.

Lemma run_loop_end attempt input_path no_engine thr order r c :
  outcome (run_with_fallback attempt input_path no_engine thr order None)
    = inr r ->
  IngestResult.ocr_confidence r = Some c ->
  loop_end attempt
    (fun o => run_with_fallback attempt input_path no_engine thr o None)
    thr order r c.
Proof.
  intros Hr Hc.
  destruct (accepted_or_exhausted attempt thr order)
    as [(pre & name & post & res & -> & Hp & Ha & Hthr)|Hex].
  - left.
    rewrite (run_early_exit _ input_path no_engine _ _ _ post _ None Hp Ha Hthr)
      in Hr |- *.
    cbn in Hr. inversion Hr; subst r. cbn in Hc. inversion Hc; subst c.
    split; [exact Hthr|]. exists pre, name, post, res. cbn. repeat split; auto.
  - right.
    rewrite (run_exhausted _ input_path no_engine _ _ None Hex) in Hr |- *.
    cbn [outcome snd calls fst] in Hr |- *.
    destruct (fold_left (next_last attempt) order None) as [last|] eqn:F;
      [|discriminate].
    inversion Hr; subst r. cbn in Hc. inversion Hc; subst c.
    destruct (last_result_split _ _ _ F) as (pre & name & post & Ho & Hn & Hpost).
    split; [|split; [exact Hex|split; [reflexivity|]]].
    + rewrite Forall_forall in Hex.
      assert (Hin : In name order) by (rewrite Ho; apply in_elt).
      specialize (Hex name Hin).
      unfold rejected in Hex. rewrite Hn in Hex. exact Hex.
    + exists pre, name, post, last. cbn. repeat split; auto.
Qed.

(** X7. The confidence of a returned result tells how the loop ended.  If
    it is at or above the threshold, the loop stopped at the engine named in
    the result, whose text and confidence the result carries, every engine
    before it was rejected and nothing after it was attempted.  If it is
    below the threshold, every engine of the order was attempted and none
    reached the threshold, and the result is the last one obtained: text,
    confidence and engine name are those an engine returned after which every
    engine raised.  This holds for the loop of [recognize_images] and the
    loop of [recognize_pdf]. *)
Theorem confidence_tells_how_the_loop_ended :
  forall (w : World) (path : str) (images : list Image) (ocr_cfg : dict)
         (thr : float) (order : list str) (r : IngestResult.t) (c : float),
    IngestResult.ocr_confidence r = Some c ->
    (outcome (run_fallback_images w images ocr_cfg thr order) = inr r ->
     loop_end (attempt_images w images ocr_cfg)
       (run_fallback_images w images ocr_cfg thr) thr order r c)
    /\
    (outcome (run_fallback_pdf w path images ocr_cfg thr order) = inr r ->
     loop_end (attempt_pdf w path images ocr_cfg)
       (run_fallback_pdf w path images ocr_cfg thr) thr order r c).
Proof.
  intros w path images ocr_cfg thr order r c Hc. split; intros Hr.
  - exact (run_loop_end _ None no_engine_images thr order r c Hr Hc).
  - exact (run_loop_end _ (Some path) no_engine_pdf thr order r c Hr Hc).
Qed.

Lemma confidence_tells_how_the_loop_ended_witness :
  loop_end (attempt_images world_low one_page [])
    (run_fallback_images world_low one_page [] 0.6) 0.6
    [lit "paddle"; lit "easyocr"; lit "tesseract"]
    (IngestResult.mk None true (Some (lit "easyocr")) (Some 0.3%float)
       (lit "Y") [])
    0.3.
Proof.
  apply (proj1 (confidence_tells_how_the_loop_ended world_low [] one_page []
                  0.6 [lit "paddle"; lit "easyocr"; lit "tesseract"]
                  (IngestResult.mk None true (Some (lit "easyocr"))
                     (Some 0.3%float) (lit "Y") [])
                  0.3 eq_refl)).
  vm_compute; reflexivity.
Defined.

(* ------------------------------------------------------------------ *)
(** ** Lowering the threshold *)

Lemma run_calls_prefix attempt input_path no_engine thr1 thr2 :
  fle thr1 thr2 ->
  forall order last1 last2,
    exists more,
      calls (run_with_fallback attempt input_path no_engine thr2 order last2) =
      calls (run_with_fallback attempt input_path no_engine thr1 order last1)
        ++ more.
Proof.
  intros Hle. induction order as [|n order IH]; intros last1 last2.
  - exists []. cbn. destruct last1, last2; reflexivity.
  - destruct (IH (next_last attempt last1 n) (next_last attempt last2 n))
      as [more Hm].
    destruct (outcome (attempt n)) as [e|res] eqn:Hn.
    + assert (R1 : rejected attempt thr1 n)
        by (unfold rejected; rewrite Hn; exact I).
      assert (R2 : rejected attempt thr2 n)
        by (unfold rejected; rewrite Hn; exact I).
      rewrite (run_cons_rejected _ _ _ _ _ _ last1 R1).
      rewrite (run_cons_rejected _ _ _ _ _ _ last2 R2).
      exists more. unfold calls in *. cbn [fst].
      rewrite Hm, app_assoc. reflexivity.
    + destruct (thr2 <=? RecognizeResult.mean_confidence res)%float eqn:C2.
      * assert (C1 : fle thr1 (RecognizeResult.mean_confidence res))
          by (eapply fle_trans; [exact Hle|exact C2]).
        rewrite (run_cons_accepted _ _ _ thr1 n order last1 res Hn C1).
        rewrite (run_cons_accepted _ _ _ thr2 n order last2 res Hn C2).
        exists []. unfold calls; cbn [fst]. rewrite app_nil_r. reflexivity.
      * assert (R2 : rejected attempt thr2 n)
          by (unfold rejected; rewrite Hn; exact C2).
        rewrite (run_cons_rejected _ _ _ _ _ _ last2 R2).
        destruct (thr1 <=? RecognizeResult.mean_confidence res)%float eqn:C1.
        -- rewrite (run_cons_accepted _ _ _ thr1 n order last1 res Hn C1).
           unfold calls; cbn [fst]. eexists. reflexivity.
        -- assert (R1 : rejected attempt thr1 n)
             by (unfold rejected; rewrite Hn; exact C1).
           rewrite (run_cons_rejected _ _ _ _ _ _ last1 R1).
           exists more. unfold calls in *. cbn [fst].
           rewrite Hm, app_assoc. reflexivity.
Qed.

(** X8. Lowering the threshold never costs more engine calls: for
    thresholds [thr1 <= thr2] and the same order, the calls made under
    [thr1] are an initial part of the calls made under [thr2], in the loop
    of [recognize_images] and in the loop of [recognize_pdf]. *)
Theorem lower_threshold_fewer_calls :
  forall (w : World) (path : str) (images : list Image) (ocr_cfg : dict)
         (thr1 thr2 : float) (order : list str),
    fle thr1 thr2 ->
    (exists more,
        calls (run_fallback_images w images ocr_cfg thr2 order) =
        calls (run_fallback_images w images ocr_cfg thr1 order) ++ more)
    /\
    (exists more,
        calls (run_fallback_pdf w path images ocr_cfg thr2 order) =
        calls (run_fallback_pdf w path images ocr_cfg thr1 order) ++ more).
Proof.
  intros w path images ocr_cfg thr1 thr2 order Hle. split.
  - apply (run_calls_prefix _ None no_engine_images thr1 thr2 Hle order None None).
  - apply (run_calls_prefix _ (Some path) no_engine_pdf thr1 thr2 Hle order None None).
Qed.

Lemma lower_threshold_fewer_calls_witness :
  (exists more,
      calls (run_fallback_images world_xyz one_page [] 0.95 default_candidates) =
      calls (run_fallback_images world_xyz one_page [] 0.6 default_candidates)
        ++ more)
  /\
  (exists more,
      calls (run_fallback_pdf world_xyz [] one_page [] 0.95 default_candidates) =
      calls (run_fallback_pdf world_xyz [] one_page [] 0.6 default_candidates)
        ++ more).
Proof.
  apply (lower_threshold_fewer_calls world_xyz [] one_page [] 0.6 0.95
           default_candidates).
  reflexivity.
Defined.

(* ------------------------------------------------------------------ *)
(** ** Rasterization comes first *)

Lemma no_engine_call_ensure_common w :
  Forall (fun ev => engine_call ev = false) (calls (ensure_common w)).
Proof.
  rewrite ensure_common_calls. destruct (auto_install w); repeat constructor.
Qed.

Lemma no_engine_call_extract w path prefer_ocr :
  Forall (fun ev => engine_call ev = false)
         (calls (extract_vector_text w path prefer_ocr)).
Proof.
  unfold extract_vector_text.
  destruct (negb prefer_ocr && _HAS_PDFMINER w); [|constructor].
  unfold call, try_except. destruct (pdfminer_extract_text w path);
    repeat constructor.
Qed.

Lemma no_engine_call_load w path dpi fp lp :
  Forall (fun ev => engine_call ev = false)
         (calls (_load_images_from_pdf w path dpi fp lp)).
Proof.
  unfold _load_images_from_pdf. destruct (negb (_HAS_PDF2IMAGE w));
    repeat constructor.
Qed.

(** X9. Rasterization comes before any engine and its failure is final.
    Without pdf2image the rasterizer raises [ImportError] without calling the
    converter.  Whenever the rasterizer raises, [recognize_pdf] constructs
    and invokes no engine at all, even a PDF-capable one that would have
    read the file itself: the call either returned the embedded text or
    fails with the rasterizer's exception. *)
Theorem rasterization_failure_is_final :
  forall (w : World) (path engine : str) (prefer_ocr : bool)
         (cfg : option dict) (dpi : Z) (fp lp : option Z) (thr : float)
         (fo : option (list str)) (e : exn),
    outcome (_load_images_from_pdf w path dpi fp lp) = inl e ->
    Forall (fun ev => engine_call ev = false)
           (calls (recognize_pdf w path engine prefer_ocr cfg dpi fp lp thr fo))
    /\
    (outcome (recognize_pdf w path engine prefer_ocr cfg dpi fp lp thr fo)
       = inl e
     \/
     exists vector_text,
       outcome (recognize_pdf w path engine prefer_ocr cfg dpi fp lp thr fo)
         = inr (vector_result path vector_text))
    /\
    (_HAS_PDF2IMAGE w = false ->
     exists msg,
       _load_images_from_pdf w path dpi fp lp = ([], inl (Exn ImportError msg))).
Proof.
  intros w path engine prefer_ocr cfg dpi fp lp thr fo e He.
  assert (Hocr : recognize_pdf_by_ocr w path engine (or_empty cfg) dpi fp lp thr fo
                 = (calls (_load_images_from_pdf w path dpi fp lp), inl e)).
  { unfold recognize_pdf_by_ocr. apply bind_inl. exact He. }
  destruct (extract_vector_text_returns w path prefer_ocr) as [vt Hv].
  split; [|split].
  - destruct (truthy vt && is_sufficient_vector_text vt 64) eqn:G.
    + rewrite (recognize_pdf_gate_open _ _ _ _ _ _ _ _ _ _ vt Hv G).
      cbn [calls fst]. apply Forall_app; split;
        [apply no_engine_call_ensure_common|apply no_engine_call_extract].
    + rewrite (recognize_pdf_gate_closed _ _ _ _ _ _ _ _ _ _ vt Hv G), Hocr.
      cbn [calls fst]. repeat (apply Forall_app; split);
        [apply no_engine_call_ensure_common|apply no_engine_call_extract|
         apply no_engine_call_load].
  - destruct (truthy vt && is_sufficient_vector_text vt 64) eqn:G.
    + right. exists vt.
      rewrite (recognize_pdf_gate_open _ _ _ _ _ _ _ _ _ _ vt Hv G). reflexivity.
    + left.
      rewrite (recognize_pdf_gate_closed _ _ _ _ _ _ _ _ _ _ vt Hv G), Hocr.
      reflexivity.
  - intros H. unfold _load_images_from_pdf. rewrite H. cbn [negb].
    eexists. reflexivity.
Qed.

Lemma rasterization_failure_is_final_witness :
  Forall (fun ev => engine_call ev = false)
         (calls (recognize_pdf world_pdf (lit "scan.pdf") (lit "paddle") false
                   None 0 None None 0.6 None))
  /\
  (outcome (recognize_pdf world_pdf (lit "scan.pdf") (lit "paddle") false
              None 0 None None 0.6 None)
     = inl (Exn OtherError (lit "Unable to get page count."))
   \/
   exists vector_text,
     outcome (recognize_pdf world_pdf (lit "scan.pdf") (lit "paddle") false
                None 0 None None 0.6 None)
       = inr (vector_result (lit "scan.pdf") vector_text))
  /\
  (_HAS_PDF2IMAGE world_pdf = false ->
   exists msg,
     _load_images_from_pdf world_pdf (lit "scan.pdf") 0 None None
       = ([], inl (Exn ImportError msg))).
Proof.
  apply (rasterization_failure_is_final world_pdf (lit "scan.pdf")
           (lit "paddle") false None 0 None None 0.6 None).
  reflexivity.
Defined.

(* ------------------------------------------------------------------ *)
(** ** What gets installed *)

Section Installs.

Variable w : World.
Variable allowed : list str -> Prop.

Lemma installs_ensure_common :
  (auto_install w = true -> allowed _COMMON) ->
  Forall (installs_only allowed) (calls (ensure_common w)).
Proof.
  intros H. rewrite ensure_common_calls.
  destruct (auto_install w); repeat constructor. apply H; reflexivity.
Qed.

Lemma installs_ensure_for_engine n :
  (auto_install w = true -> allowed (dict_get _ENGINE_TO_PACKAGES n [])) ->
  Forall (installs_only allowed) (calls (ensure_for_engine w n)).
Proof.
  intros H. unfold ensure_for_engine.
  destruct (auto_install w); cbn [negb]; [|constructor].
  specialize (H eq_refl).
  destruct (dict_get _ENGINE_TO_PACKAGES n []); repeat constructor. exact H.
Qed.

Lemma installs_build_adapter n :
  Forall (installs_only allowed) (calls (build_adapter w n)).
Proof.
  unfold build_adapter. destruct (registry (lower n)); repeat constructor.
Qed.

Lemma installs_pilot pi cfg n :
  Forall (installs_only allowed) (calls (pilot w pi cfg n)).
Proof.
  unfold pilot. apply Forall_calls_bind; [apply installs_build_adapter|].
  intros a. repeat constructor.
Qed.

Lemma installs_htr_pass images cfg n :
  Forall (installs_only allowed) (calls (htr_pass w images cfg n)).
Proof.
  unfold htr_pass. apply Forall_calls_bind; [apply installs_build_adapter|].
  intros a. repeat constructor.
Qed.

Lemma installs_auto_select images candidates cfg :
  Forall (installs_only allowed)
         (calls (auto_select_engine w images candidates cfg)).
Proof.
  rewrite auto_select_engine_calls.
  destruct (_pilot_crop _ images 512) as [?|pi]; [constructor|].
  induction candidates as [|n rest IH]; [constructor|].
  cbn [flat_map]. apply Forall_app; split; [apply installs_pilot|exact IH].
Qed.

Lemma installs_attempt_images images cfg n :
  (auto_install w = true -> allowed (dict_get _ENGINE_TO_PACKAGES n [])) ->
  Forall (installs_only allowed) (calls (attempt_images w images cfg n)).
Proof.
  intros H. unfold attempt_images.
  apply Forall_calls_bind; [apply installs_ensure_for_engine, H|intros _].
  apply Forall_calls_bind; [apply installs_build_adapter|intros a].
  repeat constructor.
Qed.

Lemma installs_attempt_pdf path images cfg n :
  (auto_install w = true -> allowed (dict_get _ENGINE_TO_PACKAGES n [])) ->
  Forall (installs_only allowed) (calls (attempt_pdf w path images cfg n)).
Proof.
  intros H. unfold attempt_pdf.
  apply Forall_calls_bind; [apply installs_ensure_for_engine, H|intros _].
  apply Forall_calls_bind; [apply installs_build_adapter|intros a].
  destruct (supports_pdf a); repeat constructor.
Qed.

Lemma Forall_calls_run_in (P : event -> Prop) attempt input_path no_engine thr :
  forall order last,
    (forall n, In n order -> Forall P (calls (attempt n))) ->
    Forall P (calls (run_with_fallback attempt input_path no_engine thr order last)).
Proof.
  induction order as [|n order IH]; intros last Ha.
  - cbn. destruct last; constructor.
  - cbn [run_with_fallback]. apply Forall_calls_bind.
    + apply Forall_calls_try; [|intros e; constructor].
      apply Forall_calls_bind; [apply Ha; left; reflexivity|intros res].
      destruct (thr <=? RecognizeResult.mean_confidence res)%float; constructor.
    + intros [r|l]; [constructor|apply IH].
      intros m Hm; apply Ha; right; exact Hm.
Qed.

(** The engines whose packages a call with engine name [engine] may
    install: the name itself and the three defaults. *)
Hypothesis allowed_common : auto_install w = true -> allowed _COMMON.

Lemma installs_recognize_images images engine cfg thr :
  (auto_install w = true ->
   forall n, n = engine \/ In n default_candidates ->
             allowed (dict_get _ENGINE_TO_PACKAGES n [])) ->
  Forall (installs_only allowed)
         (calls (recognize_images w images engine cfg thr)).
Proof.
  intros H. unfold recognize_images.
  apply Forall_calls_bind; [apply installs_ensure_common, allowed_common|intros _].
  destruct (choose_engine_cases w images engine (or_empty cfg))
    as [[chosen Hc]|(e & _ & _ & He)];
    [|rewrite He; cbn; constructor].
  rewrite (bind_inr _ _ chosen Hc). cbn [calls fst].
  assert (Hch : chosen = engine \/ In chosen default_candidates).
  { unfold choose_engine in Hc.
    destruct (str_eqb engine (lit "auto")).
    - right. eapply auto_select_engine_In; exact Hc.
    - left. cbn in Hc. congruence. }
  apply Forall_app; split.
  - unfold choose_engine. destruct (str_eqb engine (lit "auto"));
      [apply installs_auto_select|constructor].
  - unfold run_fallback_images. apply Forall_calls_run_in.
    intros n Hn. apply installs_attempt_images. intros Ha. apply (H Ha).
    apply (In_order_for_images chosen n) in Hn.
    destruct Hn as [->|Hn]; [exact Hch|right; exact Hn].
Qed.

Lemma installs_recognize_pdf path engine prefer_ocr cfg dpi fp lp thr fo :
  (auto_install w = true ->
   forall n, n = engine \/
             match fo with Some l => In n l | None => False end \/
             In n default_candidates ->
             allowed (dict_get _ENGINE_TO_PACKAGES n [])) ->
  Forall (installs_only allowed)
         (calls (recognize_pdf w path engine prefer_ocr cfg dpi fp lp thr fo)).
Proof.
  intros H. unfold recognize_pdf.
  apply Forall_calls_bind; [apply installs_ensure_common, allowed_common|intros _].
  apply Forall_calls_bind.
  { unfold extract_vector_text.
    destruct (negb prefer_ocr && _HAS_PDFMINER w); [|constructor].
    unfold call, try_except. destruct (pdfminer_extract_text w path);
      repeat constructor. }
  intros vt. destruct (truthy vt && is_sufficient_vector_text vt 64);
    [constructor|].
  unfold recognize_pdf_by_ocr. apply Forall_calls_bind.
  { unfold _load_images_from_pdf. destruct (negb (_HAS_PDF2IMAGE w));
      repeat constructor. }
  intros images.
  destruct (choose_engine_cases w images engine (or_empty cfg))
    as [[chosen Hc]|(e & _ & _ & He)];
    [|rewrite He; cbn; constructor].
  rewrite (bind_inr _ _ chosen Hc). cbn [calls fst].
  assert (Hch : chosen = engine \/ In chosen default_candidates).
  { unfold choose_engine in Hc.
    destruct (str_eqb engine (lit "auto")).
    - right. eapply auto_select_engine_In; exact Hc.
    - left. cbn in Hc. congruence. }
  apply Forall_app; split.
  - unfold choose_engine. destruct (str_eqb engine (lit "auto"));
      [apply installs_auto_select|constructor].
  - unfold run_fallback_pdf. apply Forall_calls_run_in.
    intros n Hn. apply installs_attempt_pdf. intros Ha. apply (H Ha).
    apply (In_order_for_pdf chosen fo n) in Hn.
    destruct Hn as [->|[Hn|Hn]]; [|right; left; exact Hn|right; right; exact Hn].
    destruct Hch as [->|Hch]; [left; reflexivity|right; right; exact Hch].
Qed.

End Installs.

Lemma installs_maybe_enable_htr w allowed images enable_htr printed htr cfg :
  (auto_install w = true -> allowed _COMMON) ->
  (auto_install w = true ->
   forall n, n = printed \/ In n default_candidates ->
             allowed (dict_get _ENGINE_TO_PACKAGES n [])) ->
  Forall (installs_only allowed)
         (calls (maybe_enable_htr w images enable_htr printed htr cfg)).
Proof.
  intros Hc H. unfold maybe_enable_htr.
  destruct enable_htr; cbn [negb].
  - apply Forall_calls_bind; [apply installs_recognize_images; assumption|].
    intros p. apply Forall_calls_try; [|intros; constructor].
    apply Forall_calls_bind; [apply installs_htr_pass|intros; constructor].
  - apply installs_recognize_images; assumption.
Qed.

(** X10. With auto-install switched off, no entry point asks for any
    package installation, whatever the arguments and the engines. *)
Theorem no_install_when_disabled :
  forall (w : World),
    auto_install w = false ->
    (forall path engine prefer_ocr cfg dpi fp lp thr fo pkgs,
        ~ In (PipInstall pkgs)
             (calls (recognize_pdf w path engine prefer_ocr cfg dpi fp lp thr fo)))
    /\
    (forall images engine cfg thr pkgs,
        ~ In (PipInstall pkgs) (calls (recognize_images w images engine cfg thr)))
    /\
    (forall images enable_htr printed htr cfg pkgs,
        ~ In (PipInstall pkgs)
             (calls (maybe_enable_htr w images enable_htr printed htr cfg))).
Proof.
  intros w Hoff. split; [|split].
  - intros path engine prefer_ocr cfg dpi fp lp thr fo pkgs Hin.
    assert (HF : Forall (installs_only (fun _ => False))
                   (calls (recognize_pdf w path engine prefer_ocr cfg dpi fp lp
                             thr fo)))
      by (apply installs_recognize_pdf; intros Ha; congruence).
    rewrite Forall_forall in HF. exact (HF _ Hin).
  - intros images engine cfg thr pkgs Hin.
    assert (HF : Forall (installs_only (fun _ => False))
                   (calls (recognize_images w images engine cfg thr)))
      by (apply installs_recognize_images; intros Ha; congruence).
    rewrite Forall_forall in HF. exact (HF _ Hin).
  - intros images enable_htr printed htr cfg pkgs Hin.
    assert (HF : Forall (installs_only (fun _ => False))
                   (calls (maybe_enable_htr w images enable_htr printed htr cfg)))
      by (apply installs_maybe_enable_htr; intros Ha; congruence).
    rewrite Forall_forall in HF. exact (HF _ Hin).
Qed.

Lemma no_install_when_disabled_witness :
  (forall path engine prefer_ocr cfg dpi fp lp thr fo pkgs,
      ~ In (PipInstall pkgs)
           (calls (recognize_pdf world_xyz path engine prefer_ocr cfg dpi fp lp
                     thr fo)))
  /\
  (forall images engine cfg thr pkgs,
      ~ In (PipInstall pkgs)
           (calls (recognize_images world_xyz images engine cfg thr)))
  /\
  (forall images enable_htr printed htr cfg pkgs,
      ~ In (PipInstall pkgs)
           (calls (maybe_enable_htr world_xyz images enable_htr printed htr cfg))).
Proof.
  apply (no_install_when_disabled world_xyz). reflexivity.
Defined.

(** X11. Packages are installed only on account of the engines of the
    fallback order.  Every installation [maybe_enable_htr] asks for is the
    common list or the table entry of the printed-text engine or of one of
    the three defaults: nothing is installed for the handwriting engine,
    which is constructed without the dependency check the fallback loop
    performs, nor for a pilot candidate as such. *)
Theorem installs_are_for_the_fallback_order :
  forall (w : World) (images : list Image) (enable_htr : bool)
         (printed_text_engine htr_engine : str) (cfg : option dict)
         (pkgs : list str),
    In (PipInstall pkgs)
       (calls (maybe_enable_htr w images enable_htr printed_text_engine
                 htr_engine cfg)) ->
    pkgs = _COMMON \/
    exists n,
      (n = printed_text_engine \/ In n default_candidates) /\
      pkgs = dict_get _ENGINE_TO_PACKAGES n [].
Proof.
  intros w images enable_htr pe he cfg pkgs Hin.
  assert (HF : Forall
                 (installs_only
                    (fun pkgs =>
                       pkgs = _COMMON \/
                       exists n,
                         (n = pe \/ In n default_candidates) /\
                         pkgs = dict_get _ENGINE_TO_PACKAGES n []))
                 (calls (maybe_enable_htr w images enable_htr pe he cfg))).
  { apply installs_maybe_enable_htr.
    - intros _; left; reflexivity.
    - intros _ n Hn; right; exists n; split; [exact Hn|reflexivity]. }
  rewrite Forall_forall in HF. exact (HF _ Hin).
Qed.

Lemma installs_are_for_the_fallback_order_witness :
  lit "paddleocr>=2.7.0.3" :: nil = _COMMON \/
  exists n,
    (n = lit "paddle" \/ In n default_candidates) /\
    lit "paddleocr>=2.7.0.3" :: nil = dict_get _ENGINE_TO_PACKAGES n [].
Proof.
  apply (installs_are_for_the_fallback_order world_installing one_page true
           (lit "paddle") (lit "trocr") None).
  vm_compute. right; left; reflexivity.
Defined.

(* ------------------------------------------------------------------ *)
(** ** Whitespace *)

Lemma lstrip_spaces ws t :
  Forall (fun c => is_space c = true) ws -> lstrip (ws ++ t) = lstrip t.
Proof.
  induction 1 as [|c ws Hc _ IH]; [reflexivity|].
  cbn [app lstrip]. rewrite Hc. exact IH.
Qed.

Lemma lstrip_app t u :
  lstrip (t ++ u) = match lstrip t with [] => lstrip u | _ => lstrip t ++ u end.
Proof.
  induction t as [|c t IH]; [reflexivity|].
  cbn [app lstrip]. destruct (is_space c); [exact IH|reflexivity].
Qed.

Lemma rstrip_spaces t ws :
  Forall (fun c => is_space c = true) ws -> rstrip (t ++ ws) = rstrip t.
Proof.
  intros H. unfold rstrip. rewrite rev_app_distr, lstrip_spaces; [reflexivity|].
  apply Forall_rev; exact H.
Qed.

Lemma lstrip_all_spaces ws :
  Forall (fun c => is_space c = true) ws -> lstrip ws = [].
Proof.
  intros H. rewrite <- (app_nil_r ws). rewrite lstrip_spaces by exact H.
  reflexivity.
Qed.

Lemma strip_padding ws1 t ws2 :
  Forall (fun c => is_space c = true) ws1 ->
  Forall (fun c => is_space c = true) ws2 ->
  strip (ws1 ++ t ++ ws2) = strip t.
Proof.
  intros H1 H2. unfold strip. rewrite (lstrip_spaces ws1 _ H1), lstrip_app.
  destruct (lstrip t) as [|c u] eqn:E.
  - rewrite (lstrip_all_spaces ws2 H2). reflexivity.
  - rewrite <- E. apply rstrip_spaces; exact H2.
Qed.

(** X12. Whitespace around the embedded text does not count: for a positive
    minimum length, padding a text on both sides with any whitespace
    characters (spaces, line breaks, form feeds, no-break spaces, ...)
    leaves its sufficiency unchanged; in particular a text made of
    whitespace alone is never sufficient, however long it is. *)
Theorem sufficiency_ignores_surrounding_whitespace :
  forall (ws1 text ws2 : str) (min_len : Z),
    0 < min_len ->
    Forall (fun c => is_space c = true) ws1 ->
    Forall (fun c => is_space c = true) ws2 ->
    is_sufficient_vector_text (ws1 ++ text ++ ws2) min_len =
    is_sufficient_vector_text text min_len
    /\
    is_sufficient_vector_text (ws1 ++ ws2) min_len = false.
Proof.
  intros ws1 text ws2 m Hm H1 H2.
  assert (Hws : forall t, is_sufficient_vector_text (ws1 ++ t ++ ws2) m =
                          is_sufficient_vector_text t m).
  { intros t.
    destruct (is_sufficient_vector_text t m) eqn:E.
    - apply is_sufficient_vector_text_iff in E. destruct E as [Hne Hlen].
      apply is_sufficient_vector_text_iff. split.
      + intros Hnil. apply app_eq_nil in Hnil. destruct Hnil as [_ Hnil].
        apply app_eq_nil in Hnil. destruct Hnil as [Hnil _]. contradiction.
      + rewrite strip_padding by assumption. exact Hlen.
    - destruct (is_sufficient_vector_text (ws1 ++ t ++ ws2) m) eqn:F;
        [|reflexivity].
      apply is_sufficient_vector_text_iff in F. destruct F as [_ Hlen].
      rewrite strip_padding in Hlen by assumption.
      assert (Ht : t <> []) by (intros ->; cbn in Hlen; lia).
      assert (is_sufficient_vector_text t m = true)
        by (apply is_sufficient_vector_text_iff; split; assumption).
      congruence. }
  split; [apply Hws|].
  specialize (Hws []). cbn [app] in Hws. exact Hws.
Qed.

Lemma sufficiency_ignores_surrounding_whitespace_witness :
  is_sufficient_vector_text
    ([12; 10]%N ++ repeat 97%N 64 ++ [32; 12]%N) 64 =
  is_sufficient_vector_text (repeat 97%N 64) 64
  /\
  is_sufficient_vector_text ([12; 10]%N ++ [32; 12]%N) 64 = false.
Proof.
  apply (sufficiency_ignores_surrounding_whitespace
           [12; 10]%N (repeat 97%N 64) [32; 12]%N 64).
  - reflexivity.
  - repeat constructor.
  - repeat constructor.
Defined.

(* ------------------------------------------------------------------ *)
(** ** The handwriting pass needs a printed pass *)

(** X13. The handwriting pass is only an addition to a printed pass that
    returned: when the printed pass fails, [maybe_enable_htr] fails with that
    same exception after the calls of the printed pass and no other, so the
    handwriting engine is not even constructed, whether or not it is
    available.  The exception is the [RuntimeError] of the exhausted loop,
    unless the printed-text engine is "auto" and the crop of the pilot image
    raised: then it is the exception of the crop. *)
Theorem htr_needs_printed_result :
  forall (w : World) (images : list Image) (printed_text_engine htr_engine : str)
         (cfg : option dict) (e : exn),
    outcome (recognize_images w images printed_text_engine cfg 0.6) = inl e ->
    maybe_enable_htr w images true printed_text_engine htr_engine cfg =
      (calls (recognize_images w images printed_text_engine cfg 0.6), inl e)
    /\
    (e = Exn RuntimeError no_engine_images \/
     (printed_text_engine = lit "auto" /\ _pilot_crop w images 512 = inl e)).
Proof.
  intros w images pe he cfg e H. split.
  - unfold maybe_enable_htr; cbn [negb]. apply bind_inl. exact H.
  - destruct (recognize_images_fails _ _ _ _ _ _ H) as [Hc|[-> _]];
      [right; exact Hc|left; reflexivity].
Qed.

Lemma htr_needs_printed_result_witness :
  maybe_enable_htr world_htr_only one_page true (lit "paddle") (lit "trocr")
    None =
    (calls (recognize_images world_htr_only one_page (lit "paddle") None 0.6),
     inl (Exn RuntimeError no_engine_images))
  /\
  (Exn RuntimeError no_engine_images = Exn RuntimeError no_engine_images \/
   (lit "paddle" = lit "auto" /\
    _pilot_crop world_htr_only one_page 512
      = inl (Exn RuntimeError no_engine_images))).
Proof.
  apply (htr_needs_printed_result world_htr_only one_page (lit "paddle")
           (lit "trocr") None).
  vm_compute; reflexivity.
Defined.

(* ------------------------------------------------------------------ *)
(** ** Properties of the environment switch *)

(** X14. The switch is off exactly when the variable is set to one of the
    four spellings ["0"], ["false"], ["False"], ["no"], whitespace around
    the value aside: for a value [v] that has no whitespace at its ends and
    any whitespace [ws1], [ws2] around it, [_should_auto_install] is false
    iff [v] is one of the four. *)
Theorem auto_install_switch_off :
  forall (ws1 v ws2 : str),
    Forall (fun c => is_space c = true) ws1 ->
    Forall (fun c => is_space c = true) ws2 ->
    strip v = v ->
    (_should_auto_install (Some (ws1 ++ v ++ ws2)) = false <->
     In v [lit "0"; lit "false"; lit "False"; lit "no"]).
Proof.
  intros ws1 v ws2 H1 H2 Hv. unfold _should_auto_install.
  rewrite (strip_padding ws1 v ws2 H1 H2), Hv.
  rewrite negb_false_iff. apply str_in_In.
Qed.

Lemma auto_install_switch_off_witness :
  _should_auto_install (Some (lit "  " ++ lit "False" ++ [10%N])) = false <->
  In (lit "False") [lit "0"; lit "false"; lit "False"; lit "no"].
Proof.
  apply auto_install_switch_off.
  - repeat constructor.
  - repeat constructor.
  - reflexivity.
Defined.

(* ------------------------------------------------------------------ *)
(** ** Properties of the adapters *)

(** ** The clamp *)

Lemma clamp_in_range x : confidence_in_range (clamp x).
Proof.
  unfold clamp, py_min, py_max, confidence_in_range.
  destruct (x <? 1)%float eqn:E1.
  - destruct (0 <? x)%float eqn:E0.
    + split; apply flt_fle; assumption.
    + split; reflexivity.
  - split; reflexivity.
Qed.

Lemma zero_in_range : confidence_in_range 0.
Proof. split; reflexivity. Qed.

(** X15. The confidence the scoring adapters report is always a number
    between 0 and 1; a mean that already lies there is reported as it is,
    and a mean that is not below 1, NaN included, is reported as 1. *)
Theorem clamp_spec :
  forall x : float,
    confidence_in_range (clamp x) /\
    (confidence_in_range x -> (clamp x =? x)%float = true) /\
    ((x <? 1)%float = false -> clamp x = 1%float).
Proof.
  intros x. split; [apply clamp_in_range|]. split.
  - intros [H0 H1]. unfold clamp, py_min, py_max.
    pose proof (fle_right_refl _ _ H0) as Hx.
    destruct (x <? 1)%float eqn:E1.
    + destruct (0 <? x)%float eqn:E0.
      * apply fle_antisym_eqb; exact Hx.
      * apply fle_antisym_eqb; [exact H0|].
        apply not_flt_fle; [exact E0|reflexivity|exact Hx].
    + change (0 <? 1)%float with true. cbv iota.
      apply fle_antisym_eqb; [|exact H1].
      apply not_flt_fle; [exact E1|exact Hx|reflexivity].
  - intros E1. unfold clamp, py_min. rewrite E1. reflexivity.
Qed.

(** ** What [create] returns *)

Lemma create_of_inr rt m a : create_of rt m = inr a -> a = adapter_of rt m.
Proof.
  destruct m; cbn;
    [unfold paddle_create|unfold tesseract_create|unfold easyocr_create
    |unfold doctr_create|unfold trocr_create|unfold donut_create
    |unfold nougat_create];
    match goal with |- context [negb ?b] => destruct b end; cbn;
    intros H; inversion H; reflexivity.
Qed.

Lemma create_of_has rt m :
  has_library rt m = true -> create_of rt m = inr (adapter_of rt m).
Proof.
  destruct m; cbn;
    [unfold paddle_create|unfold tesseract_create|unfold easyocr_create
    |unfold doctr_create|unfold trocr_create|unfold donut_create
    |unfold nougat_create];
    intros ->; reflexivity.
Qed.

Lemma name_adapter_of rt m : name (adapter_of rt m) = module_name m.
Proof. destruct m; reflexivity. Qed.

(** Inversion of a chain of calls that returned. *)
Ltac rbind_inv H :=
  repeat match type of H with
         | rbind ?r _ = inr _ =>
             let E := fresh "E" in
             destruct r eqn:E; cbn [rbind] in H; [discriminate H|]
         end;
  try discriminate H;
  try (injection H as H; subst).

Lemma images_method_contract rt m images cfg res :
  recognize_images_method (adapter_of rt m) images cfg = inr res ->
  confidence_in_range (RecognizeResult.mean_confidence res) /\
  RecognizeResult.engine res = module_name m.
Proof.
  destruct m; cbn [adapter_of recognize_images_method PaddleAdapter
                     TesseractAdapter EasyOCRAdapter DocTRAdapter TrOCRAdapter
                     DonutAdapter NougatAdapter];
    intros H;
    [unfold PaddleAdapter_recognize_images in H
    |unfold TesseractAdapter_recognize_images in H
    |unfold EasyOCRAdapter_recognize_images in H
    |unfold DocTRAdapter_recognize_images in H
    |unfold TrOCRAdapter_recognize_images in H
    |unfold DonutAdapter_recognize_images in H
    |];
    rbind_inv H; cbn;
    (split; [first [apply clamp_in_range|apply zero_in_range]|reflexivity]).
Qed.

Lemma pdf_method_contract rt m path cfg res :
  recognize_pdf_method (adapter_of rt m) path cfg = inr res ->
  confidence_in_range (RecognizeResult.mean_confidence res) /\
  RecognizeResult.engine res = module_name m.
Proof.
  destruct m; cbn [adapter_of recognize_pdf_method PaddleAdapter
                     TesseractAdapter EasyOCRAdapter DocTRAdapter TrOCRAdapter
                     DonutAdapter NougatAdapter];
    intros H;
    [unfold PaddleAdapter_recognize_pdf in H
    | | 
    |unfold DocTRAdapter_recognize_pdf in H
    | |
    |unfold NougatAdapter_recognize_pdf in H];
    rbind_inv H; cbn;
    (split; [first [apply clamp_in_range|apply zero_in_range]|reflexivity]).
Qed.

(** X16. Every adapter a [create] returns keeps the contract of
    [types.py]: whatever the engine library answers, a result of either
    method has its mean confidence in [0, 1] and carries the adapter's own
    name, which is the registry key of its module. *)
Theorem shipped_adapters_keep_contract :
  forall (rt : Runtime) (m : EngineModule) (a : RecognizerAdapter),
    create_of rt m = inr a ->
    registry (name a) = Some m /\
    (forall images cfg res,
        recognize_images_method a images cfg = inr res ->
        confidence_in_range (RecognizeResult.mean_confidence res) /\
        RecognizeResult.engine res = name a) /\
    (forall path cfg res,
        recognize_pdf_method a path cfg = inr res ->
        confidence_in_range (RecognizeResult.mean_confidence res) /\
        RecognizeResult.engine res = name a).
Proof.
  intros rt m a Hc. apply create_of_inr in Hc. subst a.
  rewrite name_adapter_of. split; [apply registry_module_name|].
  split; intros ? cfg res H;
    [apply images_method_contract in H|apply pdf_method_contract in H]; exact H.
Qed.

Lemma shipped_adapters_keep_contract_witness :
  registry (name (PaddleAdapter demo_runtime)) = Some paddle /\
  (forall images cfg res,
      recognize_images_method (PaddleAdapter demo_runtime) images cfg = inr res ->
      confidence_in_range (RecognizeResult.mean_confidence res) /\
      RecognizeResult.engine res = name (PaddleAdapter demo_runtime)) /\
  (forall path cfg res,
      recognize_pdf_method (PaddleAdapter demo_runtime) path cfg = inr res ->
      confidence_in_range (RecognizeResult.mean_confidence res) /\
      RecognizeResult.engine res = name (PaddleAdapter demo_runtime)).
Proof.
  apply (shipped_adapters_keep_contract demo_runtime paddle). reflexivity.
Defined.

(* ------------------------------------------------------------------ *)
(** ** The pipeline on the shipped adapters *)

Lemma shipped_build w rt n a :
  outcome (build_adapter (shipped w rt) n) = inr a ->
  exists m, registry (lower n) = Some m /\ a = adapter_of rt m.
Proof.
  unfold build_adapter. destruct (registry (lower n)) as [m|]; [|discriminate].
  cbn. intros H. exists m. split; [reflexivity|].
  apply create_of_inr; exact H.
Qed.

Lemma shipped_attempt_images w rt images cfg n res :
  outcome (attempt_images (shipped w rt) images cfg n) = inr res ->
  exists m, registry (lower n) = Some m /\
            recognize_images_method (adapter_of rt m) images (Some cfg) = inr res.
Proof.
  unfold attempt_images.
  rewrite (bind_inr _ _ tt (ensure_for_engine_outcome _ n)). cbn [outcome snd].
  destruct (outcome (build_adapter (shipped w rt) n)) as [e|a] eqn:B.
  - rewrite (bind_inl _ _ e B). discriminate.
  - rewrite (bind_inr _ _ a B). cbn [outcome snd].
    destruct (shipped_build _ _ _ _ B) as [m [R ->]].
    intros H. exists m. split; [exact R|exact H].
Qed.

Lemma shipped_attempt_pdf w rt path images cfg n res :
  outcome (attempt_pdf (shipped w rt) path images cfg n) = inr res ->
  exists m, registry (lower n) = Some m /\
            (recognize_pdf_method (adapter_of rt m) path (Some cfg) = inr res \/
             recognize_images_method (adapter_of rt m) images (Some cfg) = inr res).
Proof.
  unfold attempt_pdf.
  rewrite (bind_inr _ _ tt (ensure_for_engine_outcome _ n)). cbn [outcome snd].
  destruct (outcome (build_adapter (shipped w rt) n)) as [e|a] eqn:B.
  - rewrite (bind_inl _ _ e B). discriminate.
  - rewrite (bind_inr _ _ a B). cbn [outcome snd].
    destruct (shipped_build _ _ _ _ B) as [m [R ->]].
    intros H. exists m. split; [exact R|].
    destruct (supports_pdf (adapter_of rt m)); [left|right]; exact H.
Qed.

Lemma shipped_htr_pass w rt images cfg n res :
  outcome (htr_pass (shipped w rt) images cfg n) = inr res ->
  exists m, registry (lower n) = Some m /\
            recognize_images_method (adapter_of rt m) images cfg = inr res.
Proof.
  unfold htr_pass.
  destruct (outcome (build_adapter (shipped w rt) n)) as [e|a] eqn:B.
  - rewrite (bind_inl _ _ e B). discriminate.
  - rewrite (bind_inr _ _ a B). cbn [outcome snd].
    destruct (shipped_build _ _ _ _ B) as [m [R ->]].
    intros H. exists m. split; [exact R|exact H].
Qed.

Lemma shipped_attempt_images_range w rt images cfg n res :
  outcome (attempt_images (shipped w rt) images cfg n) = inr res ->
  confidence_in_range (RecognizeResult.mean_confidence res).
Proof.
  intros H. destruct (shipped_attempt_images _ _ _ _ _ _ H) as [m [_ Hm]].
  apply (images_method_contract _ _ _ _ _ Hm).
Qed.

Lemma shipped_attempt_pdf_range w rt path images cfg n res :
  outcome (attempt_pdf (shipped w rt) path images cfg n) = inr res ->
  confidence_in_range (RecognizeResult.mean_confidence res).
Proof.
  intros H. destruct (shipped_attempt_pdf _ _ _ _ _ _ _ H) as [m [_ [Hm|Hm]]].
  - apply (pdf_method_contract _ _ _ _ _ Hm).
  - apply (images_method_contract _ _ _ _ _ Hm).
Qed.

Lemma shipped_recognize_images_range w rt images engine cfg thr r c :
  outcome (recognize_images (shipped w rt) images engine cfg thr) = inr r ->
  IngestResult.ocr_confidence r = Some c ->
  confidence_in_range c.
Proof.
  intros H Hc.
  destruct (recognize_images_result _ _ _ _ _ _ H)
    as (_ & _ & n & res & Ha & _ & Hconf).
  rewrite Hconf in Hc. inversion Hc; subst c.
  eapply shipped_attempt_images_range; exact Ha.
Qed.

Lemma py_max_in_range a b :
  confidence_in_range a -> confidence_in_range b ->
  confidence_in_range (py_max a b).
Proof. intros Ha Hb. unfold py_max. destruct (a <? b)%float; assumption. Qed.

Lemma or_zero_in_range c :
  confidence_in_range c -> confidence_in_range (or_zero (Some c)).
Proof.
  intros H. unfold or_zero. destruct (c =? 0)%float; [apply zero_in_range|exact H].
Qed.

(** X17. On the shipped adapters every confidence the pipeline reports is in
    [0, 1]: that of [recognize_images], that of [recognize_pdf] (which
    reports none on the vector-text path), and the combined one of
    [maybe_enable_htr]. *)
Theorem reported_confidence_in_range :
  forall (w : World) (rt : Runtime) (r : IngestResult.t) (c : float),
    IngestResult.ocr_confidence r = Some c ->
    (forall images engine cfg thr,
        outcome (recognize_images (shipped w rt) images engine cfg thr) = inr r ->
        confidence_in_range c) /\
    (forall path engine prefer_ocr cfg dpi fp lp thr fo,
        outcome (recognize_pdf (shipped w rt) path engine prefer_ocr cfg dpi
                   fp lp thr fo) = inr r ->
        confidence_in_range c) /\
    (forall images enable_htr printed_engine htr_engine cfg,
        outcome (maybe_enable_htr (shipped w rt) images enable_htr
                   printed_engine htr_engine cfg) = inr r ->
        confidence_in_range c).
Proof.
  intros w rt r c Hc. split; [|split].
  - intros images engine cfg thr H.
    eapply shipped_recognize_images_range; eassumption.
  - intros path engine prefer_ocr cfg dpi fp lp thr fo H.
    destruct (recognize_pdf_outcome_cases _ _ _ _ _ _ _ _ _ _ _ H)
      as [(vt & _ & _ & _ & ->)|(images & chosen & _ & _ & Hrun)].
    + discriminate Hc.
    + unfold run_fallback_pdf in Hrun.
      destruct (run_outcome_cases
                  (attempt_pdf (shipped w rt) path images (or_empty cfg))
                  (Some path) no_engine_pdf thr (order_for_pdf chosen fo))
        as [(n & res & _ & Ha & [E|E])|[_ E]];
        rewrite E in Hrun; inversion Hrun; subst r; cbn in Hc;
        inversion Hc; subst c;
        eapply shipped_attempt_pdf_range; exact Ha.
  - intros images enable_htr pe he cfg H. unfold maybe_enable_htr in H.
    destruct enable_htr; cbn [negb] in H.
    + destruct (outcome (recognize_images (shipped w rt) images pe cfg 0.6))
        as [e|p] eqn:P.
      * rewrite (bind_inl _ _ e P) in H. discriminate.
      * rewrite (bind_inr _ _ p P) in H. cbn [outcome snd] in H.
        destruct (outcome (htr_pass (shipped w rt) images cfg he))
          as [e|h] eqn:Hh.
        -- rewrite try_except_inl with (e := e) in H
             by (rewrite (bind_inl _ _ e Hh); reflexivity).
           cbn in H. inversion H; subst r.
           eapply shipped_recognize_images_range; eassumption.
        -- rewrite try_except_inr with (a := combine p h) in H
             by (rewrite (bind_inr _ _ h Hh); reflexivity).
           cbn [outcome snd] in H. inversion H; subst r.
           cbn in Hc. inversion Hc; subst c.
           destruct (shipped_htr_pass _ _ _ _ _ _ Hh) as [m [_ Hm]].
           apply images_method_contract in Hm. destruct Hm as [Hm _].
           apply py_max_in_range; [|exact Hm].
           destruct (recognize_images_result _ _ _ _ _ _ P)
             as (_ & _ & n & res & Ha & _ & Hconf).
           rewrite Hconf. apply or_zero_in_range.
           eapply shipped_attempt_images_range; exact Ha.
    + eapply shipped_recognize_images_range; eassumption.
Qed.

Lemma reported_confidence_in_range_witness :
  confidence_in_range 0.9.
Proof.
  refine (proj2 (proj2
            (reported_confidence_in_range world_xyz demo_runtime
               (combine
                  (accepted None (lit "paddle")
                     (RecognizeResult.mk (lit "Merhaba") 0.9 (lit "paddle")
                        [ (lit "elapsed_ms", PyInt 7); (lit "pages", PyInt 1);
                          (lit "lang", PyNone) ]))
                  (RecognizeResult.mk (lit "el yazisi") 0 (lit "trocr")
                     [ (lit "elapsed_ms", PyInt 7); (lit "pages", PyInt 1);
                       (lit "device", PyStr (lit "cpu")) ]))
               0.9%float eq_refl))
            one_page true (lit "paddle") (lit "trocr") None _).
  vm_compute. reflexivity.
Defined.

(* ------------------------------------------------------------------ *)
(** ** Engines that report no confidence *)

Lemma flt_not_fle a b : flt a b -> (b <=? a)%float = false.
Proof. intros; float_order. Qed.

Lemma unscored_images_method rt m images cfg res :
  In m [doctr; trocr; donut; nougat] ->
  recognize_images_method (adapter_of rt m) images cfg = inr res ->
  RecognizeResult.mean_confidence res = 0%float.
Proof.
  intros Hm.
  destruct Hm as [<-|[<-|[<-|[<-|[]]]]];
    cbn [adapter_of recognize_images_method DocTRAdapter TrOCRAdapter
           DonutAdapter NougatAdapter];
    intros H;
    [unfold DocTRAdapter_recognize_images in H
    |unfold TrOCRAdapter_recognize_images in H
    |unfold DonutAdapter_recognize_images in H
    |];
    rbind_inv H; reflexivity.
Qed.

Lemma unscored_pdf_method rt m path cfg res :
  In m [doctr; trocr; donut; nougat] ->
  recognize_pdf_method (adapter_of rt m) path cfg = inr res ->
  RecognizeResult.mean_confidence res = 0%float.
Proof.
  intros Hm.
  destruct Hm as [<-|[<-|[<-|[<-|[]]]]];
    cbn [adapter_of recognize_pdf_method DocTRAdapter TrOCRAdapter
           DonutAdapter NougatAdapter];
    intros H;
    [unfold DocTRAdapter_recognize_pdf in H
    | |
    |unfold NougatAdapter_recognize_pdf in H];
    rbind_inv H; reflexivity.
Qed.

(** X18. DocTR, TrOCR, Donut and Nougat report confidence 0.0, so under any
    positive threshold their turn never ends a fallback loop, in
    [recognize_images] and in [recognize_pdf] alike: their result is kept
    only as the last result, for the case that no later engine is accepted. *)
Theorem unscored_engines_never_accepted :
  forall (w : World) (rt : Runtime) (name : str) (m : EngineModule)
         (thr : float),
    registry (lower name) = Some m ->
    In m [doctr; trocr; donut; nougat] ->
    flt 0 thr ->
    (forall images cfg,
        rejected (attempt_images (shipped w rt) images cfg) thr name) /\
    (forall path images cfg,
        rejected (attempt_pdf (shipped w rt) path images cfg) thr name).
Proof.
  intros w rt name m thr R Hm Hthr. split.
  - intros images cfg. unfold rejected.
    destruct (outcome (attempt_images (shipped w rt) images cfg name))
      as [e|res] eqn:A; [exact I|].
    destruct (shipped_attempt_images _ _ _ _ _ _ A) as [m' [R' Hres]].
    assert (m' = m) by congruence. subst m'.
    rewrite (unscored_images_method _ _ _ _ _ Hm Hres).
    apply flt_not_fle; exact Hthr.
  - intros path images cfg. unfold rejected.
    destruct (outcome (attempt_pdf (shipped w rt) path images cfg name))
      as [e|res] eqn:A; [exact I|].
    destruct (shipped_attempt_pdf _ _ _ _ _ _ _ A) as [m' [R' Hres]].
    assert (m' = m) by congruence. subst m'.
    destruct Hres as [Hres|Hres];
      [rewrite (unscored_pdf_method _ _ _ _ _ Hm Hres)
      |rewrite (unscored_images_method _ _ _ _ _ Hm Hres)];
      apply flt_not_fle; exact Hthr.
Qed.

Lemma unscored_engines_never_accepted_witness :
  (forall images cfg,
      rejected (attempt_images (shipped world_xyz demo_runtime) images cfg)
               0.6 (lit "TrOCR")) /\
  (forall path images cfg,
      rejected (attempt_pdf (shipped world_xyz demo_runtime) path images cfg)
               0.6 (lit "TrOCR")).
Proof.
  apply (unscored_engines_never_accepted world_xyz demo_runtime (lit "TrOCR")
           trocr 0.6%float).
  - reflexivity.
  - right; left; reflexivity.
  - reflexivity.
Defined.

(** X19. With one of these engines as the handwriting engine (the default
    is "trocr"), the dual pass never changes the confidence: whenever
    [maybe_enable_htr] returns with the second pass enabled, the printed
    pass returned with a confidence, and the reported confidence is equal
    to it. *)
Theorem htr_pass_keeps_confidence :
  forall (w : World) (rt : Runtime) (images : list Image)
         (printed_engine htr_engine : str) (cfg : option dict)
         (m : EngineModule) (r : IngestResult.t),
    registry (lower htr_engine) = Some m ->
    In m [doctr; trocr; donut; nougat] ->
    outcome (maybe_enable_htr (shipped w rt) images true printed_engine
               htr_engine cfg) = inr r ->
    exists p c c',
      outcome (recognize_images (shipped w rt) images printed_engine cfg 0.6)
        = inr p /\
      IngestResult.ocr_confidence p = Some c /\
      IngestResult.ocr_confidence r = Some c' /\
      (c' =? c)%float = true.
Proof.
  intros w rt images pe he cfg m r R Hm H.
  unfold maybe_enable_htr in H. cbn [negb] in H.
  destruct (outcome (recognize_images (shipped w rt) images pe cfg 0.6))
    as [e|p] eqn:P.
  { rewrite (bind_inl _ _ e P) in H. discriminate. }
  rewrite (bind_inr _ _ p P) in H. cbn [outcome snd] in H.
  destruct (recognize_images_result _ _ _ _ _ _ P)
    as (_ & _ & n & res & Ha & _ & Hconf).
  pose proof (shipped_attempt_images_range _ _ _ _ _ _ Ha) as [H0 H1].
  set (c := RecognizeResult.mean_confidence res) in *.
  exists p, c.
  destruct (outcome (htr_pass (shipped w rt) images cfg he)) as [e|h] eqn:Hh.
  - rewrite try_except_inl with (e := e) in H
      by (rewrite (bind_inl _ _ e Hh); reflexivity).
    cbn in H. inversion H; subst r. exists c.
    repeat split; try assumption.
    apply fle_antisym_eqb; apply (fle_right_refl _ _ H0).
  - rewrite try_except_inr with (a := combine p h) in H
      by (rewrite (bind_inr _ _ h Hh); reflexivity).
    cbn [outcome snd] in H. inversion H; subst r.
    destruct (shipped_htr_pass _ _ _ _ _ _ Hh) as [m' [R' Hres]].
    assert (m' = m) by congruence. subst m'.
    pose proof (unscored_images_method _ _ _ _ _ Hm Hres) as Hz.
    eexists. split; [reflexivity|]. split; [exact Hconf|].
    split; [reflexivity|]. cbn. rewrite Hconf, Hz.
    destruct (py_max_or_zero_spec c 0
                (fle_right_refl _ _ H0) (fle_left_refl _ _ H0))
      as (Hp & _ & [E|E]); [exact E|].
    rewrite E in *. apply fle_antisym_eqb; assumption.
Qed.

Lemma htr_pass_keeps_confidence_witness :
  exists p c c',
    outcome (recognize_images (shipped world_xyz demo_runtime) one_page
               (lit "paddle") None 0.6) = inr p /\
    IngestResult.ocr_confidence p = Some c /\
    IngestResult.ocr_confidence
      (combine
         (accepted None (lit "paddle")
            (RecognizeResult.mk (lit "Merhaba") 0.9 (lit "paddle")
               [ (lit "elapsed_ms", PyInt 7); (lit "pages", PyInt 1);
                 (lit "lang", PyNone) ]))
         (RecognizeResult.mk (lit "el yazisi") 0 (lit "trocr")
            [ (lit "elapsed_ms", PyInt 7); (lit "pages", PyInt 1);
              (lit "device", PyStr (lit "cpu")) ])) = Some c' /\
    (c' =? c)%float = true.
Proof.
  apply (htr_pass_keeps_confidence world_xyz demo_runtime one_page
           (lit "paddle") (lit "trocr") None trocr).
  - reflexivity.
  - right; left; reflexivity.
  - vm_compute. reflexivity.
Defined.

(* ------------------------------------------------------------------ *)
(** ** Capability flags *)

Lemma Forall_calls_bind_out (P : event -> Prop) {A B} (m : M A) (f : A -> M B) :
  Forall P (calls m) ->
  (forall a, outcome m = inr a -> Forall P (calls (f a))) ->
  Forall P (calls (bind m f)).
Proof.
  intros Hm Hf. destruct m as [l [e|a]]; cbn in *; [exact Hm|].
  specialize (Hf a eq_refl). destruct (f a) as [l' r]; cbn in *.
  apply Forall_app; split; assumption.
Qed.

Lemma declared_build w rt n :
  Forall (declared_call rt) (calls (build_adapter (shipped w rt) n)).
Proof.
  unfold build_adapter. destruct (registry (lower n)); repeat constructor.
Qed.

Lemma declared_ensure w rt n :
  Forall (declared_call rt) (calls (ensure_for_engine w n)).
Proof.
  unfold ensure_for_engine. destruct (negb (auto_install w)); [constructor|].
  destruct (dict_get _ENGINE_TO_PACKAGES n []); repeat constructor.
Qed.

Lemma default_supports_image rt n m :
  In n default_candidates -> registry (lower n) = Some m ->
  supports_image (adapter_of rt m) = true.
Proof.
  intros Hn R. destruct Hn as [<-|[<-|[<-|[]]]];
    vm_compute in R; inversion R; reflexivity.
Qed.

Lemma declared_pilot w rt pi cfg n :
  In n default_candidates ->
  Forall (declared_call rt) (calls (pilot (shipped w rt) pi cfg n)).
Proof.
  intros Hn. unfold pilot.
  apply Forall_calls_bind_out; [apply declared_build|].
  intros a Ha. destruct (shipped_build _ _ _ _ Ha) as [m [R ->]].
  apply Forall_calls_call. exists m. split; [reflexivity|].
  eapply default_supports_image; eassumption.
Qed.

Lemma declared_attempt_pdf w rt path images cfg n :
  Forall (declared_call rt)
         (calls (attempt_pdf (shipped w rt) path images cfg n)).
Proof.
  unfold attempt_pdf.
  apply Forall_calls_bind; [apply declared_ensure|intros _].
  apply Forall_calls_bind_out; [apply declared_build|].
  intros a Ha. destruct (shipped_build _ _ _ _ Ha) as [m [R ->]].
  destruct (supports_pdf (adapter_of rt m)) eqn:S;
    apply Forall_calls_call; exists m; (split; [reflexivity|]);
    [exact S|destruct m; try reflexivity; discriminate S].
Qed.

(** X20. [recognize_pdf] only ever calls a method the adapter declares: in
    its pilots and in its fallback loop every [recognize_pdf] goes to an
    adapter with [supports_pdf] and every [recognize_images] to one with
    [supports_image], whatever engine and fallback order the caller names. *)
Theorem recognize_pdf_calls_declared_methods :
  forall (w : World) (rt : Runtime) (path engine : str) (prefer_ocr : bool)
         (cfg : option dict) (dpi : Z) (fp lp : option Z) (thr : float)
         (fo : option (list str)),
    Forall (declared_call rt)
           (calls (recognize_pdf (shipped w rt) path engine prefer_ocr cfg dpi
                     fp lp thr fo)).
Proof.
  intros. unfold recognize_pdf.
  apply Forall_calls_bind.
  { rewrite ensure_common_calls. destruct (auto_install (shipped w rt));
      repeat constructor. }
  intros _. apply Forall_calls_bind.
  { unfold extract_vector_text.
    destruct (negb prefer_ocr && _HAS_PDFMINER (shipped w rt)); [|constructor].
    unfold call, try_except. destruct (pdfminer_extract_text (shipped w rt) path);
      repeat constructor. }
  intros vt. destruct (truthy vt && is_sufficient_vector_text vt 64);
    [constructor|].
  unfold recognize_pdf_by_ocr. apply Forall_calls_bind.
  { unfold _load_images_from_pdf. destruct (negb (_HAS_PDF2IMAGE (shipped w rt)));
      repeat constructor. }
  intros images. apply Forall_calls_bind.
  - unfold choose_engine. destruct (str_eqb engine (lit "auto")); [|constructor].
    rewrite auto_select_engine_calls.
  destruct (_pilot_crop _ images 512) as [?|pi]; [constructor|].
    apply Forall_flat_map, Forall_forall. intros n Hn.
    apply declared_pilot; exact Hn.
  - intros chosen. unfold run_fallback_pdf. apply Forall_calls_run_in.
    intros n _. apply declared_attempt_pdf.
Qed.

Lemma filter_all {A} (l : list A) : filter (fun _ => true) l = l.
Proof. induction l as [|a l IH]; [reflexivity|]. cbn; rewrite IH; reflexivity. Qed.

Lemma missing_defaults_other name :
  ~ In name default_candidates ->
  missing_defaults [name] = default_candidates.
Proof.
  intros H. unfold missing_defaults.
  rewrite <- (filter_all default_candidates) at 2.
  apply filter_ext_in. intros d Hd.
  apply negb_true_iff, str_in_false.
  intros [->|[]]. exact (H Hd).
Qed.

(** X21. Nougat cannot read images, and the image entry point does not look
    at [supports_image]: under any spelling of "nougat" the engine's turn in
    [recognize_images] raises, so the call gives what the call with engine
    "paddle" gives, and as handwriting engine it leaves the printed result
    as it is. *)
Theorem nougat_cannot_read_images :
  forall (w : World) (rt : Runtime) (name : str),
    registry (lower name) = Some nougat ->
    (forall images cfg,
        exists e,
          outcome (attempt_images (shipped w rt) images cfg name) = inl e) /\
    (forall images cfg thr,
        outcome (recognize_images (shipped w rt) images name cfg thr) =
        outcome (recognize_images (shipped w rt) images (lit "paddle") cfg thr)) /\
    (forall images printed_engine cfg,
        outcome (maybe_enable_htr (shipped w rt) images true printed_engine
                   name cfg) =
        outcome (recognize_images (shipped w rt) images printed_engine cfg 0.6)).
Proof.
  intros w rt name R.
  assert (Hraise : forall images cfg,
             exists e,
               outcome (attempt_images (shipped w rt) images cfg name) = inl e).
  { intros images cfg.
    destruct (outcome (attempt_images (shipped w rt) images cfg name))
      as [e|res] eqn:A; [exists e; reflexivity|].
    destruct (shipped_attempt_images _ _ _ _ _ _ A) as [m [R' Hres]].
    assert (m = nougat) by congruence. subst m. discriminate Hres. }
  split; [exact Hraise|]. split.
  - intros images cfg thr.
    assert (Hauto : name <> lit "auto") by (intros ->; discriminate R).
    assert (Hnd : ~ In name default_candidates).
    { intros Hin. unfold default_candidates in Hin.
      destruct Hin as [<-|[<-|[<-|[]]]]; discriminate R. }
    assert (Ho : order_for_images name = name :: default_candidates).
    { unfold order_for_images. rewrite append_defaults_eq.
      rewrite (missing_defaults_other _ Hnd). reflexivity. }
    rewrite (recognize_images_steps _ images name cfg thr name)
      by (rewrite (choose_engine_explicit _ _ _ _ Hauto); reflexivity).
    rewrite (recognize_images_steps _ images (lit "paddle") cfg thr (lit "paddle"))
      by reflexivity.
    cbn [outcome snd]. rewrite Ho.
    change (order_for_images (lit "paddle")) with default_candidates.
    unfold run_fallback_images.
    destruct (Hraise images (or_empty cfg)) as [e He].
    rewrite run_cons_rejected by (unfold rejected; rewrite He; exact I).
    unfold next_last; rewrite He. reflexivity.
  - intros images pe cfg. unfold maybe_enable_htr. cbn [negb].
    destruct (outcome (recognize_images (shipped w rt) images pe cfg 0.6))
      as [e|p] eqn:P.
    + rewrite (bind_inl _ _ e P). reflexivity.
    + rewrite (bind_inr _ _ p P). cbn [outcome snd].
      destruct (outcome (htr_pass (shipped w rt) images cfg name))
        as [e|h] eqn:Hh.
      * rewrite try_except_inl with (e := e)
          by (rewrite (bind_inl _ _ e Hh); reflexivity).
        reflexivity.
      * destruct (shipped_htr_pass _ _ _ _ _ _ Hh) as [m [R' Hres]].
        assert (m = nougat) by congruence. subst m. discriminate Hres.
Qed.

Lemma nougat_cannot_read_images_witness :
  outcome (recognize_images (shipped world_xyz demo_runtime) one_page
             (lit "Nougat") None 0.6) =
  outcome (recognize_images (shipped world_xyz demo_runtime) one_page
             (lit "paddle") None 0.6).
Proof.
  apply (proj1 (proj2 (nougat_cannot_read_images world_xyz demo_runtime
                         (lit "Nougat") eq_refl))).
Defined.

(* ------------------------------------------------------------------ *)
(** ** An empty batch *)

Lemma empty_images_method rt m cfg res :
  recognize_images_method (adapter_of rt m) [] cfg = inr res ->
  RecognizeResult.text res = [] /\
  RecognizeResult.mean_confidence res = 0%float.
Proof.
  destruct m; cbn [adapter_of recognize_images_method PaddleAdapter
                     TesseractAdapter EasyOCRAdapter DocTRAdapter TrOCRAdapter
                     DonutAdapter NougatAdapter];
    intros H;
    [unfold PaddleAdapter_recognize_images in H
    |unfold TesseractAdapter_recognize_images in H
    |unfold EasyOCRAdapter_recognize_images in H
    |unfold DocTRAdapter_recognize_images in H
    |unfold TrOCRAdapter_recognize_images in H
    |unfold DonutAdapter_recognize_images in H
    |];
    cbn [for_each rbind] in H; rbind_inv H; split; reflexivity.
Qed.

(** X22. Recognising no image is not an error: when [recognize_images] is
    given an empty list and returns, the result has the empty text and
    confidence 0.0, whichever engine produced it. *)
Theorem empty_batch_gives_empty_text :
  forall (w : World) (rt : Runtime) (engine : str) (cfg : option dict)
         (thr : float) (r : IngestResult.t),
    outcome (recognize_images (shipped w rt) [] engine cfg thr) = inr r ->
    IngestResult.text r = [] /\ IngestResult.ocr_confidence r = Some 0%float.
Proof.
  intros w rt engine cfg thr r H.
  destruct (recognize_images_result _ _ _ _ _ _ H)
    as (_ & _ & n & res & Ha & Ht & Hc).
  destruct (shipped_attempt_images _ _ _ _ _ _ Ha) as [m [_ Hm]].
  destruct (empty_images_method _ _ _ _ Hm) as [Et Ec].
  rewrite Ht, Hc, Et, Ec. split; reflexivity.
Qed.

Lemma empty_batch_gives_empty_text_witness :
  IngestResult.text
    (degraded None
       (RecognizeResult.mk [] 0 (lit "paddle")
          [ (lit "elapsed_ms", PyInt 7); (lit "pages", PyInt 0);
            (lit "lang", PyNone) ])) = [] /\
  IngestResult.ocr_confidence
    (degraded None
       (RecognizeResult.mk [] 0 (lit "paddle")
          [ (lit "elapsed_ms", PyInt 7); (lit "pages", PyInt 0);
            (lit "lang", PyNone) ])) = Some 0%float.
Proof.
  apply (empty_batch_gives_empty_text world_xyz demo_runtime (lit "paddle")
           None 0.6%float).
  vm_compute. reflexivity.
Defined.

(* ------------------------------------------------------------------ *)
(** ** Automatic selection over the shipped adapters *)

Lemma shipped_pilot_range w rt pi cfg n res :
  outcome (pilot (shipped w rt) pi cfg n) = inr res ->
  confidence_in_range (RecognizeResult.mean_confidence res).
Proof.
  intros H. destruct (shipped_htr_pass w rt pi cfg n res H) as [m [_ Hm]].
  apply (images_method_contract _ _ _ _ _ Hm).
Qed.

(** X23. Over the shipped adapters automatic selection is an argmax without
    further assumptions: as soon as the pilot of one candidate returns, the
    chosen candidate is one whose pilot returned, no candidate's pilot
    scores higher, and every candidate listed before it scores strictly
    lower. *)
Theorem auto_select_on_shipped_adapters :
  forall (w : World) (rt : Runtime) (images : list Image) (cfg : option dict)
         (c0 : str) (rest : list str) (n0 : str) (res0 : RecognizeResult.t),
    In n0 (c0 :: rest) ->
    pilot_outcome (shipped w rt) images cfg n0 = inr res0 ->
    exists chosen i res,
      outcome (auto_select_engine (shipped w rt) images (c0 :: rest) cfg)
        = inr chosen /\
      nth_error (c0 :: rest) i = Some chosen /\
      pilot_outcome (shipped w rt) images cfg chosen = inr res /\
      forall j m r,
        nth_error (c0 :: rest) j = Some m ->
        pilot_outcome (shipped w rt) images cfg m = inr r ->
        fle (pilot_score r) (pilot_score res) /\
        ((j < i)%nat -> flt (pilot_score r) (pilot_score res)).
Proof.
  intros w rt images cfg c0 rest n0 res0 Hin0 Hr0.
  unfold pilot_outcome in *.
  destruct (_pilot_crop (shipped w rt) images 512) as [e|pi] eqn:Hpi;
    [discriminate Hr0|].
  rewrite (auto_select_engine_run _ _ _ _ pi Hpi); cbn [outcome snd].
  assert (Hnum : forall n res, In n (c0 :: rest) ->
                   outcome (pilot (shipped w rt) pi cfg n) = inr res ->
                   fle (pilot_score res) (pilot_score res)).
  { intros n res _ Hr.
    apply (flt_right_refl (-1)), pilot_score_above_initial.
    eapply shipped_pilot_range; exact Hr. }
  destruct (select_spec (shipped w rt) pi cfg (c0 :: rest) None (-1) eq_refl Hnum)
    as [[Hs Hle]|(i & n & res & Hi & Hn & Hs & Hlt & Hmax)].
  - exfalso.
    pose proof (pilot_score_above_initial res0
                  (shipped_pilot_range _ _ _ _ _ _ Hr0)) as Habove.
    pose proof (Hle n0 res0 Hin0 Hr0) as Hbelow.
    apply fle_not_flt in Hbelow. unfold flt in Habove. congruence.
  - rewrite Hs; cbn [fst].
    destruct n as [|c n].
    { destruct (pilot_nil_raises (shipped w rt) pi cfg) as [e He]; congruence. }
    exists (c :: n), i, res. auto.
Qed.

Lemma auto_select_on_shipped_adapters_witness :
  exists chosen i res,
    outcome (auto_select_engine (shipped world_xyz demo_runtime) one_page
               [lit "doctr"; lit "paddle"] None) = inr chosen /\
    nth_error [lit "doctr"; lit "paddle"] i = Some chosen /\
    pilot_outcome (shipped world_xyz demo_runtime) one_page None chosen
      = inr res /\
    forall j m r,
      nth_error [lit "doctr"; lit "paddle"] j = Some m ->
      pilot_outcome (shipped world_xyz demo_runtime) one_page None m = inr r ->
      fle (pilot_score r) (pilot_score res) /\
      ((j < i)%nat -> flt (pilot_score r) (pilot_score res)).
Proof.
  eapply (auto_select_on_shipped_adapters world_xyz demo_runtime one_page None
            (lit "doctr") [lit "paddle"] (lit "paddle")).
  - right; left; reflexivity.
  - vm_compute. reflexivity.
Defined.
